(** * Duplicate cleaner: keeper selection, hashing pipeline, dispatch

    A shallow embedding of [duplicate_cleaner.py].  Python objects become
    records, [Optional] becomes [option], dicts that are iterated become
    association lists in insertion order, and the file system the program
    talks to is an explicit state that the operations thread through. *)

From Stdlib Require Import ZArith Lia Ascii String List.
From stdpp Require Import base option list strings pretty gmap.

Local Open Scope string_scope.
Local Open Scope list_scope.
Local Open Scope Z_scope.

(** ** Data structures *)

(** [FileInfo].  [size] is a Python [int].  [ctime] and [mtime] are Python
    floats as [os.stat] reports them: finite doubles.  Every finite double
    is an integer multiple of 2^-1074, and [<], [==] and [min] on finite
    doubles agree with the same operations on those integers, so a
    timestamp is kept as that integer. *)
Record FileInfo := mkFileInfo {
  fi_path : string;
  fi_size : Z;
  fi_ctime : Z;
  fi_mtime : Z;
  fi_hash : option string;
  fi_folder_score : option Z
}.

Global Instance FileInfo_eq_dec : EqDecision FileInfo.
Proof. solve_decision. Defined.

(** ** Exceptions *)

(** The exceptions that can leave a function of the program. *)
Inductive exn := IndexError | ValueError | AttributeError | OSError.

Inductive result (A : Type) :=
  | Ok (a : A)
  | Raise (e : exn).
Arguments Ok {A} a.
Arguments Raise {A} e.

Global Instance result_ret : MRet result := fun A a => Ok a.
Global Instance result_bind : MBind result := fun A B k r =>
  match r with
  | Ok a => k a
  | Raise e => Raise e
  end.

(** ** Strings *)

(** The [str] methods the program and [pathlib] call.  A Python string is
    kept as a [string], one [ascii] per character. *)
Module str.
Local Open Scope nat_scope.

Definition lower_ascii (c : ascii) : ascii :=
  let n := nat_of_ascii c in
  if (65 <=? n)%nat && (n <=? 90)%nat then ascii_of_nat (n + 32) else c.

(** [s.lower()] *)
Fixpoint lower (s : string) : string :=
  match s with
  | EmptyString => EmptyString
  | String c s' => String (lower_ascii c) (lower s')
  end.

(** [s.replace(old, new)] for a one-character [old]. *)
Fixpoint replace (old : ascii) (new : string) (s : string) : string :=
  match s with
  | EmptyString => EmptyString
  | String c s' =>
      if decide (c = old) then new +:+ replace old new s'
      else String c (replace old new s')
  end.

(** [s.split(c)]: the pieces between the occurrences of [c], empty ones
    included. *)
Fixpoint split (c : ascii) (s : string) : list string :=
  match s with
  | EmptyString => [EmptyString]
  | String a s' =>
      if decide (a = c) then EmptyString :: split c s'
      else match split c s' with
           | x :: xs => String a x :: xs
           | [] => [String a EmptyString]
           end
  end.

(** [c in s] *)
Fixpoint contains (c : ascii) (s : string) : bool :=
  match s with
  | EmptyString => false
  | String a s' => bool_decide (a = c) || contains c s'
  end.

(** [s.lstrip(c)] *)
Fixpoint lstrip (c : ascii) (s : string) : string :=
  match s with
  | String a s' => if decide (a = c) then lstrip c s' else s
  | EmptyString => s
  end.

(** [s[:n]] and [s[n:]] *)
Fixpoint take (n : nat) (s : string) : string :=
  match n, s with
  | S n', String c s' => String c (take n' s')
  | _, _ => EmptyString
  end.

Fixpoint drop (n : nat) (s : string) : string :=
  match n, s with
  | S n', String _ s' => drop n' s'
  | _, _ => s
  end.

(** [s.find(c, start)]; [None] stands for [-1]. *)
Fixpoint find_from (c : ascii) (s : string) (i : nat) : option nat :=
  match s with
  | EmptyString => None
  | String a s' => if decide (a = c) then Some i else find_from c s' (S i)
  end.

Definition find (c : ascii) (start : nat) (s : string) : option nat :=
  find_from c (drop start s) start.

(** [s.rfind(c)] *)
Fixpoint rfind_from (c : ascii) (s : string) (i : nat) : option nat :=
  match s with
  | EmptyString => None
  | String a s' =>
      match rfind_from c s' (S i) with
      | Some j => Some j
      | None => if decide (a = c) then Some i else None
      end
  end.

Definition rfind (c : ascii) (s : string) : option nat := rfind_from c s 0.

(** [s.startswith(p)] *)
Fixpoint startswith (p s : string) : bool :=
  match p, s with
  | EmptyString, _ => true
  | String a p', String b s' => bool_decide (a = b) && startswith p' s'
  | String _ _, EmptyString => false
  end.

(** [sub in s] for strings: [sub] occurs somewhere in [s]. *)
Fixpoint occurs (sub s : string) : bool :=
  startswith sub s
  || match s with
     | EmptyString => false
     | String _ s' => occurs sub s'
     end.

(** [sep.join(parts)] *)
Definition join (sep : string) (parts : list string) : string :=
  String.concat sep parts.

(** Truth value of a string: the empty string is false. *)
Definition truthy (s : string) : bool := negb (bool_decide (s = EmptyString)).

End str.

(** ** pathlib *)

(** [fnmatch.fnmatchcase(name, pattern)], the matching of one path
    component against one pattern component, is a parameter. *)
Class Glob := fnmatchcase : string -> string -> bool.

(** [PureWindowsPath] as Python 3.11 implements it, the version the module
    names; the program is written for Windows.  A path object holds the
    drive, the root and the list of parts, whose first element is the anchor
    [drv + root] when there is one. *)
Module pathlib.
Local Open Scope nat_scope.

Definition sep : ascii := "\"%char.
Definition altsep : ascii := "/"%char.
Definition sep_s : string := String sep EmptyString.

Record Path := mkPath {
  drv : string;
  root : string;
  parts : list string
}.

Global Instance Path_eq_dec : EqDecision Path.
Proof. solve_decision. Defined.

Definition is_drive_letter (c : ascii) : bool :=
  let n := nat_of_ascii c in
  ((65 <=? n)%nat && (n <=? 90)%nat) || ((97 <=? n)%nat && (n <=? 122)%nat).

(** [second == ':' and first in drive_letters] *)
Definition drive_like (part : string) : bool :=
  match part with
  | String c (String ":" _) => is_drive_letter c
  | _ => false
  end.

(** [_split_extended_path]: the prefix [\\?\] and [\\?\UNC\]. *)
Definition split_extended_path (s : string) : string * string :=
  if str.startswith "\\?\" s then
    let prefix := str.take 4 s in
    let s := str.drop 4 s in
    if str.startswith "UNC\" s then
      (prefix +:+ str.take 3 s, sep_s +:+ str.drop 3 s)
    else (prefix, s)
  else (EmptyString, s).

(** [_WindowsFlavour.splitroot]: (drive, root, rest) of one string whose
    [/] have been replaced by [\]. *)
Definition splitroot (part0 : string) : string * string * string :=
  let ch (i : nat) (s : string) := str.take 1 (str.drop i s) in
  let '(prefix, part) :=
    if bool_decide (ch 1 part0 = sep_s) && bool_decide (ch 0 part0 = sep_s)
    then split_extended_path part0 else (EmptyString, part0) in
  let first := ch 0 part in
  let second := ch 1 part in
  let third := ch 2 part in
  let unc :=
    if bool_decide (second = sep_s) && bool_decide (first = sep_s)
       && negb (bool_decide (third = sep_s)) then
      match str.find sep 2 part with
      | Some index =>
          let index2 := str.find sep (index + 1) part in
          if bool_decide (index2 = Some (index + 1)%nat) then None
          else
            let index2 := default (String.length part) index2 in
            if str.truthy prefix then
              Some (prefix +:+ str.drop 1 (str.take index2 part), sep_s,
                    str.drop (index2 + 1) part)
            else
              Some (str.take index2 part, sep_s, str.drop (index2 + 1) part)
      | None => None
      end
    else None in
  match unc with
  | Some r => r
  | None =>
      let '(drv, part, first) :=
        if drive_like part then (str.take 2 part, str.drop 2 part, third)
        else (EmptyString, part, first) in
      if bool_decide (first = sep_s) then
        (prefix +:+ drv, first, str.lstrip sep part)
      else (prefix +:+ drv, EmptyString, part)
  end.

(** The components of the rest of a part: [rel.split(sep)] without the
    empty ones and without [.]. *)
Definition components (rel : string) : list string :=
  List.filter (fun x => str.truthy x && negb (bool_decide (x = ".")))
    (str.split sep rel).

(** The drive searched in the parts before the one that carried a root. *)
Fixpoint find_drive (rparts : list string) : string :=
  match rparts with
  | [] => EmptyString
  | part :: rest =>
      if str.truthy part then
        let d := (splitroot (str.replace altsep sep_s part)).1.1 in
        if str.truthy d then d else find_drive rest
      else find_drive rest
  end.

(** The loop of [parse_parts] over the reversed arguments; the
    components come back in path order. *)
Fixpoint parse_reversed (rparts : list string) : string * string * list string :=
  match rparts with
  | [] => (EmptyString, EmptyString, [])
  | part :: rest =>
      if str.truthy part then
        let '(d, r, rel) := splitroot (str.replace altsep sep_s part) in
        if str.truthy d || str.truthy r then
          (if str.truthy d then d else find_drive rest, r, components rel)
        else
          let '(d', r', parsed) := parse_reversed rest in
          (d', r', parsed ++ components rel)
      else parse_reversed rest
  end.

(** [_Flavour.parse_parts] *)
Definition parse_parts (args : list string) : Path :=
  let '(d, r, parsed) := parse_reversed (rev args) in
  mkPath d r
    (if str.truthy d || str.truthy r then (d +:+ r) :: parsed else parsed).

(** [_Flavour.join_parsed_parts] *)
Definition join_parsed_parts (p p2 : Path) : Path :=
  if str.truthy (root p2) then
    if negb (str.truthy (drv p2)) && str.truthy (drv p) then
      mkPath (drv p) (root p2) ((drv p +:+ root p2) :: tl (parts p2))
    else p2
  else if str.truthy (drv p2) then
    if bool_decide (drv p2 = drv p)
       || bool_decide (str.lower (drv p2) = str.lower (drv p)) then
      mkPath (drv p) (root p) (parts p ++ tl (parts p2))
    else p2
  else mkPath (drv p) (root p) (parts p ++ parts p2).

(** [Path(s)] *)
Definition of_string (s : string) : Path := parse_parts [s].

(** [p / name] for a string and [p / q] for a path: [_make_child]. *)
Definition joinpath_str (p : Path) (name : string) : Path :=
  join_parsed_parts p (parse_parts [name]).

Definition joinpath (p q : Path) : Path :=
  join_parsed_parts p (parse_parts (parts q)).

Definition anchored (p : Path) : bool :=
  str.truthy (drv p) || str.truthy (root p).

(** What [parse_parts] leaves as a component: a non-empty string other
    than [.] without a separator. *)
Definition component (x : string) : Prop :=
  x <> EmptyString /\ x <> "." /\
  str.contains sep x = false /\ str.contains altsep x = false.

(** A component that is read as itself when it is parsed again. *)
Definition plain_component (x : string) : Prop :=
  component x /\ drive_like x = false.


(** The drives and roots of the paths that are no UNC or device path. *)
Definition drive_or_none (d : string) : Prop :=
  d = EmptyString \/ exists c, is_drive_letter c = true /\ d = String c ":".

Definition root_or_none (r : string) : Prop := r = EmptyString \/ r = sep_s.

(** The components below the anchor. *)
Definition tail (p : Path) : list string :=
  if anchored p then tl (parts p) else parts p.

(** A string that begins with two separators: a UNC share or a device
    path. *)
Definition unc_like (s : string) : bool :=
  str.startswith "\\" (str.replace altsep sep_s s).

(** [str(p)]: [_format_parsed_parts(...) or '.'] *)
Definition to_string (p : Path) : string :=
  let s :=
    if anchored p then drv p +:+ root p +:+ str.join sep_s (tl (parts p))
    else str.join sep_s (parts p) in
  if str.truthy s then s else ".".

(** [p.name] *)
Definition name (p : Path) : string :=
  if bool_decide (length (parts p) = if anchored p then 1%nat else 0%nat)
  then EmptyString
  else List.last (parts p) EmptyString.

(** [p.suffix] *)
Definition suffix (p : Path) : string :=
  let n := name p in
  match str.rfind "." n with
  | Some i =>
      if bool_decide (0 < i)%nat && bool_decide (i < String.length n - 1)%nat
      then str.drop i n else EmptyString
  | None => EmptyString
  end.

(** [p.parent] *)
Definition parent (p : Path) : Path :=
  if bool_decide (length (parts p) = 1%nat) && anchored p then p
  else mkPath (drv p) (root p) (removelast (parts p)).

(** [p.parents]: [parts[:-1]], [parts[:-2]], ... down to the anchor. *)
Definition parents (p : Path) : list Path :=
  let n := if anchored p then (length (parts p) - 1)%nat else length (parts p) in
  map (fun idx => mkPath (drv p) (root p)
                    (firstn (length (parts p) - idx - 1) (parts p)))
      (seq 0 n).

(** [p == q]: the case-folded parts are equal. *)
Definition eqb (p q : Path) : bool :=
  bool_decide (map str.lower (parts p) = map str.lower (parts q)).

(** [q in p.parents] *)
Definition in_parents (q p : Path) : bool :=
  existsb (fun a => eqb a q) (parents p).

(** [p.relative_to(other)]; [None] is the [ValueError]. *)
Definition relative_to (p other : Path) : option Path :=
  let abs_parts :=
    if str.truthy (root p) then drv p :: root p :: tl (parts p) else parts p in
  let to := parse_parts (parts other) in
  let to_abs_parts :=
    if str.truthy (root to) then drv to :: root to :: tl (parts to)
    else parts to in
  let n := length to_abs_parts in
  let bad :=
    if bool_decide (n = 0%nat) then anchored p
    else negb (bool_decide (map str.lower (firstn n abs_parts)
                            = map str.lower to_abs_parts)) in
  if bad then None
  else Some (mkPath EmptyString
               (if bool_decide (n = 1%nat) then root p else EmptyString)
               (skipn n abs_parts)).

(** [p.match(path_pattern)]; the [ValueError] is the one of an empty
    pattern. *)
Definition match_ `{Glob} (p : Path) (path_pattern : string) : result bool :=
  let path_pattern := str.lower path_pattern in
  let pat := parse_parts [path_pattern] in
  let fnmatch_all (ps pats : list string) :=
    forallb (fun '(part, pat) => fnmatchcase part pat) (zip (rev ps) (rev pats)) in
  match parts pat with
  | [] => Raise ValueError
  | _ =>
      if str.truthy (drv pat) && negb (bool_decide (drv pat = str.lower (drv p)))
      then Ok false
      else if str.truthy (root pat) && negb (bool_decide (root pat = str.lower (root p)))
      then Ok false
      else
        let cparts := map str.lower (parts p) in
        if anchored pat then
          if negb (bool_decide (length (parts pat) = length cparts)) then Ok false
          else Ok (fnmatch_all cparts (tl (parts pat)))
        else if bool_decide (length cparts < length (parts pat)) then Ok false
        else Ok (fnmatch_all cparts (parts pat))
  end.

End pathlib.

(** ** The file system *)

(** The calls of the program that change the file system. *)
Inductive Syscall :=
  | SysRemove (p : string)
  | SysMkdir (p : string)
  | SysMove (src dst : string).

(** What the program can see and change: the regular files with their
    bytes and the directories, both under the path string handed to the
    operating system; the paths on which the system refuses every
    operation (access denied, file in use); and the record of the changing
    calls issued so far, whether they succeeded or not. *)
Record World := mkWorld {
  w_files : gmap string (list Byte.byte);
  w_dirs : gset string;
  w_locked : gset string;
  w_trace : list Syscall
}.

Definition issue (c : Syscall) (w : World) : World :=
  mkWorld (w_files w) (w_dirs w) (w_locked w) (w_trace w ++ [c]).

(** [open(p, 'rb')] followed by reads sees the bytes of the file;
    [None] is the [OSError]. *)
Definition os_open (w : World) (p : string) : option (list Byte.byte) :=
  if decide (p ∈ w_locked w) then None else w_files w !! p.

(** [os.path.getsize(p)] *)
Definition os_getsize (w : World) (p : string) : option Z :=
  if decide (p ∈ w_locked w) then None
  else (fun c => Z.of_nat (length c)) <$> w_files w !! p.

(** The [OSError]s of the changing calls, and [str(e)] of one. *)
Inductive os_error :=
  | PermissionError (p : string)
  | FileNotFoundError (p : string)
  | FileExistsError (p : string).

Definition os_error_str (e : os_error) : string :=
  match e with
  | PermissionError p => "[WinError 5] Access is denied: '" +:+ p +:+ "'"
  | FileNotFoundError p =>
      "[WinError 2] The system cannot find the file specified: '" +:+ p +:+ "'"
  | FileExistsError p =>
      "[WinError 183] Cannot create a file when that file already exists: '"
        +:+ p +:+ "'"
  end.

(** [os.remove(p)]: the world after the call, and the error if it raised. *)
Definition os_remove (p : string) (w : World) : World * option os_error :=
  let w := issue (SysRemove p) w in
  if decide (p ∈ w_locked w) then (w, Some (PermissionError p))
  else match w_files w !! p with
       | Some _ =>
           (mkWorld (delete p (w_files w)) (w_dirs w) (w_locked w) (w_trace w), None)
       | None => (w, Some (FileNotFoundError p))
       end.

(** [d.mkdir(parents=True, exist_ok=True)]: raises when the directory or
    one above it is refused or is a regular file. *)
Definition os_mkdir_parents (d : pathlib.Path) (w : World) : World * option os_error :=
  let w := issue (SysMkdir (pathlib.to_string d)) w in
  let targets := pathlib.to_string <$> (d :: pathlib.parents d) in
  match List.find (fun t => bool_decide (t ∈ w_locked w)) targets with
  | Some t => (w, Some (PermissionError t))
  | None =>
      match List.find (fun t => bool_decide (is_Some (w_files w !! t))) targets with
      | Some t => (w, Some (FileExistsError t))
      | None =>
          (mkWorld (w_files w) (w_dirs w ∪ list_to_set targets) (w_locked w)
             (w_trace w), None)
      end
  end.

(** [shutil.move(src, dst)]: a destination that is a directory receives
    the file under its own name, and refuses when that name is taken. *)
Definition shutil_move (src dst : string) (w : World) : World * option os_error :=
  let w := issue (SysMove src dst) w in
  if decide (src ∈ w_locked w) then (w, Some (PermissionError src))
  else if decide (dst ∈ w_locked w) then (w, Some (PermissionError dst))
  else match w_files w !! src with
       | None => (w, Some (FileNotFoundError src))
       | Some content =>
           let into_dir := bool_decide (dst ∈ w_dirs w) in
           let real_dst :=
             if into_dir
             then pathlib.to_string
                    (pathlib.joinpath_str (pathlib.of_string dst)
                       (pathlib.name (pathlib.of_string src)))
             else dst in
           if into_dir
              && bool_decide (is_Some (w_files w !! real_dst) \/ real_dst ∈ w_dirs w)
           then (w, Some (FileExistsError real_dst))
           else (mkWorld (<[real_dst := content]> (delete src (w_files w)))
                   (w_dirs w) (w_locked w) (w_trace w), None)
       end.

(** [list(parent.iterdir())] with, for each entry, whether it is a regular
    file; [None] is the [OSError] of a directory that cannot be listed.  A
    directory that holds nothing lists as empty. *)
Definition os_iterdir (w : World) (d : pathlib.Path) : option (list (pathlib.Path * bool)) :=
  if decide (pathlib.to_string d ∈ w_locked w) then None
  else
    let inside (k : string) :=
      let p := pathlib.of_string k in
      str.truthy (pathlib.name p) && pathlib.eqb (pathlib.parent p) d in
    Some (((fun k => (pathlib.of_string k, true))
             <$> List.filter inside (map_to_list (w_files w)).*1)
          ++ ((fun k => (pathlib.of_string k, false))
                <$> List.filter inside (elements (w_dirs w)))).

(** ** Hasher *)

Definition CHUNK_SIZE : Z := 65536.
Definition PARTIAL_HASH_SIZE : Z := 1024 * 1024.

(** [hashlib.sha256]: the digest of the bytes fed so far, as hexadecimal
    text.  The hash function itself is a parameter. *)
Class Digest := sha256_hexdigest : list Byte.byte -> string.

(** A hasher object is the sequence of chunks it was updated with. *)
Definition hasher := list (list Byte.byte).
Definition hasher_update (h : hasher) (chunk : list Byte.byte) : hasher := h ++ [chunk].
Definition hexdigest `{Digest} (h : hasher) : string := sha256_hexdigest (concat h).

(** An open binary file: its bytes and the position of the next read. *)
Record file := mkFile { f_bytes : list Byte.byte; f_pos : nat }.

Definition f_read (n : Z) (f : file) : list Byte.byte * file :=
  let chunk := take (Z.to_nat n) (drop (f_pos f) (f_bytes f)) in
  (chunk, mkFile (f_bytes f) (f_pos f + length chunk)).

(** [f.seek(offset)] *)
Definition f_seek (offset : Z) (f : file) : file :=
  mkFile (f_bytes f) (Z.to_nat offset).

(** [f.seek(offset, 2)]: from the end; a position before the start is an
    [OSError]. *)
Definition f_seek_end (offset : Z) (f : file) : option file :=
  let pos := Z.of_nat (length (f_bytes f)) + offset in
  if pos <? 0 then None else Some (mkFile (f_bytes f) (Z.to_nat pos)).

(** The body of [compute_partial_hash] up to the digest: the chunks the
    hasher has been fed when the file is closed. *)
Definition partial_hash_chunks (w : World) (filepath : string) : option hasher :=
  file_size ← os_getsize w filepath;
  bytes ← os_open w filepath;
  let f := mkFile bytes 0 in
  (* Read beginning *)
  let '(chunk, f) := f_read CHUNK_SIZE f in
  let h := hasher_update [] chunk in
  (* Read middle if file is large enough *)
  let '(h, f) :=
    if 2 * CHUNK_SIZE <? file_size then
      let f := f_seek (file_size `div` 2) f in
      let '(chunk, f) := f_read CHUNK_SIZE f in
      (hasher_update h chunk, f)
    else (h, f) in
  (* Read end if file is large enough *)
  if 3 * CHUNK_SIZE <? file_size then
    f ← f_seek_end (- CHUNK_SIZE) f;
    let '(chunk, f) := f_read CHUNK_SIZE f in
    Some (hasher_update h chunk)
  else Some h.

(** [Hasher.compute_partial_hash]; [None] when the file cannot be read. *)
Definition compute_partial_hash `{Digest} (w : World) (filepath : string)
    : option string :=
  hexdigest <$> partial_hash_chunks w filepath.

(** The loop [while chunk := f.read(CHUNK_SIZE): hasher.update(chunk)];
    every turn that does not stop consumes at least one byte, so the
    number of bytes plus one bounds the number of turns. *)
Fixpoint read_loop (turns : nat) (f : file) (h : hasher) : hasher :=
  match turns with
  | O => h
  | S turns' =>
      let '(chunk, f) := f_read CHUNK_SIZE f in
      match chunk with
      | [] => h
      | _ => read_loop turns' f (hasher_update h chunk)
      end
  end.

(** [Hasher.compute_full_hash] *)
Definition compute_full_hash `{Digest} (w : World) (filepath : string)
    : option string :=
  bytes ← os_open w filepath;
  Some (hexdigest (read_loop (S (length bytes)) (mkFile bytes 0) [])).

(** ** DecisionEngine *)

(** [compute_folder_score]: the sets of names it looks for.  A Python set
    has no order; the score adds one term per member, so a list of the
    members does. *)
Definition PROJECT_INDICATORS : list string :=
  ["package.json"; "package-lock.json"; "yarn.lock"; "pom.xml";
   "build.gradle"; "settings.gradle"; "angular.json"; "tsconfig.json";
   "pyproject.toml"; "setup.py"; "requirements.txt"; "Pipfile";
   "Cargo.toml"; "go.mod"; "composer.json"; ".gitignore"; ".git";
   "Makefile"; "CMakeLists.txt"; ".sln"; ".csproj"; ".vbproj"].

Definition PROJECT_FOLDERS : list string :=
  ["src"; "source"; "lib"; "app"; "components"; "modules";
   "node_modules"; ".git"; ".svn"; "dist"; "build"; "target";
   "bin"; "obj"; "__pycache__"; "venv"; ".env"].

Definition USER_CONTENT_KEYWORDS : list string :=
  ["documents"; "photos"; "pictures"; "videos"; "music"; "downloads";
   "desktop"; "onedrive"; "dropbox"; "google drive"].

Definition IGNORE_KEYWORDS : list string :=
  ["temp"; "tmp"; "cache"; "recycle"; "trash"; "$recycle.bin"].

(** How many members of [names] satisfy [test]. *)
Definition count_where (test : string -> bool) (names : list string) : Z :=
  Z.of_nat (length (List.filter test names)).

(** [DecisionEngine.compute_folder_score] *)
Definition compute_folder_score (w : World) (filepath : string) : Z :=
  let path_obj := pathlib.of_string filepath in
  let parent := pathlib.parent path_obj in
  let path_lower := str.lower (pathlib.to_string parent) in
  let score := 0 in
  let score :=
    match os_iterdir w parent with
    | Some siblings =>
        let sibling_names :=
          remove_dups
            ((fun s => str.lower (pathlib.name s.1))
               <$> List.filter (fun s : pathlib.Path * bool => s.2) siblings) in
        let score :=
          score + 50 * count_where
                         (fun indicator =>
                            bool_decide (str.lower indicator ∈ sibling_names))
                         PROJECT_INDICATORS in
        let sibling_dirs :=
          remove_dups
            ((fun s => str.lower (pathlib.name s.1))
               <$> List.filter (fun s : pathlib.Path * bool => negb s.2) siblings) in
        let score :=
          score + 30 * count_where
                         (fun folder =>
                            bool_decide (str.lower folder ∈ sibling_dirs))
                         PROJECT_FOLDERS in
        if (10 <? length sibling_names)%nat then score + 20 else score
    | None => score
    end in
  let score :=
    score + 40 * count_where (fun keyword => str.occurs keyword path_lower)
                   USER_CONTENT_KEYWORDS in
  let score :=
    score - 100 * count_where (fun keyword => str.occurs keyword path_lower)
                    IGNORE_KEYWORDS in
  let path_depth := Z.of_nat (length (pathlib.parts path_obj)) in
  score - path_depth * 2.

Definition get_earliest_time (file_info : FileInfo) : Z :=
  Z.min (fi_ctime file_info) (fi_mtime file_info).

(** The loop [if file.folder_score is None: file.folder_score = ...]. *)
Definition fill_folder_score (w : World) (file : FileInfo) : FileInfo :=
  match fi_folder_score file with
  | Some _ => file
  | None =>
      mkFileInfo (fi_path file) (fi_size file) (fi_ctime file) (fi_mtime file)
        (fi_hash file) (Some (compute_folder_score w (fi_path file)))
  end.

(** Reading [f.folder_score] as a number.  The sort key and the reason text
    read it only after the filling loop has run. *)
Definition score (f : FileInfo) : Z := default 0 (fi_folder_score f).

Definition path_len (f : FileInfo) : nat := String.length (fi_path f).

(** The key of the sort: [(-f.folder_score, earliest_time(f), len(f.path))]. *)
Definition sort_key (f : FileInfo) : Z * Z * nat :=
  (- score f, get_earliest_time f, path_len f).

(** Python's [<] on tuples: the first position where the two differ decides. *)
Definition key_lt (a b : Z * Z * nat) : bool :=
  let '(s1, t1, n1) := a in
  let '(s2, t2, n2) := b in
  if negb (s1 =? s2) then s1 <? s2
  else if negb (t1 =? t2) then t1 <? t2
  else (n1 <? n2)%nat.

(** [sorted(files, key=...)] is a stable sort that compares keys with [<]
    only.  A stable sort has one possible result, so it is written here as
    the stable insertion sort: an element goes in front of the first element
    of the sorted rest whose key is not smaller than its own. *)
Fixpoint insert_sorted {A K} (key : A -> K) (lt : K -> K -> bool)
    (x : A) (l : list A) : list A :=
  match l with
  | [] => [x]
  | y :: l' =>
      if lt (key y) (key x) then y :: insert_sorted key lt x l'
      else x :: y :: l'
  end.

Definition sorted {A K} (key : A -> K) (lt : K -> K -> bool)
    (l : list A) : list A :=
  foldr (insert_sorted key lt) [] l.

(** [choose_file_to_keep].  The function fills the score of the records it
    is given, so it returns the list as it is afterwards together with the
    keeper; [None] is the [IndexError] of [sorted_files[0]] on an empty
    list. *)
Definition choose_file_to_keep (w : World) (files : list FileInfo)
    : option (FileInfo * list FileInfo) :=
  match files with
  | [f] => Some (f, files)
  | _ =>
      let files' := map (fill_folder_score w) files in
      match sorted sort_key key_lt files' with
      | k :: _ => Some (k, files')
      | [] => None
      end
  end.

(** ** Scanner *)

(** [Path.resolve()] asks the operating system; [None] is the [OSError] or
    [RuntimeError] it can raise. *)
Class Resolver := resolve : pathlib.Path -> option pathlib.Path.

Record Scanner := mkScanner {
  sc_root : pathlib.Path;
  exclude_paths : list pathlib.Path;
  exclude_globs : list string;
  skip_extensions : list string;
  min_size : Z;
  max_size : Z;
  files_scanned : Z
}.

(** [Scanner.__init__]: the excluded paths are resolved and the extensions
    lowercased once, here. *)
Definition Scanner_init `{Resolver} (root : string)
    (exclude_paths exclude_globs skip_extensions : list string)
    (min_size max_size : Z) : result Scanner :=
  excluded ← mapM (fun p => match resolve (pathlib.of_string p) with
                            | Some r => Ok r
                            | None => Raise OSError
                            end) exclude_paths;
  Ok (mkScanner (pathlib.of_string root) excluded exclude_globs
        (str.lower <$> skip_extensions) min_size max_size 0).

(** The components [Path.match] finds in a pattern; matching against a
    pattern that has none raises [ValueError]. *)
Definition pattern_parts (path_pattern : string) : list string :=
  pathlib.parts (pathlib.parse_parts [str.lower path_pattern]).

(** The loop over [self.exclude_globs]. *)
Fixpoint glob_loop `{Glob} (p : pathlib.Path) (patterns : list string)
    : result bool :=
  match patterns with
  | [] => Ok false
  | pattern :: rest =>
      m ← pathlib.match_ p (str.lower pattern);
      if m : bool then Ok true else glob_loop p rest
  end.

(** [Scanner.should_skip_path] *)
Definition should_skip_path `{Resolver, Glob} (self : Scanner)
    (path : pathlib.Path) : result bool :=
  match resolve path with
  | None => Ok true
  | Some resolved =>
      if existsb (fun excluded =>
                    pathlib.eqb resolved excluded
                    || pathlib.in_parents excluded resolved)
           (exclude_paths self)
      then Ok true
      else
        let path_str := str.lower (pathlib.to_string path) in
        m ← glob_loop (pathlib.of_string path_str) (exclude_globs self);
        if m : bool then Ok true
        else if bool_decide (str.lower (pathlib.suffix path) ∈ skip_extensions self)
        then Ok true
        else Ok false
  end.

(** [os.stat_result], the three fields the scanner reads. *)
Record stat_result := mkStat { st_size : Z; st_ctime : Z; st_mtime : Z }.

(** The tree [os.walk(root, topdown=True, followlinks=False)] goes through.
    A directory lists its non-directory entries, each with what
    [filepath.stat()] gives ([None]: the call raises [OSError]), and its
    directory entries: [Enter] for one the walk descends into, [Leave] for
    one it lists but does not enter (a link to a directory, a directory
    that cannot be listed). *)
Inductive DirTree :=
  | Dir (files : list (string * option stat_result)) (dirs : Forest)
with Forest :=
  | Done
  | Enter (name : string) (sub : DirTree) (rest : Forest)
  | Leave (name : string) (rest : Forest).

Fixpoint dir_names (ds : Forest) : list string :=
  match ds with
  | Done => []
  | Enter name _ rest | Leave name rest => name :: dir_names rest
  end.

(** A dict of lists filled with [d[k].append(v)], [d] a [defaultdict(list)]:
    a new key goes last, a known key keeps its place. *)
Fixpoint group_append {K V} `{EqDecision K} (k : K) (v : V)
    (d : list (K * list V)) : list (K * list V) :=
  match d with
  | [] => [(k, [v])]
  | (k', vs) :: d' =>
      if decide (k' = k) then (k', vs ++ [v]) :: d'
      else (k', vs) :: group_append k v d'
  end.

(** The body of [for filename in files] for one entry. *)
Definition scan_file `{Resolver, Glob} (self : Scanner) (root_path : pathlib.Path)
    (entry : string * option stat_result)
    (acc : list (Z * list FileInfo) * Z) : result (list (Z * list FileInfo) * Z) :=
  let '(filename, st) := entry in
  let '(size_groups, scanned) := acc in
  let filepath := pathlib.joinpath_str root_path filename in
  skip ← should_skip_path self filepath;
  if skip : bool then Ok acc
  else match st with
       | None => Ok acc
       | Some stat =>
           let size := st_size stat in
           if (size <? min_size self) || (max_size self <? size) then Ok acc
           else
             let file_info :=
               mkFileInfo (pathlib.to_string filepath) size (st_ctime stat)
                 (st_mtime stat) None None in
             Ok (group_append size file_info size_groups, scanned + 1)
       end.

Fixpoint scan_files `{Resolver, Glob} (self : Scanner) (root_path : pathlib.Path)
    (files : list (string * option stat_result))
    (acc : list (Z * list FileInfo) * Z) : result (list (Z * list FileInfo) * Z) :=
  match files with
  | [] => Ok acc
  | entry :: rest =>
      acc ← scan_file self root_path entry acc;
      scan_files self root_path rest acc
  end.

(** The walk.  For one directory: [dirs[:]] is pruned first (the verdicts
    for all its directory entries), then the files are taken, then the walk
    enters the directories that were kept, in order. *)
Fixpoint walk `{Resolver, Glob} (self : Scanner) (root_path : pathlib.Path)
    (t : DirTree) (acc : list (Z * list FileInfo) * Z)
    : result (list (Z * list FileInfo) * Z) :=
  match t with
  | Dir files dirs =>
      skips ← mapM (fun d => should_skip_path self (pathlib.joinpath_str root_path d))
                (dir_names dirs);
      acc ← scan_files self root_path files acc;
      walk_dirs self root_path dirs skips acc
  end
with walk_dirs `{Resolver, Glob} (self : Scanner) (root_path : pathlib.Path)
    (ds : Forest) (skips : list bool) (acc : list (Z * list FileInfo) * Z)
    : result (list (Z * list FileInfo) * Z) :=
  match ds, skips with
  | Enter name sub rest, skip :: skips' =>
      if skip then walk_dirs self root_path rest skips' acc
      else
        acc ← walk self (pathlib.joinpath_str root_path name) sub acc;
        walk_dirs self root_path rest skips' acc
  | Leave _ rest, _ :: skips' => walk_dirs self root_path rest skips' acc
  | _, _ => Ok acc
  end.

(** [Scanner.scan]: the size groups with more than one file, and the
    scanner with its counter advanced.  [top] is the tree under the root,
    [None] when the root cannot be listed. *)
Definition scan `{Resolver, Glob} (self : Scanner) (top : option DirTree)
    : result (list (Z * list FileInfo) * Scanner) :=
  '(size_groups, scanned) ←
    match top with
    | Some t => walk self (sc_root self) t ([], files_scanned self)
    | None => Ok ([], files_scanned self)
    end;
  let duplicate_candidates :=
    List.filter (fun '(size, files) => (1 <? length files)%nat) size_groups in
  Ok (duplicate_candidates,
      mkScanner (sc_root self) (exclude_paths self) (exclude_globs self)
        (skip_extensions self) (min_size self) (max_size self) scanned).

(** ** QuarantineManager *)

Record QuarantineManager := mkQuarantineManager {
  quarantine_dir : pathlib.Path;
  moves : list (string * string)
}.

(** [QuarantineManager.__init__] *)
Definition QuarantineManager_init (quarantine_dir : string) : QuarantineManager :=
  mkQuarantineManager (pathlib.of_string quarantine_dir) [].

(** [QuarantineManager.prepare_quarantine] *)
Definition prepare_quarantine (self : QuarantineManager) (w : World) : result World :=
  match os_mkdir_parents (quarantine_dir self) w with
  | (w, None) => Ok w
  | (_, Some _) => Raise OSError
  end.

(** [QuarantineManager.get_quarantine_path] *)
Definition get_quarantine_path (self : QuarantineManager) (original_path : string)
    : pathlib.Path :=
  let original := pathlib.of_string original_path in
  let relative :=
    let drive := pathlib.of_string (pathlib.drv original +:+ "\") in
    match pathlib.relative_to original drive with
    | Some relative => relative
    | None => pathlib.of_string (str.replace ":" "_drive" (pathlib.to_string original))
    end in
  pathlib.joinpath (quarantine_dir self) relative.

(** [QuarantineManager.move_to_quarantine]: success, the manager and the
    world afterwards.  Every exception of the body makes it return
    [False]. *)
Definition move_to_quarantine (self : QuarantineManager) (filepath : string)
    (w : World) : bool * QuarantineManager * World :=
  let source := pathlib.of_string filepath in
  let dest := get_quarantine_path self filepath in
  match os_mkdir_parents (pathlib.parent dest) w with
  | (w, Some _) => (false, self, w)
  | (w, None) =>
      match shutil_move (pathlib.to_string source) (pathlib.to_string dest) w with
      | (w, Some _) => (false, self, w)
      | (w, None) =>
          (true,
           mkQuarantineManager (quarantine_dir self)
             (moves self ++ [(filepath, pathlib.to_string dest)]),
           w)
      end
  end.

(** ** DuplicateCleaner *)

(** [args.mode]: the command line accepts these three words only. *)
Inductive Mode := report | quarantine | delete.

Global Instance Mode_eq_dec : EqDecision Mode.
Proof. solve_decision. Defined.

(** The parsed command line, the fields the pipeline reads. *)
Record Args := mkArgs {
  arg_root : string;
  arg_mode : Mode;
  arg_apply : bool;
  arg_confirm : bool;
  arg_workers : Z
}.

(** [DuplicateAction].  The [timestamp] field, the wall clock at
    creation, is left out. *)
Record DuplicateAction := mkDuplicateAction {
  da_hash : string;
  da_size : Z;
  da_kept_path : string;
  da_removed_path : string;
  da_reason : string;
  da_kept_ctime : Z;
  da_kept_mtime : Z;
  da_removed_ctime : Z;
  da_removed_mtime : Z;
  da_action : string;
  da_error : option string
}.

(** The cleaner: its arguments, the actions its reporter has collected, and
    its quarantine manager, present in quarantine mode only. *)
Record DuplicateCleaner := mkDuplicateCleaner {
  args : Args;
  reporter_actions : list DuplicateAction;
  quarantine_manager : option QuarantineManager
}.

(** [DuplicateCleaner.__init__], without the scanner. *)
Definition DuplicateCleaner_init (args : Args) : DuplicateCleaner :=
  mkDuplicateCleaner args []
    (if decide (arg_mode args = quarantine) then
       let quarantine_dir :=
         pathlib.joinpath_str (pathlib.of_string (arg_root args))
           "_DUPLICATE_QUARANTINE" in
       Some (QuarantineManager_init (pathlib.to_string quarantine_dir))
     else None).

(** [concurrent.futures.as_completed]: the submitted tasks in the order in
    which they finish, which is some order of the tasks submitted. *)
Class Scheduler := {
  as_completed : forall {A : Type}, list A -> list A;
  as_completed_perm : forall {A : Type} (l : list A), as_completed l ≡ₚ l
}.

(** What [if partial_hash:] tests: a hash that is there and not empty. *)
Definition hash_ok (h : option string) : bool :=
  match h with
  | Some s => str.truthy s
  | None => false
  end.

(** Collecting one finished task: [if h: groups[h].append(file_info)]. *)
Definition collect_step (hash_of : FileInfo -> option string)
    (store : string -> FileInfo -> FileInfo)
    (groups : list (string * list FileInfo))
    (file_info : FileInfo) : list (string * list FileInfo) :=
  match hash_of file_info with
  | Some h =>
      if str.truthy h then group_append h (store h file_info) groups else groups
  | None => groups
  end.

(** Collecting the finished tasks of one pass into groups by hash. *)
Definition collect (hash_of : FileInfo -> option string)
    (store : string -> FileInfo -> FileInfo)
    (done : list FileInfo) : list (string * list FileInfo) :=
  foldl (collect_step hash_of store) [] done.

(** [file_info.hash = full_hash] *)
Definition set_hash (h : string) (f : FileInfo) : FileInfo :=
  mkFileInfo (fi_path f) (fi_size f) (fi_ctime f) (fi_mtime f) (Some h)
    (fi_folder_score f).

(** The files submitted for partial hashing: every file of every size
    group. *)
Definition partial_submitted (size_groups : list (Z * list FileInfo)) : list FileInfo :=
  size_groups ≫= snd.

(** [partial_groups] once every partial hash has been collected. *)
Definition partial_groups `{Digest, Scheduler} (w : World)
    (size_groups : list (Z * list FileInfo)) : list (string * list FileInfo) :=
  collect (fun f => compute_partial_hash w (fi_path f)) (fun _ f => f)
    (as_completed (partial_submitted size_groups)).

(** [candidate_files]: the files submitted for full hashing. *)
Definition candidate_files `{Digest, Scheduler} (w : World)
    (size_groups : list (Z * list FileInfo)) : list FileInfo :=
  let candidates :=
    List.filter (fun files => (1 <? length files)%nat)
      (snd <$> partial_groups w size_groups) in
  concat candidates.

(** [DuplicateCleaner.find_duplicates_by_hash] *)
Definition find_duplicates_by_hash `{Digest, Scheduler} (w : World)
    (size_groups : list (Z * list FileInfo)) : list (string * list FileInfo) :=
  let hash_groups :=
    collect (fun f => compute_full_hash w (fi_path f)) set_hash
      (as_completed (candidate_files w size_groups)) in
  List.filter (fun '(h, files) => (1 <? length files)%nat) hash_groups.

(** [DuplicateCleaner._build_reason] *)
Definition _build_reason (keeper removed : FileInfo) : string :=
  let reasons :=
    (if score removed <? score keeper then
       ["better folder score (" +:+ pretty (score keeper) +:+ " vs "
          +:+ pretty (score removed) +:+ ")"]
     else [])
    ++ (if get_earliest_time keeper <? get_earliest_time removed
        then ["older file"] else [])
    ++ (if (path_len keeper <? path_len removed)%nat
        then ["shorter path"] else []) in
  match reasons with
  | [] => "default choice"
  | _ => str.join "; " reasons
  end.

(** [Reporter.add_action] *)
Definition add_action (actions : list DuplicateAction) (action : DuplicateAction)
    : list DuplicateAction :=
  actions ++ [action].

(** The [DuplicateAction(...)] that [process_duplicates] builds for one
    file. *)
Definition action_for (file_hash : string) (keeper file_info : FileInfo)
    (action_type : string) (error : option string) : DuplicateAction :=
  mkDuplicateAction file_hash (fi_size file_info) (fi_path keeper)
    (fi_path file_info) (_build_reason keeper file_info) (fi_ctime keeper)
    (fi_mtime keeper) (fi_ctime file_info) (fi_mtime file_info) action_type error.

(** The body of [for file_info in files] in [process_duplicates] for one
    file that is not skipped as the keeper. *)
Definition process_file (file_hash : string) (keeper file_info : FileInfo)
    (st : DuplicateCleaner * World) : result (DuplicateCleaner * World) :=
  let '(self, w) := st in
  '(action_type, error, qm, w) ←
    (if arg_apply (args self) then
       match arg_mode (args self) with
       | delete =>
           if arg_confirm (args self) then
             match os_remove (fi_path file_info) w with
             | (w, None) => Ok ("delete", None, quarantine_manager self, w)
             | (w, Some e) =>
                 Ok ("dry-run", Some (os_error_str e), quarantine_manager self, w)
             end
           else Ok ("dry-run", Some "Confirm flag not set", quarantine_manager self, w)
       | quarantine =>
           match quarantine_manager self with
           | None => Raise AttributeError
           | Some qm =>
               let '(ok, qm, w) := move_to_quarantine qm (fi_path file_info) w in
               if ok : bool then Ok ("move", None, Some qm, w)
               else Ok ("dry-run", Some "Move failed", Some qm, w)
           end
       | report => Ok ("report-only", None, quarantine_manager self, w)
       end
     else Ok ("dry-run", None, quarantine_manager self, w));
  let action := action_for file_hash keeper file_info action_type error in
  Ok (mkDuplicateCleaner (args self) (add_action (reporter_actions self) action) qm, w).

Fixpoint process_files (file_hash : string) (keeper : FileInfo)
    (files : list FileInfo) (st : DuplicateCleaner * World)
    : result (DuplicateCleaner * World) :=
  match files with
  | [] => Ok st
  | file_info :: rest =>
      if decide (fi_path file_info = fi_path keeper)
      then process_files file_hash keeper rest st
      else
        st ← process_file file_hash keeper file_info st;
        process_files file_hash keeper rest st
  end.

(** [DuplicateCleaner.process_duplicates] *)
Fixpoint process_duplicates (hash_groups : list (string * list FileInfo))
    (st : DuplicateCleaner * World) : result (DuplicateCleaner * World) :=
  match hash_groups with
  | [] => Ok st
  | (file_hash, files) :: rest =>
      '(keeper, files) ←
        match choose_file_to_keep st.2 files with
        | Some r => Ok r
        | None => Raise IndexError
        end;
      st ← process_files file_hash keeper files st;
      process_duplicates rest st
  end.

(** ** Reading the dispatcher's outcome *)

(** The outcome [(action, error)] that [process_duplicates] records without
    calling the operating system, in the configurations where it decides so
    itself; [None] in the two configurations that go to the file system. *)
Definition gated_outcome (a : Args) : option (string * option string) :=
  if arg_apply a then
    match arg_mode a with
    | delete =>
        if arg_confirm a then None else Some ("dry-run", Some "Confirm flag not set")
    | quarantine => None
    | report => Some ("report-only", None)
    end
  else Some ("dry-run", None).

(** The records one group contributes, given its keeper. *)
Definition group_actions (file_hash : string) (keeper : FileInfo)
    (files : list FileInfo) (action_type : string) (error : option string)
    : list DuplicateAction :=
  (fun f => action_for file_hash keeper f action_type error)
    <$> List.filter (fun f => negb (bool_decide (fi_path f = fi_path keeper))) files.


(** The groups after the tasks [l] have been collected: the keys are the
    non-empty hashes that occur, each once, and the group of a key holds
    the files with that hash in the order in which they finished. *)
Definition collected (hash_of : FileInfo -> option string)
    (store : string -> FileInfo -> FileInfo)
    (l : list FileInfo) (groups : list (string * list FileInfo)) : Prop :=
  NoDup groups.*1 /\
  forall h g, (h, g) ∈ groups <->
    str.truthy h = true /\ g <> [] /\
    g = store h <$> filter (fun f => hash_of f = Some h) l.

(** What the scanner has checked of a record it keeps: the path it was
    made from was not to be skipped, and the size is within the bounds. *)
Definition admitted `{Resolver, Glob} (self : Scanner) (f : FileInfo) : Prop :=
  (min_size self <= fi_size f <= max_size self) /\
  exists filepath,
    fi_path f = pathlib.to_string filepath /\
    should_skip_path self filepath = Ok false.

Definition groups_admitted `{Resolver, Glob} (self : Scanner) (groups : list (Z * list FileInfo)) : Prop :=
  forall size files, (size, files) ∈ groups ->
    forall f, f ∈ files -> fi_size f = size /\ admitted self f.

(** The order of the specification: lexicographic on the key triple. *)
Definition key_le (a b : Z * Z * nat) : Prop :=
  let '(s1, t1, n1) := a in
  let '(s2, t2, n2) := b in
  s1 < s2 \/ (s1 = s2 /\ (t1 < t2 \/ (t1 = t2 /\ (n1 <= n2)%nat))).

(** ** Reading the walk, the groups and the summary *)

(** A path that belongs to a file of some group. *)
Definition listed (hash_groups : list (string * list FileInfo)) (p : string) : Prop :=
  exists h files f, (h, files) ∈ hash_groups /\ f ∈ files /\ fi_path f = p.

(** Directory entries one after the other: the entries of [ds], then the
    entries of [es]. *)
Fixpoint forest_app (ds es : Forest) : Forest :=
  match ds with
  | Done => es
  | Enter name sub rest => Enter name sub (forest_app rest es)
  | Leave name rest => Leave name (forest_app rest es)
  end.

(** [lists self root t dir files]: the walk of [self] over the tree [t]
    found under the path [root] comes to the directory with the path [dir]
    and finds the non-directory entries [files] there.  It comes to the top
    of the tree, and to what it comes to in a directory of the tree that is
    entered and that [should_skip_path] does not reject. *)
Inductive lists `{Resolver, Glob} (self : Scanner)
    : pathlib.Path -> DirTree -> pathlib.Path
      -> list (string * option stat_result) -> Prop :=
  | lists_top root files dirs : lists self root (Dir files dirs) root files
  | lists_below root files before name sub after dir fs :
      should_skip_path self (pathlib.joinpath_str root name) = Ok false ->
      lists self (pathlib.joinpath_str root name) sub dir fs ->
      lists self root (Dir files (forest_app before (Enter name sub after))) dir fs.

(** The record the scanner makes of a file. *)
Definition file_info_of (filepath : pathlib.Path) (stat : stat_result) : FileInfo :=
  mkFileInfo (pathlib.to_string filepath) (st_size stat) (st_ctime stat)
    (st_mtime stat) None None.

(** The record [x] is in the group of its size. *)
Definition recorded (groups : list (Z * list FileInfo)) (x : FileInfo) : Prop :=
  exists g, (fi_size x, g) ∈ groups /\ x ∈ g.

(** [by_action[k] += 1], [by_action] a [defaultdict(int)]: a new key goes
    last with the count one, a known key keeps its place. *)
Fixpoint count_up (k : string) (d : list (string * Z)) : list (string * Z) :=
  match d with
  | [] => [(k, 1)]
  | (k', n) :: d' =>
      if decide (k' = k) then (k', n + 1) :: d' else (k', n) :: count_up k d'
  end.

(** The figures of the summary that [write_reports] writes and
    [_print_summary] prints: the number of records, the number of records
    with an error ([if a.error]), the sum of the sizes, and, in
    [write_reports], the number of records of each action. *)
Definition summary_total (actions : list DuplicateAction) : Z :=
  Z.of_nat (length actions).

Definition summary_errors (actions : list DuplicateAction) : Z :=
  Z.of_nat (length (List.filter
                      (fun a => match da_error a with
                                | Some e => str.truthy e
                                | None => false
                                end) actions)).

Definition summary_total_size (actions : list DuplicateAction) : Z :=
  foldr Z.add 0 (da_size <$> actions).

Definition by_action (actions : list DuplicateAction) : list (string * Z) :=
  foldl (fun d a => count_up (da_action a) d) [] actions.

(** A file of [l] whose hash, as [hash_of] gives it, is not empty and is
    the hash of at least two files of [l]. *)
Definition shared_hash (hash_of : FileInfo -> option string) (l : list FileInfo)
    (f : FileInfo) : bool :=
  match hash_of f with
  | Some h =>
      str.truthy h && (1 <? length (filter (fun g => hash_of g = Some h) l))%nat
  | None => false
  end.

(** The record of [f] as it is put in its group. *)
Definition stored (hash_of : FileInfo -> option string)
    (store : string -> FileInfo -> FileInfo) (f : FileInfo) : FileInfo :=
  match hash_of f with
  | Some h => store h f
  | None => f
  end.

(** The file has its hash among the keys [ks] and shares it with another
    file of [l]. *)
Definition keyed (hash_of : FileInfo -> option string) (ks : list string)
    (l : list FileInfo) (f : FileInfo) : Prop :=
  exists h, hash_of f = Some h /\ h ∈ ks /\
    (1 < length (filter (fun g => hash_of g = Some h) l))%nat.

Global Instance keyed_dec hash_of ks l f : Decision (keyed hash_of ks l f).
Proof.
  unfold keyed. destruct (hash_of f) as [h|].
  - destruct (decide (h ∈ ks /\
                      (1 < length (filter (fun g => hash_of g = Some h) l))%nat))
      as [Hyes|Hno].
    + left. by exists h.
    + right. intros (h' & [= <-] & ?). by apply Hno.
  - right. by intros (h' & ? & _).
Defined.

(** ** A small world for the examples *)

(** The fragment of [fnmatchcase] with [*] and [?]. *)
Fixpoint wildcard (pat : string) : string -> bool :=
  match pat with
  | EmptyString => fun name => bool_decide (name = EmptyString)
  | String p pat' =>
      if decide (p = "*"%char) then
        fix star (name : string) : bool :=
          wildcard pat' name
          || match name with
             | EmptyString => false
             | String _ name' => star name'
             end
      else if decide (p = "?"%char) then
        fun name =>
          match name with
          | String _ name' => wildcard pat' name'
          | EmptyString => false
          end
      else
        fun name =>
          match name with
          | String c name' => bool_decide (c = p) && wildcard pat' name'
          | EmptyString => false
          end
  end.

Definition demo_glob : Glob := fun name pat => wildcard pat name.

(** Every path resolves to itself, except the one named [dangling]. *)
Definition demo_resolver : Resolver := fun p =>
  if bool_decide (pathlib.name p = "dangling") then None else Some p.

(** Stands in for SHA-256: the bytes themselves, as text. *)
Definition demo_digest : Digest := string_of_list_byte.

(** The tasks finish in the reverse of the order of submission. *)
Definition demo_scheduler : Scheduler :=
  {| as_completed := fun A l => reverse l;
     as_completed_perm := fun A l => reverse_Permutation l |}.

Definition hello : list Byte.byte := list_byte_of_string "hello".

Definition demo_world : World :=
  mkWorld
    (list_to_map
       [("D:\Documents\a.txt", hello);
        ("D:\Documents\copy\a.txt", hello);
        ("D:\temp\cache\a.txt", hello);
        ("D:\notes.txt", list_byte_of_string "world!")])
    ∅ {["D:\Documents\copy\a.txt"]} [].

Definition f_docs : FileInfo :=
  mkFileInfo "D:\Documents\a.txt" 5 1000 1200 None (Some 34).
Definition f_copy : FileInfo :=
  mkFileInfo "D:\Documents\copy\a.txt" 5 1100 1100 None (Some 32).
Definition f_temp : FileInfo :=
  mkFileInfo "D:\temp\cache\a.txt" 5 900 950 None (Some (-208)).

Definition demo_files : list FileInfo := [f_temp; f_copy; f_docs].

Definition demo_groups : list (string * list FileInfo) := [("hello", demo_files)].

Definition demo_cleaner (mode : Mode) (apply confirm : bool) : DuplicateCleaner :=
  DuplicateCleaner_init (mkArgs "D:\" mode apply confirm 4).

Definition demo_scanner : Scanner :=
  mkScanner (pathlib.of_string "D:\") [pathlib.of_string "D:\Games"]
    ["*.tmp"] [".log"] 1 1000 0.

Definition demo_tree : DirTree :=
  Dir [("a.txt", Some (mkStat 5 1000 1000));
       ("b.TXT", Some (mkStat 5 1100 1100));
       ("c.txt", Some (mkStat 6 1000 1000));
       ("d.log", Some (mkStat 5 1000 1000));
       ("e.tmp", Some (mkStat 5 1000 1000));
       ("empty.txt", Some (mkStat 0 1000 1000));
       ("gone.txt", None)]
    (Enter "Games" (Dir [("g.txt", Some (mkStat 5 1000 1000))] Done)
       (Enter "sub" (Dir [("h.txt", Some (mkStat 6 1000 1000))] Done)
          (Leave "link" Done))).

(** A project directory next to a bare one. *)
Definition project_world : World :=
  mkWorld
    (list_to_map
       [("D:\proj\package.json", []);
        ("D:\proj\a.txt", hello);
        ("D:\other\b.txt", hello)])
    {["D:\"; "D:\proj"; "D:\other"; "D:\proj\src"]} ∅ [].

(** Two files that tie on score, earliest time and path length. *)
Definition g_first : FileInfo := mkFileInfo "D:\a\x.txt" 5 1000 1000 None None.
Definition g_second : FileInfo := mkFileInfo "D:\b\x.txt" 5 1200 1000 None (Some (-6)).

Definition demo_quarantine : QuarantineManager :=
  QuarantineManager_init "D:\_DUPLICATE_QUARANTINE".

(** The same scanner with an empty exclusion glob. *)
Definition demo_scanner_empty_glob : Scanner :=
  mkScanner (pathlib.of_string "D:\") [] [""] [] 0 1000 0.

(** Stands in for SHA-256 where the digest must not be empty. *)
Definition tagged_digest : Digest := fun b => "sha256:" +:+ string_of_list_byte b.

(** Two files of one chunk and one byte that differ in the last byte
    only. *)
Definition one_chunk : list Byte.byte := replicate (Z.to_nat CHUNK_SIZE) Byte.x00.

Definition long_world : World :=
  mkWorld
    (list_to_map
       [("D:\one.bin", one_chunk ++ [Byte.x01]);
        ("D:\two.bin", one_chunk ++ [Byte.x02])])
    ∅ ∅ [].

(** The tasks finish in the order of submission. *)
Definition fifo_scheduler : Scheduler :=
  {| as_completed := fun A l => l;
     as_completed_perm := fun A l => reflexivity l |}.

(** ** Theorems *)

Section Selection.

Lemma key_lt_spec a b : key_lt a b = true <-> key_le a b /\ a <> b.
Proof.
  destruct a as [[s1 t1] n1], b as [[s2 t2] n2]; unfold key_lt, key_le.
  destruct (Z.eqb_spec s1 s2) as [->|Hs]; simpl.
  - destruct (Z.eqb_spec t1 t2) as [->|Ht]; simpl.
    + rewrite Nat.ltb_lt. split.
      * intros Hn. split; [right; split; [done|right; split; [done|lia]]|].
        intros [= ->]. lia.
      * intros [[?|[_ [?|[_ Hn]]]] Hne]; try lia.
        destruct (decide (n1 = n2)) as [->|]; [done|lia].
    + rewrite Z.ltb_lt. split.
      * intros Hlt. split; [right; split; [done|left; done]|].
        intros [= ->]. lia.
      * intros [[?|[_ [?|[? _]]]] _]; lia.
  - rewrite Z.ltb_lt. split.
    + intros Hlt. split; [by left|]. intros [= -> _ _]. lia.
    + intros [[?|[? _]] _]; [done|lia].
Qed.

Lemma key_le_refl a : key_le a a.
Proof. destruct a as [[s t] n]; simpl. right; split; [done|]. right; split; [done|lia]. Qed.

Lemma key_le_trans a b c : key_le a b -> key_le b c -> key_le a c.
Proof.
  destruct a as [[s1 t1] n1], b as [[s2 t2] n2], c as [[s3 t3] n3].
  unfold key_le. intros; destruct_and?; destruct_or?; destruct_and?; subst; lia || (try (right; split; [lia|]; (left; lia) || (right; split; lia))).
Qed.

Lemma key_lt_false a b : key_lt a b = false -> key_le b a.
Proof.
  destruct a as [[s1 t1] n1], b as [[s2 t2] n2]; unfold key_lt, key_le.
  destruct (Z.eqb_spec s1 s2) as [->|Hs]; simpl.
  - destruct (Z.eqb_spec t1 t2) as [->|Ht]; simpl.
    + rewrite Nat.ltb_ge. intros. right; split; [done|]. right; split; [done|lia].
    + rewrite Z.ltb_ge. intros. right; split; [done|]. left; lia.
  - rewrite Z.ltb_ge. intros. left; lia.
Qed.

Lemma insert_sorted_head {A K} (key : A -> K) lt x l :
  head (insert_sorted key lt x l) =
  Some (match head l with
        | Some y => if lt (key y) (key x) then y else x
        | None => x
        end).
Proof. destruct l as [|y l]; simpl; [done|]. by destruct (lt (key y) (key x)). Qed.

(** The head of the sorted list is in the list and no key is below its
    key. *)
Lemma sorted_head_min (x : FileInfo) l :
  exists k, head (sorted sort_key key_lt (x :: l)) = Some k /\
    k ∈ x :: l /\
    forall f, f ∈ x :: l -> key_le (sort_key k) (sort_key f).
Proof.
  revert x. induction l as [|y l IH]; intros x.
  - exists x. split; [done|]. split; [by left|].
    intros f ->%list_elem_of_singleton. apply key_le_refl.
  - destruct (IH y) as (k & Hk & Hin & Hmin).
    change (sorted sort_key key_lt (x :: y :: l))
      with (insert_sorted sort_key key_lt x (sorted sort_key key_lt (y :: l))).
    rewrite insert_sorted_head, Hk.
    destruct (key_lt (sort_key k) (sort_key x)) eqn:Hlt.
    + exists k. split; [done|]. split; [by right|].
      intros f Hf. apply elem_of_cons in Hf as [->|Hf]; [|by apply Hmin].
      by apply key_lt_spec in Hlt as [? _].
    + exists x. split; [done|]. split; [by left|].
      intros f Hf. apply elem_of_cons in Hf as [->|Hf]; [apply key_le_refl|].
      eapply key_le_trans; [by apply key_lt_false|by apply Hmin].
Qed.

(** On a full tie the stable sort leaves the first element in front. *)
Lemma sorted_head_tie (x : FileInfo) l :
  (forall f, f ∈ l -> sort_key f = sort_key x) ->
  head (sorted sort_key key_lt (x :: l)) = Some x.
Proof.
  revert x. induction l as [|y l IH]; intros x Hall; [done|].
  change (sorted sort_key key_lt (x :: y :: l))
    with (insert_sorted sort_key key_lt x (sorted sort_key key_lt (y :: l))).
  rewrite insert_sorted_head, IH.
  - rewrite (Hall y) by (by left).
    destruct (key_lt (sort_key x) (sort_key x)) eqn:Hlt; [|reflexivity].
    apply key_lt_spec in Hlt as [_ Hne]. by destruct Hne.
  - intros f Hf. rewrite (Hall f), (Hall y); [done|by left|by right].
Qed.

Lemma fill_folder_score_id w (f : FileInfo) :
  is_Some (fi_folder_score f) -> fill_folder_score w f = f.
Proof. intros [s Hs]. unfold fill_folder_score. by rewrite Hs. Qed.

Lemma fill_folder_score_all_id w (files : list FileInfo) :
  Forall (fun f => is_Some (fi_folder_score f)) files ->
  map (fill_folder_score w) files = files.
Proof.
  induction 1 as [|f l Hf _ IH]; simpl; [done|].
  by rewrite fill_folder_score_id, IH.
Qed.

Lemma key_le_antisym a b : key_le a b -> key_le b a -> a = b.
Proof.
  destruct a as [[s1 t1] n1], b as [[s2 t2] n2]. unfold key_le.
  intros H1 H2. assert (s1 = s2 /\ t1 = t2 /\ n1 = n2) as (-> & -> & ->) by lia.
  done.
Qed.

(** C1.  For a list of two or more records whose folder scores are set,
    [choose_file_to_keep] returns a member of the list whose key
    [(-score, min(ctime, mtime), len(path))] is minimal in the
    lexicographic order, and leaves the records as they are.  In
    particular a file whose score is strictly above every other file's is
    the one chosen; a file is not chosen when another file of the list
    has the same score and an earlier [min(ctime, mtime)], or the same
    score, the same earliest time and a shorter path; so when all scores
    are equal the file that is strictly the earliest is chosen, and when
    the earliest times are equal too, the file with strictly the shortest
    path. *)
Theorem choose_file_to_keep_minimal (w : World) (files : list FileInfo) :
  (2 <= length files)%nat ->
  Forall (fun f => is_Some (fi_folder_score f)) files ->
  exists k,
    choose_file_to_keep w files = Some (k, files) /\
    k ∈ files /\
    (forall f, f ∈ files -> key_le (sort_key k) (sort_key f)) /\
    (forall a, a ∈ files ->
       (forall b, b ∈ files -> b <> a -> score b < score a) -> k = a) /\
    (forall a b, a ∈ files -> b ∈ files -> score a = score b ->
       get_earliest_time a < get_earliest_time b -> k <> b) /\
    (forall a b, a ∈ files -> b ∈ files -> score a = score b ->
       get_earliest_time a = get_earliest_time b ->
       (path_len a < path_len b)%nat -> k <> b) /\
    (forall a, a ∈ files ->
       (forall b, b ∈ files -> score b = score a) ->
       (forall b, b ∈ files -> b <> a ->
          get_earliest_time a < get_earliest_time b) -> k = a) /\
    (forall a, a ∈ files ->
       (forall b, b ∈ files ->
          score b = score a /\ get_earliest_time b = get_earliest_time a) ->
       (forall b, b ∈ files -> b <> a -> (path_len a < path_len b)%nat) ->
       k = a).
Proof.
  intros Hlen Hsc.
  destruct files as [|x [|y l]]; simpl in Hlen; [lia..|].
  destruct (sorted_head_min x (y :: l)) as (k & Hk & Hin & Hmin).
  exists k. split.
  { unfold choose_file_to_keep. rewrite fill_folder_score_all_id by done.
    destruct (sorted sort_key key_lt (x :: y :: l)); by simplify_eq/=. }
  split; [done|]. split; [done|]. split; [|split; [|split; [|split]]].
  - intros a Ha Hbest. destruct (decide (k = a)) as [|Hne]; [done|].
    specialize (Hbest k Hin Hne). specialize (Hmin a Ha).
    unfold sort_key, key_le in Hmin. lia.
  - intros a b Ha Hb Hs Ht ->. specialize (Hmin a Ha).
    unfold sort_key, key_le in Hmin. lia.
  - intros a b Ha Hb Hs Ht Hn ->. specialize (Hmin a Ha).
    unfold sort_key, key_le in Hmin. lia.
  - intros a Ha Hs Hearly. destruct (decide (k = a)) as [|Hne]; [done|].
    specialize (Hearly k Hin Hne). specialize (Hs k Hin). specialize (Hmin a Ha).
    unfold sort_key, key_le in Hmin. lia.
  - intros a Ha Hs Hshort. destruct (decide (k = a)) as [|Hne]; [done|].
    specialize (Hshort k Hin Hne). destruct (Hs k Hin) as [Hs1 Hs2].
    specialize (Hmin a Ha). unfold sort_key, key_le in Hmin. lia.
Qed.

(** C9.  When every file of the list has the same folder score, the same
    [min(ctime, mtime)] and the same path length as the first one (scores
    read after the filling loop), the keeper is the first file of the
    list: the sort is stable. *)
Theorem choose_file_to_keep_full_tie (w : World) (f0 : FileInfo)
    (rest : list FileInfo) :
  (forall f, f ∈ rest ->
     score (fill_folder_score w f) = score (fill_folder_score w f0) /\
     get_earliest_time f = get_earliest_time f0 /\
     path_len f = path_len f0) ->
  choose_file_to_keep w (f0 :: rest) =
    Some (match rest with
          | [] => (f0, [f0])
          | _ => (fill_folder_score w f0, map (fill_folder_score w) (f0 :: rest))
          end).
Proof.
  intros Htie. destruct rest as [|f1 rest]; [done|].
  assert (head (sorted sort_key key_lt
                  (map (fill_folder_score w) (f0 :: f1 :: rest)))
          = Some (fill_folder_score w f0)) as Hhd.
  { apply (sorted_head_tie (fill_folder_score w f0)
             (map (fill_folder_score w) (f1 :: rest))).
    intros f (g & -> & Hg)%list_elem_of_fmap.
    destruct (Htie g Hg) as (Hs & Ht & Hn). unfold sort_key.
    rewrite Hs. f_equal; [f_equal|].
    - unfold get_earliest_time, fill_folder_score in *.
      by destruct (fi_folder_score g), (fi_folder_score f0).
    - unfold path_len, fill_folder_score in *.
      by destruct (fi_folder_score g), (fi_folder_score f0). }
  unfold choose_file_to_keep.
  destruct (sorted sort_key key_lt _) as [|k srt]; by simplify_eq/=.
Qed.

End Selection.

(** *** The dispatcher *)

Section Dispatcher.

Lemma process_file_gated h k f self w act err :
  gated_outcome (args self) = Some (act, err) ->
  process_file h k f (self, w) =
    Ok (mkDuplicateCleaner (args self)
          (reporter_actions self ++ [action_for h k f act err])
          (quarantine_manager self), w).
Proof.
  unfold gated_outcome, process_file. intros Hg.
  destruct (arg_apply (args self)); [|by simplify_eq].
  destruct (arg_mode (args self)); [by simplify_eq|done|].
  destruct (arg_confirm (args self)); [done|by simplify_eq].
Qed.

Lemma process_files_gated h k files self w act err :
  gated_outcome (args self) = Some (act, err) ->
  process_files h k files (self, w) =
    Ok (mkDuplicateCleaner (args self)
          (reporter_actions self ++ group_actions h k files act err)
          (quarantine_manager self), w).
Proof.
  intros Hg. revert self Hg.
  induction files as [|f files IH]; intros self Hg.
- unfold group_actions. simpl. rewrite app_nil_r. by destruct self.
- change (process_files h k (f :: files) (self, w))
    with (if decide (fi_path f = fi_path k)
          then process_files h k files (self, w)
          else process_file h k f (self, w) ≫= process_files h k files).
  unfold group_actions. cbn [List.filter]. case_decide as Hp.
  + rewrite bool_decide_eq_true_2 by done. by apply IH.
  + rewrite bool_decide_eq_false_2 by done.
    rewrite (process_file_gated _ _ _ _ _ act err) by done.
    cbn [mbind result_bind negb fmap list_fmap].
    rewrite IH by done. cbn. by rewrite <- app_assoc.
Qed.

(** In a configuration that the dispatcher settles by itself, a run over
    groups that all have a file returns normally, leaves the world and
    the quarantine manager as they were, and adds records that all carry
    the outcome of the configuration: one for every file of every group
    whose path is not the keeper's. *)
Lemma process_duplicates_gated hash_groups self w act err :
  gated_outcome (args self) = Some (act, err) ->
  Forall (fun g => g.2 <> []) hash_groups ->
  exists new,
    process_duplicates hash_groups (self, w) =
      Ok (mkDuplicateCleaner (args self) (reporter_actions self ++ new)
            (quarantine_manager self), w) /\
    Forall (fun a => da_action a = act /\ da_error a = err) new /\
    (forall h files k files',
       (h, files) ∈ hash_groups ->
       choose_file_to_keep w files = Some (k, files') ->
       forall f, f ∈ files' -> fi_path f <> fi_path k ->
         exists a, a ∈ new /\ da_hash a = h /\
           da_removed_path a = fi_path f /\ da_kept_path a = fi_path k).
Proof.
  intros Hg Hne. revert self Hg.
  induction Hne as [|[h files] groups Hfiles _ IH]; intros self Hg.
  - exists []. simpl. rewrite app_nil_r. split; [by destruct self|].
    split; [done|]. intros ???? Hin. by apply elem_of_nil in Hin.
  - simpl in Hfiles. simpl.
    destruct (choose_file_to_keep w files) as [[k files']|] eqn:Hch; last first.
    { exfalso. unfold choose_file_to_keep in Hch.
      destruct files as [|x [|y l]]; [done|done|].
      destruct (sorted_head_min (fill_folder_score w x)
                  (map (fill_folder_score w) (y :: l))) as (k & Hk & _).
      simpl in Hch, Hk.
      by destruct (insert_sorted _ _ _ _). }
    simpl. rewrite (process_files_gated _ _ _ _ _ act err) by done. simpl.
    edestruct (IH (mkDuplicateCleaner (args self)
                     (reporter_actions self ++ group_actions h k files' act err)
                     (quarantine_manager self))) as (new & -> & Hall & Hcov);
      [done|].
    exists (group_actions h k files' act err ++ new). simpl.
    split; [by rewrite app_assoc|]. split.
    + apply Forall_app. split; [|done].
      unfold group_actions. apply Forall_fmap, Forall_forall. by intros.
    + intros h0 files0 k0 files0' Hin Hch0 f Hf Hpath.
      apply elem_of_cons in Hin as [[= -> ->]|Hin].
      * rewrite Hch in Hch0. injection Hch0 as <- <-.
        exists (action_for h k f act err). split; [|done].
        apply elem_of_app. left. unfold group_actions.
        apply list_elem_of_fmap. exists f. split; [done|].
        apply list_elem_of_In, filter_In. split; [by apply list_elem_of_In|].
        by rewrite bool_decide_eq_false_2.
      * destruct (Hcov h0 files0 k0 files0' Hin Hch0 f Hf Hpath) as (a & Ha & ?).
        exists a. split; [|done]. apply elem_of_app. by right.
Qed.

(** C2.  With [apply] off, whatever the mode, a run of the dispatcher over
    groups that all have a file returns with the world as it was, no call
    to the file system issued and none of its files or directories
    changed, and every record it adds has the action [dry-run] and no
    error; there is such a record for every file of every group whose path
    is not the keeper's. *)
Theorem dry_run_never_mutates hash_groups self w :
  arg_apply (args self) = false ->
  Forall (fun g => g.2 <> []) hash_groups ->
  exists new,
    process_duplicates hash_groups (self, w) =
      Ok (mkDuplicateCleaner (args self) (reporter_actions self ++ new)
            (quarantine_manager self), w) /\
    Forall (fun a => da_action a = "dry-run" /\ da_error a = None) new /\
    (forall h files k files',
       (h, files) ∈ hash_groups ->
       choose_file_to_keep w files = Some (k, files') ->
       forall f, f ∈ files' -> fi_path f <> fi_path k ->
         exists a, a ∈ new /\ da_hash a = h /\
           da_removed_path a = fi_path f /\ da_kept_path a = fi_path k).
Proof.
  intros Happly. apply process_duplicates_gated.
  unfold gated_outcome. by rewrite Happly.
Qed.

(** C3.  In delete mode with [apply] on and [confirm] off, a run of the
    dispatcher over groups that all have a file returns with the world as
    it was, no call to the file system issued, and adds, for every file of
    every group whose path is not the keeper's, a record whose error is
    the text [Confirm flag not set]; no record it adds says otherwise. *)
Theorem delete_without_confirm_is_refused hash_groups self w :
  arg_mode (args self) = delete ->
  arg_apply (args self) = true ->
  arg_confirm (args self) = false ->
  Forall (fun g => g.2 <> []) hash_groups ->
  exists new,
    process_duplicates hash_groups (self, w) =
      Ok (mkDuplicateCleaner (args self) (reporter_actions self ++ new)
            (quarantine_manager self), w) /\
    Forall (fun a => da_error a = Some "Confirm flag not set") new /\
    (forall h files k files',
       (h, files) ∈ hash_groups ->
       choose_file_to_keep w files = Some (k, files') ->
       forall f, f ∈ files' -> fi_path f <> fi_path k ->
         exists a, a ∈ new /\ da_hash a = h /\
           da_removed_path a = fi_path f /\
           da_error a = Some "Confirm flag not set").
Proof.
  intros Hmode Happly Hconfirm Hne.
  destruct (process_duplicates_gated hash_groups self w
              "dry-run" (Some "Confirm flag not set")) as (new & Hrun & Hall & Hcov).
  { unfold gated_outcome. by rewrite Happly, Hmode, Hconfirm. }
  { done. }
  exists new. split; [done|]. split.
  - eapply Forall_impl; [exact Hall|]. by intros a [_ ?].
  - intros h files k files' Hin Hch f Hf Hpath.
    destruct (Hcov h files k files' Hin Hch f Hf Hpath) as (a & Ha & Hh & Hr & _).
    exists a. repeat split; try done.
    rewrite Forall_forall in Hall. by apply Hall.
Qed.

End Dispatcher.

(** *** The quarantine log *)

Section Quarantine.





End Quarantine.

(** *** The hasher *)

Section Hashing.
Context `{Digest}.

Lemma os_getsize_open w p bytes :
  os_open w p = Some bytes -> os_getsize w p = Some (Z.of_nat (length bytes)).
Proof.
  unfold os_open, os_getsize. case_decide; [done|]. by intros ->.
Qed.

Lemma CHUNK_SIZE_pos : 0 < CHUNK_SIZE.
Proof. done. Qed.

(** C6.  For a file that can be read, the chunks fed to the digest are, in
    this order: the first [CHUNK_SIZE] bytes, always; the [CHUNK_SIZE]
    bytes from position [size // 2] exactly when the size is above twice
    [CHUNK_SIZE]; the last [CHUNK_SIZE] bytes exactly when the size is above
    three times [CHUNK_SIZE].  The function returns the hexadecimal digest
    of these bytes. *)
Theorem compute_partial_hash_feeds_start_middle_end w filepath bytes :
  os_open w filepath = Some bytes ->
  let size := Z.of_nat (length bytes) in
  let start := take (Z.to_nat CHUNK_SIZE) bytes in
  let middle := take (Z.to_nat CHUNK_SIZE) (drop (Z.to_nat (size `div` 2)) bytes) in
  let last := drop (length bytes - Z.to_nat CHUNK_SIZE) bytes in
  let fed :=
    [start] ++ (if 2 * CHUNK_SIZE <? size then [middle] else [])
            ++ (if 3 * CHUNK_SIZE <? size then [last] else []) in
  partial_hash_chunks w filepath = Some fed /\
  compute_partial_hash w filepath = Some (sha256_hexdigest (concat fed)) /\
  length last = Nat.min (length bytes) (Z.to_nat CHUNK_SIZE).
Proof.
  intros Hopen size start middle last fed.
  assert (partial_hash_chunks w filepath = Some fed) as Hchunks.
  { unfold partial_hash_chunks.
    rewrite (os_getsize_open _ _ _ Hopen), Hopen. cbn [mbind option_bind].
    pose proof CHUNK_SIZE_pos as Hpos.
    generalize dependent CHUNK_SIZE. intros C start middle last fed Hpos.
    unfold f_read, f_seek, f_seek_end, hasher_update. cbn [f_bytes f_pos].
    rewrite drop_0. subst fed start middle last size.
    assert (3 * C < Z.of_nat (length bytes) ->
            take (Z.to_nat C)
              (drop (Z.to_nat (Z.of_nat (length bytes) + - C)) bytes)
            = drop (length bytes - Z.to_nat C) bytes) as Hend.
    { intros H3.
      replace (Z.to_nat (Z.of_nat (length bytes) + - C))
        with (length bytes - Z.to_nat C)%nat by lia.
      apply take_ge. rewrite length_drop. lia. }
    destruct (2 * C <? Z.of_nat (length bytes)) eqn:H2;
      destruct (3 * C <? Z.of_nat (length bytes)) eqn:H3;
      cbn [app f_bytes f_pos]; try done; apply Z.ltb_lt in H3;
      assert ((Z.of_nat (length bytes) + - C <? 0) = false) as ->
        by (apply Z.ltb_ge; lia);
      cbn [mbind option_bind f_bytes f_pos]; by rewrite Hend.
  }
  split; [done|]. split.
  - unfold compute_partial_hash. by rewrite Hchunks.
  - subst last. rewrite length_drop. lia.
Qed.

Lemma compute_partial_hash_unreadable w filepath :
  os_open w filepath = None -> compute_partial_hash w filepath = None.
Proof.
  unfold compute_partial_hash, partial_hash_chunks, os_getsize, os_open.
  case_decide; [done|]. by intros ->.
Qed.

(** The reading loop of [compute_full_hash] feeds the whole file. *)
Lemma read_loop_feeds_all bytes pos turns h :
  (length bytes - pos < turns)%nat ->
  concat (read_loop turns (mkFile bytes pos) h) = concat h ++ drop pos bytes.
Proof.
  pose proof CHUNK_SIZE_pos as Hpos.
  revert pos h. induction turns as [|turns IH]; intros pos h Hlt; [lia|].
  cbn [read_loop]. unfold f_read. cbn [f_bytes f_pos].
  destruct (take (Z.to_nat CHUNK_SIZE) (drop pos bytes)) as [|b chunk] eqn:Hchunk.
  - apply (f_equal length) in Hchunk. rewrite length_take, length_drop in Hchunk.
    cbn [length] in Hchunk. rewrite drop_ge, app_nil_r; [done|lia].
  - rewrite IH.
    + unfold hasher_update. rewrite concat_app. cbn [concat].
      rewrite app_nil_r, <- app_assoc. f_equal. rewrite <- Hchunk.
      rewrite <- (take_drop (Z.to_nat CHUNK_SIZE) (drop pos bytes)) at 3.
      f_equal. rewrite drop_drop, length_take, length_drop.
      destruct (decide (Z.to_nat CHUNK_SIZE <= length bytes - pos)%nat).
      * f_equal. lia.
      * rewrite !drop_ge; [done|lia..].
    + apply (f_equal length) in Hchunk. rewrite length_take, length_drop in Hchunk.
      cbn [length] in *. lia.
Qed.

Lemma compute_full_hash_spec w filepath bytes :
  os_open w filepath = Some bytes ->
  compute_full_hash w filepath = Some (sha256_hexdigest bytes).
Proof.
  intros Hopen. unfold compute_full_hash. rewrite Hopen. cbn [mbind option_bind].
  unfold hexdigest. rewrite read_loop_feeds_all by lia. by rewrite drop_0.
Qed.

End Hashing.

(** *** The hashing pipeline *)

Section Grouping.
Context {K V : Type} `{EqDecision K}.
Implicit Types (k : K) (v : V) (d : list (K * list V)).

Lemma group_append_keys k v d :
  (group_append k v d).*1 = if decide (k ∈ d.*1) then d.*1 else d.*1 ++ [k].
Proof.
  induction d as [|[k' vs] d IH]; cbn [group_append fmap list_fmap fst].
  - by rewrite decide_False by apply not_elem_of_nil.
  - destruct (decide (k' = k)) as [->|Hne]; cbn [fmap list_fmap fst].
    + by rewrite decide_True by left.
    + change (list_fmap _ _ fst ?l) with (l.*1). rewrite IH.
      destruct (decide (k ∈ d.*1)).
      * by rewrite decide_True by by right.
      * rewrite decide_False; [done|]. by intros [?|?]%elem_of_cons.
Qed.

Lemma group_append_NoDup k v d : NoDup d.*1 -> NoDup (group_append k v d).*1.
Proof.
  intros Hnd. rewrite group_append_keys. case_decide; [done|].
  apply NoDup_app. split; [done|]. split; [|apply NoDup_singleton].
  by intros x Hx ->%list_elem_of_singleton.
Qed.

Lemma group_append_other k k' v d g :
  k' <> k -> (k', g) ∈ group_append k v d <-> (k', g) ∈ d.
Proof.
  intros Hne. induction d as [|[k0 vs] d IH]; cbn [group_append].
  - split; [|by intros ?%elem_of_nil].
    by intros [= -> _]%list_elem_of_singleton.
  - destruct (decide (k0 = k)) as [->|Hne0].
    + rewrite !elem_of_cons. split; (intros [[= ??]|?]; [done|by right]).
    + rewrite !elem_of_cons, IH. done.
Qed.

Lemma group_append_present k v d g :
  NoDup d.*1 -> (k, g) ∈ d ->
  forall g', (k, g') ∈ group_append k v d <-> g' = g ++ [v].
Proof.
  induction d as [|[k0 vs] d IH]; intros Hnd Hin g'; [by apply elem_of_nil in Hin|].
  cbn [group_append]. apply NoDup_cons in Hnd as [Hk0 Hnd].
  destruct (decide (k0 = k)) as [->|Hne0].
  - apply elem_of_cons in Hin as [[= ->]|Hin].
    + rewrite elem_of_cons. split; [|intros ->; by left].
      intros [[= ->]|Hin']; [done|]. exfalso. apply Hk0.
      apply list_elem_of_fmap. by exists (k, g').
    + exfalso. apply Hk0. apply list_elem_of_fmap. by exists (k, g).
  - apply elem_of_cons in Hin as [[= ??]|Hin]; [done|].
    rewrite elem_of_cons, IH by done. split; [|by right].
    by intros [[= ??]|?].
Qed.

Lemma group_append_absent k v d :
  k ∉ d.*1 -> forall g', (k, g') ∈ group_append k v d <-> g' = [v].
Proof.
  induction d as [|[k0 vs] d IH]; intros Hk g'; cbn [group_append].
  - rewrite list_elem_of_singleton. split; [by intros [= ->]|by intros ->].
  - apply not_elem_of_cons in Hk as [Hne Hk]. simpl in Hne.
    rewrite decide_False by done.
    rewrite elem_of_cons, IH by done. split; [|by right].
    by intros [[= ??]|?].
Qed.

End Grouping.

Section Pipeline.
Context `{Digest, Scheduler}.

Section Collect.
Variable hash_of : FileInfo -> option string.
Variable store : string -> FileInfo -> FileInfo.

Lemma collected_step l groups f :
  collected hash_of store l groups ->
  collected hash_of store (l ++ [f]) (collect_step hash_of store groups f).
Proof.
  intros [Hnd Hin]. unfold collect_step.
  assert (forall h, hash_of f <> Some h ->
            filter (fun f => hash_of f = Some h) (l ++ [f])
            = filter (fun f => hash_of f = Some h) l) as Hsame.
  { intros h Hh. rewrite filter_app, filter_cons_False, filter_nil, app_nil_r; done. }
  destruct (hash_of f) as [h|] eqn:Hf; [destruct (str.truthy h) eqn:Hh|].
  - split; [by apply group_append_NoDup|]. intros h' g'.
    destruct (decide (h' = h)) as [->|Hne].
    + rewrite filter_app, filter_cons_True, filter_nil, fmap_app by done.
      cbn [fmap list_fmap].
      destruct (decide (h ∈ groups.*1)) as [Hk|Hk].
      * apply list_elem_of_fmap in Hk as ([h0 g] & -> & Hg). simpl.
        rewrite (group_append_present _ _ _ g) by done.
        apply Hin in Hg as (_ & _ & <-).
        split; [intros ->|by intros (_ & _ & ->)].
        split; [done|]. split; [|done]. by destruct g.
      * rewrite group_append_absent by done.
        assert (filter (fun f => hash_of f = Some h) l = []) as ->.
        { destruct (filter _ l) as [|x xs] eqn:Hfl; [done|]. exfalso. apply Hk.
          apply list_elem_of_fmap.
          exists (h, store h <$> filter (fun f => hash_of f = Some h) l).
          split; [done|]. apply Hin. rewrite Hfl. done. }
        cbn [fmap list_fmap app].
        split; [by intros ->|by intros (_ & _ & ->)].
    + rewrite group_append_other by done. rewrite Hsame by congruence. apply Hin.
  - split; [done|]. intros h' g'. rewrite Hin.
    destruct (decide (h' = h)) as [->|Hne]; [|by rewrite Hsame by congruence].
    split; intros (? & _); congruence.
  - split; [done|]. intros h' g'. by rewrite Hin, Hsame.
Qed.

Lemma collect_collected l : collected hash_of store l (collect hash_of store l).
Proof.
  unfold collect.
  assert (forall l0 acc, collected hash_of store l0 acc ->
            collected hash_of store (l0 ++ l)
              (foldl (collect_step hash_of store) acc l)) as Hgen.
  { induction l as [|f l IH]; intros l0 acc Hacc; simpl.
    - by rewrite app_nil_r.
    - rewrite cons_middle, app_assoc. apply IH. by apply collected_step. }
  apply (Hgen [] []). split; [constructor|].
  intros h g. split; [by intros ?%elem_of_nil|]. by intros (_ & ? & ->).
Qed.

End Collect.

Lemma candidate_files_collide w size_groups f :
  f ∈ candidate_files w size_groups ->
  f ∈ partial_submitted size_groups /\
  exists ph,
    compute_partial_hash w (fi_path f) = Some ph /\
    str.truthy ph = true /\
    (2 <= length (filter (fun g => compute_partial_hash w (fi_path g) = Some ph)
                    (partial_submitted size_groups)))%nat.
Proof.
  unfold candidate_files. intros (g & Hg & Hf)%list_elem_of_In%in_concat.
  apply list_elem_of_In in Hf. apply filter_In in Hg as [Hg Hlen].
  apply list_elem_of_In, list_elem_of_fmap in Hg as ([ph g'] & -> & Hin).
  simpl in *. apply Nat.ltb_lt in Hlen.
  destruct (collect_collected (fun f => compute_partial_hash w (fi_path f))
              (fun _ f => f) (as_completed (partial_submitted size_groups)))
    as [_ Hgroups].
  apply Hgroups in Hin as (Hph & _ & Heq). rewrite list_fmap_id in Heq.
  subst g'. apply list_elem_of_filter in Hf as [Hhash Hsub].
  split; [by rewrite as_completed_perm in Hsub|].
  exists ph. split; [done|]. split; [done|].
  rewrite as_completed_perm in Hlen. lia.
Qed.

(** C4.  The files handed to [compute_full_hash] are files that were
    submitted for partial hashing, whose partial hash came back non-empty
    and is shared by at least two of the submitted files.  Every group that
    is returned has at least two members, and each member is one of those
    files with its full hash stored: its partial hash and its full hash
    both came back, the full hash being the key of the group.  So a file
    whose partial or full hash is missing is in no group. *)
Theorem full_hash_only_for_partial_collisions w size_groups :
  (forall f, f ∈ candidate_files w size_groups ->
     f ∈ partial_submitted size_groups /\
     exists ph,
       compute_partial_hash w (fi_path f) = Some ph /\
       str.truthy ph = true /\
       (2 <= length (filter (fun g => compute_partial_hash w (fi_path g) = Some ph)
                       (partial_submitted size_groups)))%nat) /\
  (forall h files, (h, files) ∈ find_duplicates_by_hash w size_groups ->
     (2 <= length files)%nat /\
     forall f, f ∈ files ->
       fi_hash f = Some h /\
       str.truthy h = true /\
       compute_full_hash w (fi_path f) = Some h /\
       hash_ok (compute_partial_hash w (fi_path f)) = true /\
       exists f0, f0 ∈ candidate_files w size_groups /\ f = set_hash h f0) /\
  (forall f, hash_ok (compute_partial_hash w (fi_path f)) = false ->
     f ∉ candidate_files w size_groups) /\
  (forall h files f, (h, files) ∈ find_duplicates_by_hash w size_groups ->
     hash_ok (compute_partial_hash w (fi_path f)) = false \/
     hash_ok (compute_full_hash w (fi_path f)) = false ->
     f ∉ files).
Proof.
  assert (forall h files, (h, files) ∈ find_duplicates_by_hash w size_groups ->
     (2 <= length files)%nat /\
     forall f, f ∈ files ->
       fi_hash f = Some h /\
       str.truthy h = true /\
       compute_full_hash w (fi_path f) = Some h /\
       hash_ok (compute_partial_hash w (fi_path f)) = true /\
       exists f0, f0 ∈ candidate_files w size_groups /\ f = set_hash h f0) as Hgroups.
  { intros h files Hin. unfold find_duplicates_by_hash in Hin.
    apply list_elem_of_In, filter_In in Hin as [Hin Hlen].
    apply Nat.ltb_lt in Hlen. split; [lia|].
    destruct (collect_collected (fun f => compute_full_hash w (fi_path f))
                set_hash (as_completed (candidate_files w size_groups)))
      as [_ Hcol].
    apply list_elem_of_In, Hcol in Hin as (Hh & _ & ->).
    intros f (f0 & -> & Hf0)%list_elem_of_fmap.
    apply list_elem_of_filter in Hf0 as [Hfull Hf0].
    rewrite as_completed_perm in Hf0.
    destruct (candidate_files_collide _ _ _ Hf0) as (_ & ph & Hph & Htr & _).
    simpl. repeat split; try done.
    - by rewrite Hph.
    - by exists f0. }
  split; [apply candidate_files_collide|]. split; [done|]. split.
  - intros f Hbad Hin.
    destruct (candidate_files_collide _ _ _ Hin) as (_ & ph & Hph & Htr & _).
    rewrite Hph in Hbad. simpl in Hbad. congruence.
  - intros h files f Hin Hbad Hf.
    destruct (Hgroups h files Hin) as [_ Hmem].
    destruct (Hmem f Hf) as (_ & Htr & Hfull & Hpart & _).
    rewrite Hfull in Hbad. simpl in Hbad. destruct Hbad; congruence.
Qed.

End Pipeline.

(** *** The path filter *)

Section PathFilter.
Context `{Resolver, Glob}.

Lemma match_total p pattern :
  pattern_parts pattern <> [] -> exists b, pathlib.match_ p pattern = Ok b.
Proof.
  unfold pattern_parts, pathlib.match_. intros Hne.
  destruct (pathlib.parts _) as [|x xs]; [done|].
  repeat case_match; eauto.
Qed.

Lemma match_raises p pattern e :
  pathlib.match_ p pattern = Raise e -> e = ValueError /\ pattern_parts pattern = [].
Proof.
  unfold pattern_parts, pathlib.match_.
  destruct (pathlib.parts _) as [|x xs]; [by intros [= <-]|].
  intros Hm. by repeat case_match.
Qed.

Lemma glob_loop_total p patterns :
  Forall (fun pattern => pattern_parts (str.lower pattern) <> []) patterns ->
  exists m, glob_loop p patterns = Ok m /\
    (m = true <-> exists pattern, pattern ∈ patterns /\
                    pathlib.match_ p (str.lower pattern) = Ok true).
Proof.
  induction 1 as [|pattern patterns Hne _ IH]; cbn [glob_loop].
  - exists false. split; [done|]. split; [done|].
    by intros (? & ?%elem_of_nil & _).
  - destruct (match_total p _ Hne) as [b Hb]. rewrite Hb. cbn.
    destruct b.
    + exists true. split; [done|]. split; [|done]. intros _.
      exists pattern. split; [by left|done].
    + destruct IH as (m & -> & Hm). exists m. split; [done|].
      rewrite Hm. split; intros (q & Hq & Hmatch).
      * exists q. split; [by right|done].
      * apply elem_of_cons in Hq as [->|Hq]; [congruence|]. by exists q.
Qed.

Lemma glob_loop_raises p patterns e :
  glob_loop p patterns = Raise e ->
  e = ValueError /\
  exists pattern, pattern ∈ patterns /\ pattern_parts (str.lower pattern) = [].
Proof.
  induction patterns as [|pattern patterns IH]; cbn [glob_loop]; [done|].
  destruct (pathlib.match_ p (str.lower pattern)) as [b|e'] eqn:Hm; cbn.
  - destruct b; [done|]. intros (-> & q & Hq & Hempty)%IH.
    split; [done|]. exists q. split; [by right|done].
  - intros [= ->]. apply match_raises in Hm as [-> Hempty].
    split; [done|]. exists pattern. split; [by left|done].
Qed.

Lemma should_skip_path_returns (self : Scanner) (path : pathlib.Path) :
  Forall (fun pattern => pattern_parts (str.lower pattern) <> [])
    (exclude_globs self) ->
  exists b, should_skip_path self path = Ok b.
Proof.
  intros Hglobs. unfold should_skip_path.
  destruct (resolve path) as [resolved|]; [|by eexists].
  destruct (existsb _ (exclude_paths self)); [by eexists|].
  destruct (glob_loop_total
              (pathlib.of_string (str.lower (pathlib.to_string path)))
              _ Hglobs) as (m & -> & _). cbn.
  destruct m; [by eexists|]. case_bool_decide; by eexists.
Qed.

(** C8, as the code has it.  [should_skip_path] answers "skip" whenever
    the path cannot be resolved.  When the path resolves and every
    exclusion glob has a component, it returns, and it answers "skip"
    exactly when the resolved path is an excluded directory or lies under
    one, or the lowercased path matches a (lowercased) exclusion glob, or
    the lowercased suffix is among the skipped extensions.  The only error
    that can leave it is the [ValueError] of matching against a glob with
    no component, such as the empty string. *)
Theorem should_skip_path_spec (self : Scanner) (path : pathlib.Path) :
  (resolve path = None -> should_skip_path self path = Ok true) /\
  (forall resolved,
     resolve path = Some resolved ->
     Forall (fun pattern => pattern_parts (str.lower pattern) <> [])
       (exclude_globs self) ->
     exists b,
       should_skip_path self path = Ok b /\
       (b = true <->
          (exists excluded, excluded ∈ exclude_paths self /\
             (pathlib.eqb resolved excluded = true \/
              pathlib.in_parents excluded resolved = true)) \/
          (exists pattern, pattern ∈ exclude_globs self /\
             pathlib.match_
               (pathlib.of_string (str.lower (pathlib.to_string path)))
               (str.lower pattern) = Ok true) \/
          str.lower (pathlib.suffix path) ∈ skip_extensions self)) /\
  (forall e,
     should_skip_path self path = Raise e ->
     e = ValueError /\
     is_Some (resolve path) /\
     exists pattern, pattern ∈ exclude_globs self /\
       pattern_parts (str.lower pattern) = []).
Proof.
  unfold should_skip_path. split; [by intros ->|]. split.
  - intros resolved -> Hglobs.
    destruct (existsb _ (exclude_paths self)) eqn:Hex.
    { exists true. split; [done|]. split; [|done]. intros _. left.
      apply existsb_exists in Hex as (excluded & Hin & Hor).
      exists excluded. split; [by apply list_elem_of_In|].
      by apply orb_true_iff in Hor. }
    assert (~ exists excluded, excluded ∈ exclude_paths self /\
              (pathlib.eqb resolved excluded = true \/
               pathlib.in_parents excluded resolved = true)) as Hnex.
    { intros (excluded & Hin & Hor).
      apply not_true_iff_false in Hex. apply Hex, existsb_exists.
      exists excluded. split; [by apply list_elem_of_In|].
      by apply orb_true_iff. }
    destruct (glob_loop_total
                (pathlib.of_string (str.lower (pathlib.to_string path)))
                _ Hglobs) as (m & -> & Hm). cbn.
    destruct m.
    { exists true. split; [done|]. split; [|done]. intros _. right. left.
      by apply Hm. }
    case_bool_decide as Hext.
    { exists true. split; [done|]. split; [|done]. intros _. by right; right. }
    exists false. split; [done|]. split; [done|].
    intros [?|[Hg|?]]; [done| |done]. by apply Hm in Hg.
  - intros e. destruct (resolve path) as [resolved|]; [|done].
    destruct (existsb _ (exclude_paths self)); [done|].
    destruct (glob_loop _ (exclude_globs self)) as [m|e'] eqn:Hloop; cbn.
    + by repeat case_match.
    + intros [= ->]. apply glob_loop_raises in Hloop as [-> Hempty].
      split; [done|]. split; [by eexists|done].
Qed.

End PathFilter.

(** *** The scanner *)

Scheme DirTree_Forest_ind := Induction for DirTree Sort Prop
  with Forest_DirTree_ind := Induction for Forest Sort Prop.

Section Scan.
Context `{Resolver, Glob}.

Lemma group_append_elem {K V} `{EqDecision K} (k k' : K) (v x : V) g' d :
  (k', g') ∈ group_append k v d -> x ∈ g' ->
  (k' = k /\ x = v) \/ exists g, (k', g) ∈ d /\ x ∈ g.
Proof.
  induction d as [|[k0 vs] d IH]; cbn [group_append].
  - intros [= -> ->]%list_elem_of_singleton ->%list_elem_of_singleton. by left.
  - destruct (decide (k0 = k)) as [->|Hne].
    + intros [[= -> ->]|Hin]%elem_of_cons Hx.
      * apply elem_of_app in Hx as [Hx| ->%list_elem_of_singleton]; [|by left].
        right. exists vs. split; [by left|done].
      * right. exists g'. split; [by right|done].
    + intros [[= -> ->]|Hin]%elem_of_cons Hx.
      * right. exists vs. split; [by left|done].
      * destruct (IH Hin Hx) as [?|(g & Hg & ?)]; [by left|].
        right. exists g. split; [by right|done].
Qed.

Lemma scan_file_admitted self root_path entry groups n groups' n' :
  groups_admitted self groups ->
  scan_file self root_path entry (groups, n) = Ok (groups', n') ->
  groups_admitted self groups'.
Proof.
  intros Hok. unfold scan_file. destruct entry as [filename st].
  destruct (should_skip_path self _) as [skip|] eqn:Hskip; cbn; [|done].
  destruct skip; [by intros [= <- <-]|].
  destruct st as [stat|]; [|by intros [= <- <-]].
  destruct (_ || _) eqn:Hsize; [by intros [= <- <-]|].
  intros [= <- <-]. apply orb_false_iff in Hsize as [Hmin Hmax].
  apply Z.ltb_ge in Hmin, Hmax.
  intros size files Hin f Hf.
  destruct (group_append_elem _ _ _ _ _ _ Hin Hf) as [[-> ->]|(g & Hg & Hfg)].
  - split; [done|]. split; [simpl; lia|]. by eexists.
  - by eapply Hok.
Qed.

Lemma scan_files_admitted self root_path files acc acc' :
  groups_admitted self acc.1 ->
  scan_files self root_path files acc = Ok acc' ->
  groups_admitted self acc'.1.
Proof.
  revert acc. induction files as [|entry files IH]; intros acc Hok; cbn [scan_files].
  - by intros [= <-].
  - destruct (scan_file self root_path entry acc) as [[g n]|] eqn:Hfile; cbn; [|done].
    apply IH. destruct acc. by eapply scan_file_admitted.
Qed.

Lemma walk_admitted self t :
  forall root_path acc acc',
    groups_admitted self acc.1 ->
    walk self root_path t acc = Ok acc' ->
    groups_admitted self acc'.1.
Proof.
  induction t using DirTree_Forest_ind with
    (P0 := fun ds => forall root_path skips acc acc',
             groups_admitted self acc.1 ->
             walk_dirs self root_path ds skips acc = Ok acc' ->
             groups_admitted self acc'.1).
  - intros root_path acc acc' Hok. cbn [walk].
    destruct (mapM _ _) as [skips|]; cbn; [|done].
    destruct (scan_files self root_path files acc) as [acc1|] eqn:Hfiles; cbn; [|done].
    apply IHt. by eapply scan_files_admitted.
  - intros root_path skips acc acc' Hok. cbn [walk_dirs]. by intros [= <-].
  - intros root_path skips acc acc' Hok. cbn [walk_dirs].
    destruct skips as [|skip skips]; [by intros [= <-]|].
    destruct skip; [by apply IHt0|].
    destruct (walk self _ t acc) as [acc1|] eqn:Hsub; cbn; [|done].
    apply IHt0. by eapply IHt.
  - intros root_path skips acc acc' Hok. cbn [walk_dirs].
    destruct skips as [|skip skips]; [by intros [= <-]|]. by apply IHt.
Qed.

Lemma should_skip_path_false self filepath :
  should_skip_path self filepath = Ok false ->
  exists resolved,
    resolve filepath = Some resolved /\
    (forall excluded, excluded ∈ exclude_paths self ->
       pathlib.eqb resolved excluded = false /\
       pathlib.in_parents excluded resolved = false) /\
    str.lower (pathlib.suffix filepath) ∉ skip_extensions self.
Proof.
  unfold should_skip_path. destruct (resolve filepath) as [resolved|]; [|done].
  destruct (existsb _ (exclude_paths self)) eqn:Hex; [done|].
  destruct (glob_loop _ _) as [[]|]; cbn; [done| |done].
  case_bool_decide as Hext; [done|]. intros _.
  exists resolved. split; [done|]. split; [|done].
  intros excluded Hin. apply orb_false_iff.
  rewrite <- not_true_iff_false in Hex |- *. intros Hor. apply Hex.
  apply existsb_exists. exists excluded. split; [by apply list_elem_of_In|done].
Qed.

Section Returns.
Variable self : Scanner.
Hypothesis globs_have_parts :
  Forall (fun pattern => pattern_parts (str.lower pattern) <> [])
    (exclude_globs self).

Lemma prune_returns root_path names :
  exists skips,
    mapM (fun d => should_skip_path self (pathlib.joinpath_str root_path d)) names
    = Ok skips.
Proof.
  induction names as [|d names [skips IH]]; [by eexists|].
  destruct (should_skip_path_returns self (pathlib.joinpath_str root_path d)
              globs_have_parts) as [b Hb].
  exists (b :: skips). cbn [mapM]. rewrite Hb. cbn [mbind result_bind].
  by rewrite IH.
Qed.

Lemma scan_files_returns root_path files acc :
  exists acc', scan_files self root_path files acc = Ok acc'.
Proof.
  revert acc. induction files as [|[filename st] files IH]; intros acc;
    [by eexists|].
  cbn [scan_files]. unfold scan_file. destruct acc as [groups n].
  destruct (should_skip_path_returns self
              (pathlib.joinpath_str root_path filename) globs_have_parts)
    as [b ->].
  cbn [mbind result_bind]. by repeat case_match; cbn [mbind result_bind].
Qed.

Lemma walk_returns t :
  forall root_path acc, exists acc', walk self root_path t acc = Ok acc'.
Proof.
  induction t using DirTree_Forest_ind with
    (P0 := fun ds => forall root_path skips acc,
             exists acc', walk_dirs self root_path ds skips acc = Ok acc').
  - intros root_path acc. cbn [walk].
    destruct (prune_returns root_path (dir_names dirs)) as [skips ->].
    destruct (scan_files_returns root_path files acc) as [acc1 ->].
    cbn [mbind result_bind]. apply IHt.
  - intros. by eexists.
  - intros root_path skips acc. cbn [walk_dirs].
    destruct skips as [|[] skips]; [by eexists|apply IHt0|].
    destruct (IHt (pathlib.joinpath_str root_path name) acc) as [acc1 ->].
    cbn [mbind result_bind]. apply IHt0.
  - intros root_path skips acc. cbn [walk_dirs].
    destruct skips as [|skip skips]; [by eexists|apply IHt].
Qed.

Lemma scan_returns top : exists r, scan self top = Ok r.
Proof.
  unfold scan. destruct top as [t|].
  - destruct (walk_returns t (sc_root self) ([], files_scanned self))
      as [[groups n] ->]. by eexists.
  - by eexists.
Qed.

End Returns.

(** C5.  A scan returns whenever every exclusion glob has a component.
    When a scan returns, every bucket of the mapping has at least two
    records, and every record in a bucket has the bucket's key as its size,
    a size between [min_size] and [max_size] inclusive, and a path that
    [should_skip_path] did not reject: the path resolves to a location that
    is no excluded directory and lies under none, and its lowercased suffix
    is not a skipped extension. *)
Theorem scan_buckets_sound (self : Scanner) (top : option DirTree) :
  (Forall (fun pattern => pattern_parts (str.lower pattern) <> [])
     (exclude_globs self) ->
   exists buckets self', scan self top = Ok (buckets, self')) /\
  forall buckets self',
  scan self top = Ok (buckets, self') ->
  forall size files, (size, files) ∈ buckets ->
    (2 <= length files)%nat /\
    forall f, f ∈ files ->
      fi_size f = size /\
      min_size self <= fi_size f <= max_size self /\
      exists filepath resolved,
        fi_path f = pathlib.to_string filepath /\
        should_skip_path self filepath = Ok false /\
        resolve filepath = Some resolved /\
        (forall excluded, excluded ∈ exclude_paths self ->
           pathlib.eqb resolved excluded = false /\
           pathlib.in_parents excluded resolved = false) /\
        str.lower (pathlib.suffix filepath) ∉ skip_extensions self.
Proof.
  split.
  { intros Hglobs. destruct (scan_returns self Hglobs top) as [[buckets self'] Hr].
    by exists buckets, self'. }
  intros buckets self'.
  unfold scan. intros Hscan size files Hin.
  assert (exists (groups : list (Z * list FileInfo)) (n : Z),
            groups_admitted self groups /\
            buckets = List.filter (fun '(size, files) => (1 <? length files)%nat) groups)
    as (groups & n & Hok & ->).
  { destruct top as [t|].
    - destruct (walk self (sc_root self) t ([], files_scanned self))
        as [[groups n]|] eqn:Hwalk; cbn [mbind result_bind] in Hscan; [|done].
      exists groups, n. split; [|by simplify_eq].
      apply (walk_admitted self t (sc_root self) ([], files_scanned self) (groups, n));
        [|done].
      by intros ?? ?%elem_of_nil.
    - cbn [mbind result_bind] in Hscan.
      exists [], (files_scanned self). split; [|by simplify_eq].
      by intros ?? ?%elem_of_nil. }
  apply list_elem_of_In, filter_In in Hin as [Hin Hlen].
  apply Nat.ltb_lt in Hlen. split; [lia|].
  intros f Hf. apply list_elem_of_In in Hin.
  destruct (Hok size files Hin f Hf) as (Hsize & Hbounds & filepath & Hpath & Hskip).
  split; [done|]. split; [done|].
  destruct (should_skip_path_false _ _ Hskip) as (resolved & Hres & Hexcl & Hext).
  by exists filepath, resolved.
Qed.

End Scan.

(** *** Paths *)

Section Strings.
Implicit Types (c d : ascii) (s t : string).

Lemma append_nil t : EmptyString +:+ t = t.
Proof. reflexivity. Qed.

Lemma append_cons c s t : String c s +:+ t = String c (s +:+ t).
Proof. reflexivity. Qed.


Lemma contains_app c s t :
  str.contains c (s +:+ t) = str.contains c s || str.contains c t.
Proof.
  induction s as [|a s IH]; [done|].
  rewrite append_cons. cbn [str.contains]. by rewrite IH, orb_assoc.
Qed.

Lemma contains_replace_old c new s :
  str.contains c new = false -> str.contains c (str.replace c new s) = false.
Proof.
  intros Hnew. induction s as [|a s IH]; [done|].
  cbn [str.replace]. case_decide as Ha.
  - by rewrite contains_app, Hnew, IH.
  - cbn [str.contains]. by rewrite bool_decide_eq_false_2, IH.
Qed.


Lemma replace_absent old new s :
  str.contains old s = false -> str.replace old new s = s.
Proof.
  induction s as [|a s IH]; cbn [str.replace str.contains]; [done|].
  intros [Ha Hs]%orb_false_iff. apply bool_decide_eq_false in Ha.
  by rewrite decide_False, IH.
Qed.


Lemma contains_drop c n s :
  str.contains c s = false -> str.contains c (str.drop n s) = false.
Proof.
  revert s. induction n as [|n IH]; intros [|a s]; cbn [str.drop str.contains]; try done.
  intros [_ Hs]%orb_false_iff. by apply IH.
Qed.

Lemma contains_lstrip c d s :
  str.contains c s = false -> str.contains c (str.lstrip d s) = false.
Proof.
  induction s as [|a s IH]; cbn [str.lstrip]; [done|].
  case_decide; [|done]. cbn [str.contains]. intros [_ Hs]%orb_false_iff. by apply IH.
Qed.

Lemma split_nonempty c s : str.split c s <> [].
Proof.
  destruct s as [|a s]; cbn [str.split]; [done|]. case_decide; [done|].
  by destruct (str.split c s).
Qed.

Lemma split_pieces c d s :
  Forall (fun x => str.contains c x = false /\
                   (str.contains d s = false -> str.contains d x = false))
    (str.split c s).
Proof.
  induction s as [|a s IH]; cbn [str.split].
  - by constructor.
  - case_decide as Ha.
    + constructor; [done|]. eapply Forall_impl; [exact IH|].
      intros x [Hc Hd]. split; [done|]. cbn [str.contains].
      intros [_ ?]%orb_false_iff. by apply Hd.
    + destruct (str.split c s) as [|x xs] eqn:Hsp; [by apply split_nonempty in Hsp|].
      apply Forall_cons in IH as [[Hc Hd] IH]. constructor.
      * cbn [str.contains]. rewrite bool_decide_eq_false_2 by done. split; [done|].
        intros [-> ?]%orb_false_iff. by apply Hd.
      * eapply Forall_impl; [exact IH|]. intros y [Hyc Hyd]. split; [done|].
        cbn [str.contains]. intros [_ ?]%orb_false_iff. by apply Hyd.
Qed.

(** Splitting what [join] has put together gives the pieces back. *)
Lemma split_join c ps :
  ps <> [] -> Forall (fun x => str.contains c x = false) ps ->
  str.split c (str.join (String c EmptyString) ps) = ps.
Proof.
  assert (forall x rest, str.contains c x = false ->
            str.split c (x +:+ String c rest) = x :: str.split c rest) as Hcons.
  { induction x as [|a x IH]; intros rest.
    - intros _. rewrite append_nil. cbn [str.split]. by rewrite decide_True.
    - rewrite append_cons. cbn [str.split str.contains].
      intros [Ha Hx]%orb_false_iff. apply bool_decide_eq_false in Ha.
      by rewrite decide_False, IH. }
  assert (forall x, str.contains c x = false -> str.split c x = [x]) as Hone.
  { induction x as [|a x IH]; cbn [str.split str.contains]; [done|].
    intros [Ha Hx]%orb_false_iff. apply bool_decide_eq_false in Ha.
    by rewrite decide_False, IH. }
  induction ps as [|x ps IH]; [done|]. intros _ [Hx Hps]%Forall_cons.
  unfold str.join in *. destruct ps as [|y ps]; cbn [String.concat].
  - by apply Hone.
  - rewrite append_cons, append_nil. rewrite Hcons by done. f_equal. by apply IH.
Qed.





End Strings.

Section Paths.
Import pathlib.

Lemma components_are_components rel :
  str.contains altsep rel = false -> Forall component (components rel).
Proof.
  intros Halt. unfold components. apply Forall_forall. intros x Hx.
  apply list_elem_of_In, filter_In in Hx as [Hx Hkeep].
  apply andb_true_iff in Hkeep as [Htr Hdot].
  pose proof (split_pieces sep altsep rel) as Hsp.
  rewrite Forall_forall in Hsp.
  destruct (Hsp x) as [Hsep Ha]; [by apply list_elem_of_In|].
  unfold component. repeat split; [| |done|by apply Ha].
  - intros ->. done.
  - intros ->. done.
Qed.

Lemma join_singleton x : str.join sep_s [x] = x.
Proof. done. Qed.

Lemma join_cons x y ys :
  str.join sep_s (x :: y :: ys) = x +:+ sep_s +:+ str.join sep_s (y :: ys).
Proof. done. Qed.

Lemma components_join ps :
  ps <> [] -> Forall component ps -> components (str.join sep_s ps) = ps.
Proof.
  intros Hne Hps. unfold components, sep_s.
  rewrite split_join; [|done|].
  - induction Hps as [|x ps (Hx & Hdot & _) _ IH]; [done|].
    cbn [List.filter]. unfold str.truthy at 1.
    rewrite !bool_decide_eq_false_2 by done. cbn [negb andb]. f_equal.
    destruct ps; [done|]. by apply IH.
  - eapply Forall_impl; [exact Hps|]. by intros x (_ & _ & ? & _).
Qed.

(** A string that starts with a character other than the separator and
    carries no drive has no drive and no root. *)
Lemma splitroot_relative c s :
  c <> sep -> drive_like (String c s) = false ->
  splitroot (String c s) = (EmptyString, EmptyString, String c s).
Proof.
  intros Hc Hdl. unfold splitroot.
  assert (bool_decide (str.take 1 (str.drop 0 (String c s)) = sep_s) = false) as H0.
  { apply bool_decide_eq_false. cbn. by intros [= ->]. }
  rewrite H0, andb_false_r. cbv beta iota zeta.
  rewrite H0, andb_false_r. cbn [andb]. by rewrite Hdl, H0.
Qed.

Lemma component_head x :
  component x -> exists c s, x = String c s /\ c <> sep /\ c <> altsep.
Proof.
  intros (Hne & _ & Hsep & Halt). destruct x as [|c s]; [done|].
  exists c, s. cbn [str.contains] in *.
  apply orb_false_iff in Hsep as [?%bool_decide_eq_false _].
  apply orb_false_iff in Halt as [?%bool_decide_eq_false _]. done.
Qed.

Lemma parse_reversed_plain ps :
  Forall plain_component ps ->
  parse_reversed (rev ps) = (EmptyString, EmptyString, ps).
Proof.
  induction ps as [|x ps IH] using rev_ind; [done|].
  intros [Hps [Hx Hdl]%Forall_singleton]%Forall_app.
  rewrite rev_unit. cbn [parse_reversed].
  destruct (component_head x Hx) as (c & s & -> & Hc & _).
  assert (str.replace altsep sep_s (String c s) = String c s) as ->.
  { apply replace_absent. by destruct Hx as (_ & _ & _ & ?). }
  rewrite splitroot_relative by done.
  change (str.truthy (String c s)) with true.
  change (str.truthy EmptyString) with false. cbn [orb].
  rewrite IH by done.
  rewrite <- (join_singleton (String c s)) at 1.
  rewrite components_join; [done|done|by constructor].
Qed.

Lemma parse_parts_plain ps :
  Forall plain_component ps -> parse_parts ps = mkPath EmptyString EmptyString ps.
Proof.
  intros Hps. unfold parse_parts. by rewrite parse_reversed_plain.
Qed.

End Paths.

Section QuarantinePath.
Import pathlib.

Lemma truthy_false s : str.truthy s = false -> s = EmptyString.
Proof. unfold str.truthy. by intros ?%negb_false_iff%bool_decide_eq_true. Qed.

Lemma splitroot_plain s0 :
  str.startswith "\\" s0 = false -> str.contains altsep s0 = false ->
  exists d r rel,
    splitroot s0 = (d, r, rel) /\ drive_or_none d /\ root_or_none r /\
    str.contains altsep rel = false.
Proof.
  intros Hunc Halt. unfold splitroot.
  assert (bool_decide (str.take 1 (str.drop 1 s0) = sep_s)
          && bool_decide (str.take 1 (str.drop 0 s0) = sep_s) = false) as Hnu.
  { destruct s0 as [|c0 [|c1 s]]; [done|done|].
    cbn [str.startswith] in Hunc. cbn [str.take str.drop].
    apply andb_false_iff in Hunc as [Hc|Hc].
    - apply andb_false_iff. right. apply bool_decide_eq_false in Hc.
      apply bool_decide_eq_false. intros [= ->]. by apply Hc.
    - rewrite andb_true_r in Hc. apply andb_false_iff. left.
      apply bool_decide_eq_false in Hc.
      apply bool_decide_eq_false. intros [= ->]. by apply Hc. }
  rewrite Hnu. cbv beta iota zeta. rewrite Hnu. cbn [andb].
  destruct (drive_like s0) eqn:Hdl.
  - assert (exists c rest, s0 = String c (String ":" rest) /\ is_drive_letter c = true)
      as (c & rest & -> & Hc).
    { destruct s0 as [|c [|c1 rest]]; try done. cbn [drive_like] in Hdl.
      destruct (decide (c1 = ":"%char)) as [->|Hne]; [by eauto|].
      exfalso. revert Hdl. clear -Hne.
      destruct c1 as [[] [] [] [] [] [] [] []]; done. }
    clear Hnu Hunc. cbn [str.take str.drop].
    cbn [str.contains] in Halt.
    apply orb_false_iff in Halt as [_ [_ Halt]%orb_false_iff].
    destruct (bool_decide (_ = sep_s)) eqn:Hfirst.
    + apply bool_decide_eq_true in Hfirst. rewrite Hfirst.
      eexists _, _, _. split; [reflexivity|]. split; [right; by eauto|].
      split; [by right|]. by apply contains_lstrip.
    + eexists _, _, _. split; [reflexivity|]. split; [right; by eauto|].
      split; [by left|done].
  - clear Hnu Hunc. destruct (bool_decide (_ = sep_s)) eqn:Hfirst.
    + apply bool_decide_eq_true in Hfirst. rewrite Hfirst.
      eexists _, _, _. split; [reflexivity|]. split; [by left|].
      split; [by right|]. by apply contains_lstrip.
    + eexists _, _, _. split; [reflexivity|]. split; [by left|].
      split; [by left|done].
Qed.

(** A path read from a string that is no UNC or device path: a drive letter
    or none, the root or none, and components below. *)
Lemma of_string_plain s :
  unc_like s = false ->
  exists d r t,
    of_string s =
      mkPath d r (if str.truthy d || str.truthy r then (d +:+ r) :: t else t) /\
    drive_or_none d /\ root_or_none r /\ Forall component t.
Proof.
  intros Hunc. unfold of_string, parse_parts. cbn [rev app parse_reversed].
  destruct (str.truthy s) eqn:Hs; last first.
  { exists EmptyString, EmptyString, []. split; [done|].
    split; [by left|]. split; [by left|done]. }
  destruct (splitroot_plain (str.replace altsep sep_s s)) as (d & r & rel & -> & Hd & Hr & Hrel).
  { done. }
  { by apply contains_replace_old. }
  exists d, r, (components rel).
  split; [|split; [done|split; [done|by apply components_are_components]]].
  destruct (str.truthy d) eqn:Htd; cbn [orb]; [by rewrite Htd|].
  destruct (str.truthy r) eqn:Htr; cbn [find_drive].
  - apply truthy_false in Htd as ->. by rewrite Htr.
  - apply truthy_false in Htd as ->. by apply truthy_false in Htr as ->.
Qed.

Lemma drive_letter_plain c :
  is_drive_letter c = true ->
  c <> sep /\ c <> altsep /\ c <> ":"%char /\ c <> "."%char.
Proof.
  destruct c as [[] [] [] [] [] [] [] []]; done.
Qed.

(** [Path(original.drive + "\\")] is the anchor of the drive. *)
Lemma of_string_anchor d :
  drive_or_none d -> of_string (d +:+ "\") = mkPath d sep_s [d +:+ sep_s].
Proof.
  intros [->|(c & Hc & ->)]; [done|].
  destruct (drive_letter_plain c Hc) as (Hsep & Halt & _).
  unfold of_string, parse_parts. cbn [rev app parse_reversed].
  change (str.truthy (String c ":" +:+ "\")) with true. cbv iota.
  assert (str.replace altsep sep_s (String c ":" +:+ "\") = String c ":\") as ->.
  { rewrite append_cons. cbn [str.replace]. by rewrite decide_False. }
  assert (splitroot (String c ":\") = (String c ":", sep_s, EmptyString)) as ->.
  { unfold splitroot. cbn [str.take str.drop].
    rewrite (bool_decide_eq_false_2 (":" = sep_s)) by done.
    cbn [andb]. cbv beta iota zeta.
    rewrite (bool_decide_eq_false_2 (":" = sep_s)) by done.
    cbn [andb drive_like]. rewrite Hc. done. }
  done.
Qed.


Lemma append_nil_r s : s +:+ EmptyString = s.
Proof. induction s as [|a s IH]; [done|]. by rewrite append_cons, IH. Qed.

Lemma relative_to_rooted d t :
  drive_or_none d ->
  relative_to (mkPath d sep_s ((d +:+ sep_s) :: t)) (mkPath d sep_s [d +:+ sep_s])
  = Some (mkPath EmptyString EmptyString t).
Proof.
  intros Hd. unfold relative_to. cbn [root drv parts tl].
  change (parse_parts [d +:+ sep_s]) with (of_string (d +:+ "\")).
  rewrite of_string_anchor by done. cbn [root drv parts tl].
  change (str.truthy sep_s) with true. cbv iota.
  cbn [length firstn skipn]. rewrite bool_decide_eq_false_2 by done.
  by rewrite bool_decide_eq_true_2.
Qed.


Lemma join_truthy t0 t :
  t0 <> EmptyString -> str.truthy (str.join sep_s (t0 :: t)) = true.
Proof.
  intros Hne. destruct t0 as [|c s]; [done|]. by destruct t.
Qed.






Lemma contains_join k ps :
  k <> sep -> Forall (fun x => str.contains k x = false) ps ->
  str.contains k (str.join sep_s ps) = false.
Proof.
  intros Hk. induction 1 as [|x ps Hx Hps IH]; [done|].
  destruct ps as [|y ps]; [done|].
  rewrite join_cons, !contains_app, Hx, IH.
  change (str.contains k sep_s) with (bool_decide (sep = k) || false).
  by rewrite (bool_decide_eq_false_2 (sep = k)).
Qed.

Lemma drive_like_join x xs :
  plain_component x -> drive_like (str.join sep_s (x :: xs)) = false.
Proof.
  intros [(Hne & _) Hdl]. destruct xs as [|y ys]; [done|].
  rewrite join_cons. destruct x as [|c [|c1 x]]; [done|done|].
  by rewrite !append_cons.
Qed.

Lemma of_string_join_plain t :
  t <> [] -> Forall plain_component t ->
  of_string (str.join sep_s t) = mkPath EmptyString EmptyString t.
Proof.
  intros Hne Ht. destruct t as [|t0 t]; [done|].
  pose proof Ht as [Ht0 _]%Forall_cons.
  destruct (component_head t0 (proj1 Ht0)) as (c & s & -> & Hc & _).
  unfold of_string, parse_parts. cbn [rev app parse_reversed].
  rewrite join_truthy by done.
  rewrite replace_absent; last first.
  { apply contains_join; [done|]. eapply Forall_impl; [exact Ht|].
    by intros x ((_ & _ & _ & ?) & _). }
  assert (exists rest, str.join sep_s (String c s :: t) = String c rest) as [rest Hj].
  { destruct t; [by eexists|]. rewrite join_cons, append_cons. by eexists. }
  pose proof (drive_like_join _ t Ht0) as Hdl. rewrite Hj in Hdl |- *.
  rewrite splitroot_relative by done.
  change (str.truthy EmptyString) with false. cbn [orb app].
  rewrite <- Hj, components_join; [done|done|].
  eapply Forall_impl; [exact Ht|]. by intros x [? _].
Qed.



Lemma parse_parts_anchor_part args :
  anchored (parse_parts args) = true -> parts (parse_parts args) <> [].
Proof.
  unfold parse_parts, anchored. destruct (parse_reversed (rev args)) as [[d r] parsed].
  cbn [drv root parts]. by intros ->.
Qed.

(** A path made of [q] and at least one more component has [q] among its
    parents, and is not [q]. *)
Lemma inside_parents q rel :
  (anchored q = true -> parts q <> []) -> rel <> [] ->
  let p := mkPath (drv q) (root q) (parts q ++ rel) in
  in_parents q p = true /\ eqb p q = false.
Proof.
  intros Hwf Hrel p. split.
  - unfold in_parents. apply existsb_exists.
    exists (mkPath (drv q) (root q) (parts q)). split.
    + unfold parents. apply in_map_iff. exists (length rel - 1)%nat. split.
      * cbn [drv root parts p]. f_equal. rewrite length_app.
        replace (length (parts q) + length rel - (length rel - 1) - 1)%nat
          with (length (parts q)).
        -- by rewrite take_app_length.
        -- destruct rel; [done|]. cbn [length]. lia.
      * apply in_seq. change (anchored p) with (anchored q).
        cbn [parts p]. rewrite length_app.
        destruct rel as [|x rel]; [done|]. cbn [length].
        destruct (anchored q) eqn:Ha; [|lia].
        specialize (Hwf eq_refl). destruct (parts q); [done|]. cbn [length]. lia.
    + unfold eqb. by rewrite bool_decide_eq_true_2.
  - unfold eqb. apply bool_decide_eq_false. cbn [parts p]. intros Heq.
    apply (f_equal length) in Heq. rewrite !length_fmap, length_app in Heq.
    destruct rel; [done|]. cbn [length] in Heq. lia.
Qed.

Lemma joinpath_plain q rel :
  Forall plain_component rel ->
  joinpath q (mkPath EmptyString EmptyString rel)
  = mkPath (drv q) (root q) (parts q ++ rel).
Proof.
  intros Hrel. unfold joinpath. cbn [parts]. by rewrite parse_parts_plain.
Qed.



End QuarantinePath.

(** *** More about the hasher *)

Section HashingMore.
Context `{Digest}.

Lemma partial_hash_chunks_open w filepath bytes :
  os_open w filepath = Some bytes ->
  partial_hash_chunks w filepath =
    Some ([take (Z.to_nat CHUNK_SIZE) bytes]
          ++ (if 2 * CHUNK_SIZE <? Z.of_nat (length bytes)
              then [take (Z.to_nat CHUNK_SIZE)
                      (drop (Z.to_nat (Z.of_nat (length bytes) `div` 2)) bytes)]
              else [])
          ++ (if 3 * CHUNK_SIZE <? Z.of_nat (length bytes)
              then [drop (length bytes - Z.to_nat CHUNK_SIZE) bytes]
              else [])).
Proof.
  intros Hopen. unfold partial_hash_chunks.
  rewrite (os_getsize_open _ _ _ Hopen), Hopen. cbn [mbind option_bind].
  pose proof CHUNK_SIZE_pos as Hpos.
  generalize dependent CHUNK_SIZE. intros C Hpos.
  unfold f_read, f_seek, f_seek_end, hasher_update. cbn [f_bytes f_pos].
  rewrite drop_0.
  destruct (Z.ltb_spec (2 * C) (Z.of_nat (length bytes))) as [H2|H2];
    destruct (Z.ltb_spec (3 * C) (Z.of_nat (length bytes))) as [H3|H3];
    cbn [app f_bytes f_pos]; try done;
    (assert ((Z.of_nat (length bytes) + - C <? 0) = false) as ->
       by (apply Z.ltb_ge; lia));
    cbn [mbind option_bind f_bytes f_pos];
    replace (Z.to_nat (Z.of_nat (length bytes) + - C))
      with (length bytes - Z.to_nat C)%nat by lia;
    by rewrite (take_ge (drop (length bytes - Z.to_nat C) bytes))
      by (rewrite length_drop; lia).
Qed.

Lemma partial_hash_chunks_readable w filepath chunks :
  partial_hash_chunks w filepath = Some chunks ->
  exists bytes, os_open w filepath = Some bytes.
Proof.
  unfold partial_hash_chunks, os_getsize, os_open.
  case_decide; [done|]. destruct (w_files w !! filepath); [by eauto|done].
Qed.

(** X1.  [compute_full_hash] digests the whole content of a file it can open,
    whatever its length, and gives [None] for a file it cannot open. *)
Theorem compute_full_hash_digests_the_content w filepath :
  compute_full_hash w filepath = sha256_hexdigest <$> os_open w filepath.
Proof.
  destruct (os_open w filepath) as [bytes|] eqn:Hopen.
  - by apply compute_full_hash_spec.
  - unfold compute_full_hash. by rewrite Hopen.
Qed.

(** X2.  For a file of at most [CHUNK_SIZE] bytes the partial hash is the full
    hash. *)
Theorem partial_hash_of_small_file_is_full_hash w filepath bytes :
  os_open w filepath = Some bytes ->
  Z.of_nat (length bytes) <= CHUNK_SIZE ->
  compute_partial_hash w filepath = compute_full_hash w filepath.
Proof.
  intros Hopen Hsmall.
  rewrite (compute_full_hash_spec _ _ _ Hopen).
  unfold compute_partial_hash. rewrite (partial_hash_chunks_open _ _ _ Hopen).
  pose proof CHUNK_SIZE_pos as Hpos.
  rewrite (proj2 (Z.ltb_ge _ _)) by lia. rewrite (proj2 (Z.ltb_ge _ _)) by lia.
  cbn [app fmap option_fmap option_map]. unfold hexdigest. cbn [concat].
  rewrite app_nil_r, take_ge by lia. done.
Qed.

(** X3.  The partial hash looks at three windows only.  Two files of the same
    length that agree on the windows read for that length have the same
    partial hash, whatever they hold elsewhere. *)
Theorem partial_hash_blind_outside_windows w1 p1 b1 w2 p2 b2 :
  os_open w1 p1 = Some b1 ->
  os_open w2 p2 = Some b2 ->
  length b1 = length b2 ->
  take (Z.to_nat CHUNK_SIZE) b1 = take (Z.to_nat CHUNK_SIZE) b2 ->
  (2 * CHUNK_SIZE < Z.of_nat (length b1) ->
   take (Z.to_nat CHUNK_SIZE) (drop (Z.to_nat (Z.of_nat (length b1) `div` 2)) b1)
   = take (Z.to_nat CHUNK_SIZE) (drop (Z.to_nat (Z.of_nat (length b1) `div` 2)) b2)) ->
  (3 * CHUNK_SIZE < Z.of_nat (length b1) ->
   drop (length b1 - Z.to_nat CHUNK_SIZE) b1
   = drop (length b1 - Z.to_nat CHUNK_SIZE) b2) ->
  compute_partial_hash w1 p1 = compute_partial_hash w2 p2.
Proof.
  intros Ho1 Ho2 Hlen Hstart Hmid Hend. unfold compute_partial_hash.
  rewrite (partial_hash_chunks_open _ _ _ Ho1), (partial_hash_chunks_open _ _ _ Ho2).
  rewrite <- Hlen, <- Hstart.
  destruct (Z.ltb_spec (2 * CHUNK_SIZE) (Z.of_nat (length b1))) as [H2|H2];
    destruct (Z.ltb_spec (3 * CHUNK_SIZE) (Z.of_nat (length b1))) as [H3|H3];
    rewrite <- ?Hmid, <- ?Hend by done; reflexivity.
Qed.

(** X4.  Whatever the size of the file, the partial hash is computed from at
    most three chunks of at most [CHUNK_SIZE] bytes each. *)
Theorem partial_hash_reads_at_most_three_chunks w filepath chunks :
  partial_hash_chunks w filepath = Some chunks ->
  (1 <= length chunks <= 3)%nat /\
  Forall (fun chunk => Z.of_nat (length chunk) <= CHUNK_SIZE) chunks /\
  Z.of_nat (length (concat chunks)) <= 3 * CHUNK_SIZE.
Proof.
  intros Hchunks.
  destruct (partial_hash_chunks_readable _ _ _ Hchunks) as [bytes Hopen].
  rewrite (partial_hash_chunks_open _ _ _ Hopen) in Hchunks.
  injection Hchunks as <-.
  pose proof CHUNK_SIZE_pos as Hpos.
  generalize dependent CHUNK_SIZE. intros C Hpos.
  assert (Z.of_nat (length (take (Z.to_nat C) bytes)) <= C) as Hs
    by (rewrite length_take; lia).
  assert (forall n, Z.of_nat (length (take (Z.to_nat C) (drop n bytes))) <= C) as Hm
    by (intros n; rewrite length_take; lia).
  pose proof (Hm (Z.to_nat (Z.of_nat (length bytes) `div` 2))) as Hmid.
  assert (Z.of_nat (length (drop (length bytes - Z.to_nat C) bytes)) <= C) as He
    by (rewrite length_drop; lia).
  destruct (Z.ltb_spec (2 * C) (Z.of_nat (length bytes))) as [H2|H2];
    destruct (Z.ltb_spec (3 * C) (Z.of_nat (length bytes))) as [H3|H3];
    cbn [app length concat]; rewrite ?app_nil_r, ?length_app;
    (split; [lia|]); (split; [by repeat constructor|lia]).
Qed.

End HashingMore.

(** *** The pipeline finds the duplicates *)

Section PipelineComplete.
Context `{Digest, Scheduler}.

Lemma two_members_length {A} (x y : A) (l : list A) :
  x ∈ l -> y ∈ l -> x <> y -> (2 <= length l)%nat.
Proof.
  intros Hx Hy Hne. destruct l as [|a [|b l]]; [by apply elem_of_nil in Hx| |simpl; lia].
  apply list_elem_of_singleton in Hx, Hy. congruence.
Qed.

(** X5.  Files with the same readable content come back together.  When the
    digest of no input is the empty text, as for SHA-256, two different
    records among the submitted files whose files hold the same bytes are
    both in the group returned under the digest of these bytes, each with
    that digest stored as its hash. *)
Theorem identical_files_are_grouped w size_groups f1 f2 bytes :
  (forall b, str.truthy (sha256_hexdigest b) = true) ->
  f1 ∈ partial_submitted size_groups ->
  f2 ∈ partial_submitted size_groups ->
  f1 <> f2 ->
  os_open w (fi_path f1) = Some bytes ->
  os_open w (fi_path f2) = Some bytes ->
  exists files,
    (sha256_hexdigest bytes, files) ∈ find_duplicates_by_hash w size_groups /\
    set_hash (sha256_hexdigest bytes) f1 ∈ files /\
    set_hash (sha256_hexdigest bytes) f2 ∈ files.
Proof.
  intros Hdigest Hs1 Hs2 Hne Ho1 Ho2.
  (* the partial pass *)
  destruct (compute_partial_hash w (fi_path f1)) as [ph|] eqn:Hp1; last first.
  { unfold compute_partial_hash in Hp1.
    by rewrite (partial_hash_chunks_open _ _ _ Ho1) in Hp1. }
  assert (compute_partial_hash w (fi_path f2) = Some ph) as Hp2.
  { rewrite <- Hp1. unfold compute_partial_hash.
    by rewrite (partial_hash_chunks_open _ _ _ Ho1), (partial_hash_chunks_open _ _ _ Ho2). }
  assert (str.truthy ph = true) as Hph.
  { unfold compute_partial_hash in Hp1.
    rewrite (partial_hash_chunks_open _ _ _ Ho1) in Hp1.
    injection Hp1 as <-. apply Hdigest. }
  destruct (collect_collected (fun f => compute_partial_hash w (fi_path f))
              (fun _ f => f) (as_completed (partial_submitted size_groups)))
    as [_ Hpart].
  set (g := filter (fun f => compute_partial_hash w (fi_path f) = Some ph)
              (as_completed (partial_submitted size_groups))).
  assert (f1 ∈ g /\ f2 ∈ g) as [Hg1 Hg2].
  { subst g. split; apply list_elem_of_filter; (split; [done|]);
      by rewrite as_completed_perm. }
  assert ((ph, g) ∈ partial_groups w size_groups) as Hin.
  { apply Hpart. split; [done|]. split; [|by rewrite list_fmap_id].
    intros Hnil. rewrite Hnil in Hg1. by apply elem_of_nil in Hg1. }
  assert (forall f, f ∈ g -> f ∈ candidate_files w size_groups) as Hcand.
  { intros f Hf. unfold candidate_files. apply list_elem_of_In, in_concat.
    exists g. split; [|by apply list_elem_of_In].
    apply filter_In. split.
    - apply list_elem_of_In, list_elem_of_fmap. by exists (ph, g).
    - apply Nat.ltb_lt. pose proof (two_members_length f1 f2 g Hg1 Hg2 Hne). lia. }
  (* the full pass *)
  set (fh := sha256_hexdigest bytes).
  destruct (collect_collected (fun f => compute_full_hash w (fi_path f))
              set_hash (as_completed (candidate_files w size_groups)))
    as [_ Hfull].
  set (G := filter (fun f => compute_full_hash w (fi_path f) = Some fh)
              (as_completed (candidate_files w size_groups))).
  assert (f1 ∈ G /\ f2 ∈ G) as [HG1 HG2].
  { subst G. split; apply list_elem_of_filter;
      (split; [by apply compute_full_hash_spec|]);
      rewrite as_completed_perm; by apply Hcand. }
  exists (set_hash fh <$> G). split; [|split; by apply list_elem_of_fmap_2].
  unfold find_duplicates_by_hash. apply list_elem_of_In, filter_In. split.
  - apply list_elem_of_In, Hfull. split; [apply Hdigest|]. split; [|done].
    intros Hnil. apply fmap_nil_inv in Hnil. rewrite Hnil in HG1.
    by apply elem_of_nil in HG1.
  - apply Nat.ltb_lt. rewrite length_fmap.
    pose proof (two_members_length f1 f2 G HG1 HG2 Hne). lia.
Qed.

End PipelineComplete.

(** *** The pipeline and the order of completion *)

Section Partition.
Variable hash_of : FileInfo -> option string.
Variable store : string -> FileInfo -> FileInfo.

Lemma filter_or_disjoint {A} (P Q : A -> Prop)
    `{!forall x, Decision (P x), !forall x, Decision (Q x)} (l : list A) :
  (forall x, P x -> Q x -> False) ->
  filter (fun x => P x \/ Q x) l ≡ₚ filter P l ++ filter Q l.
Proof.
  intros Hdis. induction l as [|x l IH]; [done|].
  destruct (decide (P x)) as [HP|HP]; destruct (decide (Q x)) as [HQ|HQ].
  - by destruct (Hdis x).
  - rewrite (filter_cons_True (fun x => P x \/ Q x)) by (by left).
    rewrite (filter_cons_True P), (filter_cons_False Q) by done.
    cbn [app]. by rewrite IH.
  - rewrite (filter_cons_True (fun x => P x \/ Q x)) by (by right).
    rewrite (filter_cons_False P), (filter_cons_True Q) by done.
    rewrite IH. apply Permutation_middle.
  - rewrite (filter_cons_False (fun x => P x \/ Q x)) by (by intros [?|?]).
    by rewrite (filter_cons_False P), (filter_cons_False Q) by done.
Qed.

Lemma filter_nothing {A} (l : list A) : filter (fun _ => False) l = [].
Proof.
  induction l as [|x l IH]; [done|]. by rewrite filter_cons_False by tauto.
Qed.

Lemma groups_concat (l : list FileInfo) (d : list (string * list FileInfo)) :
  NoDup d.*1 ->
  (forall h g, (h, g) ∈ d -> g = store h <$> filter (fun f => hash_of f = Some h) l) ->
  concat (List.filter (fun g => (1 <? length g)%nat) d.*2)
  ≡ₚ stored hash_of store <$> filter (keyed hash_of d.*1 l) l.
Proof.
  induction d as [|[k g] d IH]; intros Hnd Hgroups.
  - cbn. rewrite (list_filter_iff _ (fun _ => False)).
    + by rewrite filter_nothing.
    + intros f. split; [|done]. by intros (h & _ & ?%elem_of_nil & _).
  - cbn [fmap list_fmap fst snd] in *. apply NoDup_cons in Hnd as [Hk Hnd].
    change (list_fmap _ _ fst d) with (d.*1) in *.
    change (list_fmap _ _ snd d) with (d.*2).
    specialize (IH Hnd (fun h g0 Hin => Hgroups h g0 (list_elem_of_further _ _ _ Hin))).
    pose proof (Hgroups k g (list_elem_of_here _ _)) as Hg.
    rewrite (list_filter_iff _
               (fun f => (hash_of f = Some k /\
                          (1 < length (filter (fun g => hash_of g = Some k) l))%nat)
                         \/ keyed hash_of d.*1 l f)).
    2:{ intros f. unfold keyed. split.
        - intros (h & Hh & [->|Hin]%elem_of_cons & Hbig); [by left|].
          right. by exists h.
        - intros [[Hh Hbig]|(h & Hh & Hin & Hbig)].
          + exists k. split; [done|]. split; [by left|done].
          + exists h. split; [done|]. split; [by right|done]. }
    rewrite filter_or_disjoint, fmap_app.
    2:{ intros f [Hh _] (h & Hh' & Hin & _). congruence. }
    cbn [List.filter]. rewrite <- IH.
    destruct (decide (1 < length (filter (fun g => hash_of g = Some k) l))%nat)
      as [Hbig|Hsmall].
    + rewrite (proj2 (Nat.ltb_lt _ _)) by (by rewrite Hg, length_fmap).
      cbn [concat]. apply Permutation_app; [|done].
      rewrite (list_filter_iff _ (fun f => hash_of f = Some k)) by (intros; tauto).
      rewrite Hg. apply reflexive_eq, list_fmap_ext.
      intros _ f Hf%list_elem_of_lookup_2%list_elem_of_filter.
      unfold stored. by rewrite (proj1 Hf).
    + rewrite (proj2 (Nat.ltb_ge _ _)) by (rewrite Hg, length_fmap; lia).
      rewrite (list_filter_iff _ (fun _ => False)) by (intros; tauto).
      by rewrite filter_nothing.
Qed.

Lemma collected_concat l groups :
  collected hash_of store l groups ->
  concat (List.filter (fun g => (1 <? length g)%nat) groups.*2)
  ≡ₚ stored hash_of store <$> filter (fun f => shared_hash hash_of l f = true) l.
Proof.
  intros [Hnd Hgroups]. rewrite (groups_concat l groups Hnd).
  - apply reflexive_eq. f_equal. apply list_filter_iff. intros f.
    unfold keyed, shared_hash. destruct (hash_of f) as [h|]; last first.
    { split; [by intros (? & ? & _)|done]. }
    rewrite andb_true_iff, Nat.ltb_lt. split.
    + intros (h' & [= <-] & Hin & Hbig). split; [|done].
      apply list_elem_of_fmap in Hin as ([h0 g] & -> & Hin).
      by apply Hgroups in Hin as (? & _).
    + intros [Htr Hbig]. exists h. split; [done|]. split; [|done].
      apply list_elem_of_fmap.
      exists (h, store h <$> filter (fun f => hash_of f = Some h) l).
      split; [done|]. apply Hgroups. split; [done|]. split; [|done].
      intros Hnil%fmap_nil_inv. rewrite Hnil in Hbig. simpl in Hbig. lia.
  - intros h g Hin. by apply Hgroups in Hin as (_ & _ & ->).
Qed.

Lemma shared_hash_perm l l' f :
  l ≡ₚ l' -> shared_hash hash_of l f = shared_hash hash_of l' f.
Proof.
  intros Hperm. unfold shared_hash. destruct (hash_of f) as [h|]; [|done].
  by rewrite Hperm.
Qed.

Lemma shared_filter_perm l l' :
  l ≡ₚ l' ->
  filter (fun f => shared_hash hash_of l f = true) l
  ≡ₚ filter (fun f => shared_hash hash_of l' f = true) l'.
Proof.
  intros Hperm. rewrite Hperm. apply reflexive_eq, list_filter_iff.
  intros f. by rewrite (shared_hash_perm l l').
Qed.

End Partition.

Section Scheduling.
Context `{Digest}.

Lemma bind_snd_concat {K V} (d : list (K * list V)) : d ≫= snd = concat d.*2.
Proof. induction d as [|[k g] d IH]; [done|]. cbn. by rewrite <- IH. Qed.

Lemma filter_groups_snd {K V} (test : list V -> bool) (d : list (K * list V)) :
  (List.filter (fun '(h, files) => test files) d).*2 = List.filter test d.*2.
Proof.
  induction d as [|[k g] d IH]; [done|]. cbn [List.filter fmap list_fmap snd].
  destruct (test g); cbn [fmap list_fmap snd]; by rewrite <- IH.
Qed.

Lemma NoDup_fmap_filter {A B} (f : A -> B) (P : A -> Prop)
    `{!forall x, Decision (P x)} (l : list A) :
  NoDup (f <$> l) -> NoDup (f <$> filter P l).
Proof.
  induction l as [|x l IH]; [done|]. rewrite fmap_cons. intros [Hx Hnd]%NoDup_cons.
  destruct (decide (P x)).
  - rewrite filter_cons_True, fmap_cons by done. apply NoDup_cons. split; [|by apply IH].
    intros (y & Hy & [_ Hin]%list_elem_of_filter)%list_elem_of_fmap.
    apply Hx. apply list_elem_of_fmap. by exists y.
  - rewrite filter_cons_False by done. by apply IH.
Qed.

Section OneOrder.
Context `{Scheduler}.

(** The files handed to the full hash, whatever the order in which the
    partial hashes came back: the submitted files whose partial hash is
    shared. *)
Lemma candidate_files_canon w size_groups :
  candidate_files w size_groups
  ≡ₚ filter (fun f => shared_hash (fun f => compute_partial_hash w (fi_path f))
                        (partial_submitted size_groups) f = true)
       (partial_submitted size_groups).
Proof.
  unfold candidate_files, partial_groups.
  rewrite (collected_concat _ _ _ _ (collect_collected _ _ _)).
  rewrite (list_fmap_ext _ id (filter _ _)), list_fmap_id.
  - apply shared_filter_perm, as_completed_perm.
  - intros _ f _. unfold stored. by destruct (compute_partial_hash _ _).
Qed.

(** The files of the groups that are returned, whatever the order in which
    the hashes came back. *)
Lemma found_files_canon w size_groups :
  find_duplicates_by_hash w size_groups ≫= snd
  ≡ₚ stored (fun f => compute_full_hash w (fi_path f)) set_hash
       <$> filter (fun f => shared_hash (fun f => compute_full_hash w (fi_path f))
                              (filter (fun f => shared_hash
                                           (fun f => compute_partial_hash w (fi_path f))
                                           (partial_submitted size_groups) f = true)
                                 (partial_submitted size_groups)) f = true)
             (filter (fun f => shared_hash
                                 (fun f => compute_partial_hash w (fi_path f))
                                 (partial_submitted size_groups) f = true)
                (partial_submitted size_groups)).
Proof.
  unfold find_duplicates_by_hash.
  rewrite bind_snd_concat, (filter_groups_snd (fun files => (1 <? length files)%nat)).
  rewrite (collected_concat _ _ _ _ (collect_collected _ _ _)).
  apply fmap_Permutation, shared_filter_perm.
  rewrite as_completed_perm. apply candidate_files_canon.
Qed.

Lemma found_paths_NoDup w size_groups :
  NoDup (map fi_path (partial_submitted size_groups)) ->
  NoDup (map fi_path (find_duplicates_by_hash w size_groups ≫= snd)).
Proof.
  intros Hnd.
  change (map fi_path ?l) with (fi_path <$> l) in *.
  rewrite found_files_canon, <- list_fmap_compose.
  rewrite (list_fmap_ext _ fi_path (filter _ _)).
  - by do 2 apply NoDup_fmap_filter.
  - intros _ f _. unfold stored, compose. by destruct (compute_full_hash _ _).
Qed.

(** X7.  The groups found never list a path twice when the files submitted do
    not: the dispatcher then meets every file once. *)
Theorem found_groups_list_no_path_twice w size_groups :
  NoDup (map fi_path (partial_submitted size_groups)) ->
  NoDup (map fi_path (find_duplicates_by_hash w size_groups ≫= snd)).
Proof. apply found_paths_NoDup. Qed.

End OneOrder.

(** X6.  Which files are reported as duplicates does not depend on the order in
    which the hashing tasks finish.  For two orders of completion, the
    files of the groups returned are the same, and every group returned
    under one order is returned under the other with the same hash and the
    same files, in some order. *)
Theorem duplicates_found_whatever_the_order (S1 S2 : Scheduler) w size_groups :
  (@find_duplicates_by_hash _ S1 w size_groups ≫= snd)
  ≡ₚ (@find_duplicates_by_hash _ S2 w size_groups ≫= snd) /\
  forall h g1, (h, g1) ∈ @find_duplicates_by_hash _ S1 w size_groups ->
    exists g2, (h, g2) ∈ @find_duplicates_by_hash _ S2 w size_groups /\ g1 ≡ₚ g2.
Proof.
  split; [by rewrite !found_files_canon|].
  intros h g1 Hin. unfold find_duplicates_by_hash in *.
  apply list_elem_of_In, filter_In in Hin as [Hin Hlen]. apply Nat.ltb_lt in Hlen.
  destruct (collect_collected (fun f => compute_full_hash w (fi_path f)) set_hash
              (@as_completed S1 _ (@candidate_files _ S1 w size_groups)))
    as [_ Hcol1].
  destruct (collect_collected (fun f => compute_full_hash w (fi_path f)) set_hash
              (@as_completed S2 _ (@candidate_files _ S2 w size_groups)))
    as [_ Hcol2].
  apply list_elem_of_In, Hcol1 in Hin as (Htr & _ & Hg1).
  assert (@as_completed S1 _ (@candidate_files _ S1 w size_groups)
          ≡ₚ @as_completed S2 _ (@candidate_files _ S2 w size_groups)) as Hperm.
  { rewrite !as_completed_perm.
    by rewrite (@candidate_files_canon S1), (@candidate_files_canon S2). }
  exists (set_hash h <$> filter (fun f => compute_full_hash w (fi_path f) = Some h)
                          (@as_completed S2 _ (@candidate_files _ S2 w size_groups))).
  assert (g1 ≡ₚ set_hash h <$>
                  filter (fun f => compute_full_hash w (fi_path f) = Some h)
                    (@as_completed S2 _ (@candidate_files _ S2 w size_groups)))
    as Hg by (by rewrite Hg1, Hperm).
  split; [|done].
  apply list_elem_of_In, filter_In. split.
  - apply list_elem_of_In, Hcol2. split; [done|]. split; [|done].
    intros Hnil. rewrite Hnil in Hg. apply Permutation_length in Hg.
    simpl in Hg. lia.
  - apply Nat.ltb_lt. by rewrite <- Hg.
Qed.

End Scheduling.

(** *** More about the choice of the keeper *)

Section SelectionMore.

(** What [choose_file_to_keep] returns for a list that has a file: a member
    of the list it hands back, whose key no member undercuts; the list it
    hands back is the list it was given, with the missing scores filled in
    when there are two files or more. *)
Lemma choose_file_to_keep_some w files :
  files <> [] ->
  exists k files',
    choose_file_to_keep w files = Some (k, files') /\
    k ∈ files' /\
    (forall f, f ∈ files' -> key_le (sort_key k) (sort_key f)) /\
    (files' = files \/ files' = map (fill_folder_score w) files) /\
    ((2 <= length files)%nat -> files' = map (fill_folder_score w) files).
Proof.
  intros Hne. destruct files as [|x [|y l]]; [done| |].
  - exists x, [x]. split; [done|]. split; [by left|]. split.
    + intros f ->%list_elem_of_singleton. apply key_le_refl.
    + split; [by left|]. simpl. lia.
  - destruct (sorted_head_min (fill_folder_score w x)
                (map (fill_folder_score w) (y :: l))) as (k & Hk & Hin & Hmin).
    exists k, (map (fill_folder_score w) (x :: y :: l)).
    split; [|split; [done|split; [done|split; [by right|done]]]].
    unfold choose_file_to_keep.
    change (map (fill_folder_score w) (x :: y :: l))
      with (fill_folder_score w x :: map (fill_folder_score w) (y :: l)).
    destruct (sorted sort_key key_lt _) as [|k0 srt]; by simplify_eq/=.
Qed.

Lemma fill_folder_score_path w f : fi_path (fill_folder_score w f) = fi_path f.
Proof. unfold fill_folder_score. by destruct (fi_folder_score f). Qed.

Lemma choose_file_to_keep_paths w files k files' :
  choose_file_to_keep w files = Some (k, files') ->
  map fi_path files' = map fi_path files.
Proof.
  intros Hch. destruct (decide (files = [])) as [->|Hne]; [done|].
  destruct (choose_file_to_keep_some w files Hne)
    as (k0 & files0 & Hch0 & _ & _ & Hor & _).
  rewrite Hch in Hch0. injection Hch0 as <- <-.
  destruct Hor as [->| ->]; [done|].
  rewrite List.map_map. apply map_ext. intros f. apply fill_folder_score_path.
Qed.

Lemma reason_text_not_default (r : string) (rs : list string) :
  (exists c s, r = String c s /\ c <> "d"%char) ->
  str.join "; " (r :: rs) <> "default choice".
Proof.
  intros (c & s & -> & Hc). unfold str.join.
  destruct rs as [|r' rs]; cbn [String.concat].
  - intros [= ?]. done.
  - rewrite append_cons. intros [= ?]. done.
Qed.

(** X14.  The dispatcher asks [_build_reason] for the text of a file other than
    the keeper.  The text is [default choice] exactly when the file ties
    with the keeper on the whole key: folder score, earliest time and path
    length. *)
Theorem default_choice_means_full_tie w files keeper files' f :
  choose_file_to_keep w files = Some (keeper, files') ->
  f ∈ files' ->
  fi_path f <> fi_path keeper ->
  (_build_reason keeper f = "default choice" <-> sort_key keeper = sort_key f).
Proof.
  intros Hch Hf Hpath.
  destruct (decide (files = [])) as [->|Hne]; [done|].
  destruct (choose_file_to_keep_some w files Hne)
    as (k0 & files0 & Hch0 & _ & Hmin & _).
  rewrite Hch in Hch0. injection Hch0 as <- <-.
  specialize (Hmin f Hf). unfold sort_key in *. unfold key_le in Hmin.
  unfold _build_reason.
  destruct (Z.ltb_spec (score f) (score keeper)) as [Hs|Hs].
  { split.
    - intros Habs. exfalso. revert Habs. cbn [app].
      apply reason_text_not_default. rewrite append_cons. by eexists _, _.
    - intros [= ? _ _]. lia. }
  destruct (Z.ltb_spec (get_earliest_time keeper) (get_earliest_time f)) as [Ht|Ht].
  { split.
    - intros Habs. exfalso. revert Habs. cbn [app].
      apply reason_text_not_default. by eexists _, _.
    - intros [= _ ? _]. lia. }
  destruct (Nat.ltb_spec (path_len keeper) (path_len f)) as [Hn|Hn].
  { split.
    - intros Habs. exfalso. revert Habs. cbn [app].
      apply reason_text_not_default. by eexists _, _.
    - intros [= _ _ ?]. lia. }
  cbn [app]. split; [intros _|done].
  assert (score keeper = score f /\ get_earliest_time keeper = get_earliest_time f
          /\ path_len keeper = path_len f) as (-> & -> & ->) by lia.
  done.
Qed.

Lemma sorted_head_Some (x : FileInfo) l k srt :
  sorted sort_key key_lt (x :: l) = k :: srt ->
  k ∈ x :: l /\ forall f, f ∈ x :: l -> key_le (sort_key k) (sort_key f).
Proof.
  intros Hs. destruct (sorted_head_min x l) as (k0 & Hk & Hin & Hmin).
  rewrite Hs in Hk. injection Hk as <-. done.
Qed.

(** X15.  The keeper does not depend on the order of the list when no two files
    have the same key: the order in which the hashing tasks finished, which
    decides the order of a group, matters on ties only. *)
Theorem keeper_independent_of_order w files1 files2 :
  files1 ≡ₚ files2 ->
  (forall f g, f ∈ files1 -> g ∈ files1 ->
     sort_key (fill_folder_score w f) = sort_key (fill_folder_score w g) -> f = g) ->
  fst <$> choose_file_to_keep w files1 = fst <$> choose_file_to_keep w files2.
Proof.
  intros Hperm Hinj.
  destruct files1 as [|x1 [|y1 l1]].
  - apply Permutation_nil_l in Hperm as ->. done.
  - apply Permutation_singleton_l in Hperm as ->. done.
  - pose proof (Permutation_length Hperm) as Hlen.
    destruct files2 as [|x2 [|y2 l2]]; [done|done|].
    destruct (choose_file_to_keep_some w (x1 :: y1 :: l1))
      as (k1 & f1 & -> & Hin1 & Hmin1 & _ & Hf1); [done|].
    destruct (choose_file_to_keep_some w (x2 :: y2 :: l2))
      as (k2 & f2 & -> & Hin2 & Hmin2 & _ & Hf2); [done|].
    rewrite Hf1 in Hin1, Hmin1 by (simpl; lia).
    rewrite Hf2 in Hin2, Hmin2 by (simpl; lia).
    cbn [fmap option_fmap option_map fst]. f_equal.
    apply list_elem_of_In, in_map_iff in Hin1 as (g1 & <- & Hg1%list_elem_of_In).
    apply list_elem_of_In, in_map_iff in Hin2 as (g2 & <- & Hg2%list_elem_of_In).
    rewrite <- Hperm in Hg2. f_equal. apply Hinj; [done|done|].
    apply key_le_antisym.
    + apply Hmin1. apply list_elem_of_In, in_map. by apply list_elem_of_In.
    + apply Hmin2. apply list_elem_of_In, in_map. apply list_elem_of_In.
      by rewrite <- Hperm.
Qed.

Lemma name_parts_length p :
  pathlib.name p <> EmptyString ->
  (pathlib.anchored p = true -> pathlib.parts p <> []) ->
  pathlib.parent p
    = pathlib.mkPath (pathlib.drv p) (pathlib.root p) (removelast (pathlib.parts p)) /\
  pathlib.parts p <> [].
Proof.
  unfold pathlib.name, pathlib.parent. intros Hname Hwf.
  case_bool_decide as Hlen; [done|].
  destruct (pathlib.anchored p).
  - rewrite bool_decide_eq_false_2 by done. split; [done|]. by apply Hwf.
  - rewrite andb_false_r. split; [done|]. by destruct (pathlib.parts p).
Qed.

(** X16.  The folder score of a file depends on its directory only: two files
    that have a name and the same parent get the same score, so among the
    files of one directory the choice falls to age and path length. *)
Theorem siblings_have_the_same_folder_score w a b :
  pathlib.name (pathlib.of_string a) <> EmptyString ->
  pathlib.name (pathlib.of_string b) <> EmptyString ->
  pathlib.parent (pathlib.of_string a) = pathlib.parent (pathlib.of_string b) ->
  compute_folder_score w a = compute_folder_score w b.
Proof.
  intros Ha Hb Hparent. unfold compute_folder_score. rewrite Hparent.
  destruct (name_parts_length _ Ha (parse_parts_anchor_part [a])) as [Hpa Hna].
  destruct (name_parts_length _ Hb (parse_parts_anchor_part [b])) as [Hpb Hnb].
  rewrite Hpa, Hpb in Hparent. injection Hparent as _ _ Hrl.
  apply (f_equal length) in Hrl.
  assert (forall l : list string, l <> [] -> length l = S (length (removelast l)))
    as Hlen.
  { intros l Hl. rewrite (app_removelast_last EmptyString Hl) at 1.
    rewrite length_app. simpl. lia. }
  fold (pathlib.of_string a) in Hna. fold (pathlib.of_string b) in Hnb.
  rewrite (Hlen _ Hna), (Hlen _ Hnb), Hrl. done.
Qed.

End SelectionMore.

(** *** More about the dispatcher *)

Section DispatcherMore.

(** The number of files a group gives up: all but the keeper. *)
Lemma filter_other_paths_length (k : FileInfo) (files : list FileInfo) :
  k ∈ files ->
  (length (List.filter (fun f => negb (bool_decide (fi_path f = fi_path k))) files)
   <= length files - 1)%nat /\
  (NoDup (map fi_path files) ->
   length (List.filter (fun f => negb (bool_decide (fi_path f = fi_path k))) files)
   = (length files - 1)%nat).
Proof.
  induction files as [|x files IH]; [by intros ?%elem_of_nil|].
  intros Hin. cbn [List.filter map length].
  assert (length (List.filter
                    (fun f => negb (bool_decide (fi_path f = fi_path k))) files)
          <= length files)%nat as Hle by apply List.filter_length_le.
  case_bool_decide as Hx; cbn [negb length].
  - split; [lia|]. intros [Hnin Hnd]%NoDup_cons.
    assert (List.filter (fun f => negb (bool_decide (fi_path f = fi_path k))) files
            = files) as ->; [|lia].
    apply forallb_filter_id, forallb_forall. intros f Hf.
    apply negb_true_iff, bool_decide_eq_false. intros Hp. apply Hnin.
    rewrite Hx, <- Hp. apply list_elem_of_In, in_map, Hf.
  - apply elem_of_cons in Hin as [->|Hin]; [done|].
    destruct (IH Hin) as [IH1 IH2].
    assert (1 <= length files)%nat by (destruct files; [by apply elem_of_nil in Hin|simpl; lia]).
    split; [lia|]. intros [_ Hnd]%NoDup_cons. rewrite IH2 by done. lia.
Qed.

Lemma process_file_returns h k f self w :
  (arg_mode (args self) = quarantine -> is_Some (quarantine_manager self)) ->
  exists a qm' w',
    process_file h k f (self, w) =
      Ok (mkDuplicateCleaner (args self) (reporter_actions self ++ [a]) qm', w') /\
    (arg_mode (args self) = quarantine -> is_Some qm').
Proof.
  intros Hqm. unfold process_file, add_action.
  destruct (arg_apply (args self)); [|by eexists _, _, _].
  destruct (arg_mode (args self)) eqn:Hmode.
  - by eexists _, _, _.
  - destruct Hqm as [qm ->]; [done|].
    destruct (move_to_quarantine qm (fi_path f) w) as [[[] qm'] w'];
      by eexists _, _, _.
  - destruct (arg_confirm (args self)); [|by eexists _, _, _].
    destruct (os_remove (fi_path f) w) as [w' [e|]]; by eexists _, _, _.
Qed.

Lemma process_files_returns h k files self w :
  (arg_mode (args self) = quarantine -> is_Some (quarantine_manager self)) ->
  exists new qm' w',
    process_files h k files (self, w) =
      Ok (mkDuplicateCleaner (args self) (reporter_actions self ++ new) qm', w') /\
    (arg_mode (args self) = quarantine -> is_Some qm') /\
    length new
    = length (List.filter (fun f => negb (bool_decide (fi_path f = fi_path k))) files).
Proof.
  revert self w. induction files as [|f files IH]; intros self w Hqm.
  - exists [], (quarantine_manager self), w. rewrite app_nil_r. by destruct self.
  - change (process_files h k (f :: files) (self, w))
      with (if decide (fi_path f = fi_path k)
            then process_files h k files (self, w)
            else process_file h k f (self, w) ≫= process_files h k files).
    cbn [List.filter]. case_decide as Hp.
    + rewrite bool_decide_eq_true_2 by done. by apply IH.
    + rewrite bool_decide_eq_false_2 by done.
      destruct (process_file_returns h k f self w Hqm) as (a & qm1 & w1 & -> & Hqm1).
      cbn [mbind result_bind negb].
      destruct (IH (mkDuplicateCleaner (args self) (reporter_actions self ++ [a]) qm1)
                  w1 Hqm1) as (new & qm' & w' & -> & Hqm' & Hlen).
      exists (a :: new), qm', w'. cbn [args reporter_actions].
      rewrite <- app_assoc. split; [done|]. split; [done|]. simpl. by rewrite Hlen.
Qed.

Lemma process_duplicates_returns hash_groups self w :
  (arg_mode (args self) = quarantine -> is_Some (quarantine_manager self)) ->
  Forall (fun g => g.2 <> []) hash_groups ->
  exists new qm' w',
    process_duplicates hash_groups (self, w) =
      Ok (mkDuplicateCleaner (args self) (reporter_actions self ++ new) qm', w') /\
    (length new <= sum_list ((fun g => length g.2 - 1)%nat <$> hash_groups))%nat /\
    (Forall (fun g => NoDup (map fi_path g.2)) hash_groups ->
     length new = sum_list ((fun g => length g.2 - 1)%nat <$> hash_groups)).
Proof.
  intros Hqm Hne. revert self w Hqm.
  induction Hne as [|[h files] groups Hfiles _ IH]; intros self w Hqm.
  - exists [], (quarantine_manager self), w. rewrite app_nil_r.
    split; [by destruct self|]. split; [done|]. done.
  - simpl in Hfiles. cbn [process_duplicates].
    destruct (choose_file_to_keep_some w files Hfiles)
      as (k & files' & Hch & Hin & _ & _).
    cbn [snd]. rewrite Hch. cbn [mbind result_bind].
    destruct (process_files_returns h k files' self w Hqm)
      as (new1 & qm1 & w1 & -> & Hqm1 & Hlen1).
    cbn [mbind result_bind].
    destruct (IH (mkDuplicateCleaner (args self) (reporter_actions self ++ new1) qm1)
                w1 Hqm1) as (new2 & qm' & w' & -> & Hle & Heq).
    exists (new1 ++ new2), qm', w'. cbn [args reporter_actions].
    rewrite <- app_assoc. split; [done|].
    pose proof (choose_file_to_keep_paths _ _ _ _ Hch) as Hpaths.
    assert (length files' = length files) as Hl.
    { apply (f_equal length) in Hpaths. by rewrite !length_map in Hpaths. }
    destruct (filter_other_paths_length k files' Hin) as [Hle1 Heq1].
    rewrite length_app, fmap_cons.
    change (sum_list (?a :: ?l)) with (a + sum_list l)%nat. cbn [snd].
    split; [lia|]. intros [Hnd Hnds]%Forall_cons. simpl in Hnd.
    rewrite Hlen1, Heq1, Heq, Hl by (by rewrite ?Hpaths). done.
Qed.

(** X9.  A run of the dispatcher by a cleaner that has its quarantine manager
    when the mode is quarantine.  Over groups that all have a file it
    returns in every mode, keeps the records it had and adds at most one
    per file that is not a keeper: at most [len(files) - 1] per group, and
    exactly that many when the paths within each group are distinct.  A
    group without a file makes it raise [IndexError]. *)
Theorem process_duplicates_one_record_per_duplicate hash_groups self w :
  (arg_mode (args self) = quarantine -> is_Some (quarantine_manager self)) ->
  (Forall (fun g => g.2 <> []) hash_groups ->
   exists new qm' w',
     process_duplicates hash_groups (self, w) =
       Ok (mkDuplicateCleaner (args self) (reporter_actions self ++ new) qm', w') /\
     (length new <= sum_list ((fun g => length g.2 - 1)%nat <$> hash_groups))%nat /\
     (Forall (fun g => NoDup (map fi_path g.2)) hash_groups ->
      length new = sum_list ((fun g => length g.2 - 1)%nat <$> hash_groups))) /\
  (Exists (fun g => g.2 = []) hash_groups ->
   process_duplicates hash_groups (self, w) = Raise IndexError).
Proof.
  intros Hqm. split; [by apply process_duplicates_returns|].
  intros Hex. revert self w Hqm.
  induction hash_groups as [|[h files] groups IH]; intros self w Hqm;
    [by apply Exists_nil in Hex|].
  cbn [process_duplicates snd].
  destruct (decide (files = [])) as [->|Hfiles]; [done|].
  apply Exists_cons in Hex as [Hex|Hex]; [done|].
  destruct (choose_file_to_keep_some w files Hfiles)
    as (k & files' & -> & _).
  cbn [mbind result_bind].
  destruct (process_files_returns h k files' self w Hqm)
    as (new1 & qm1 & w1 & -> & Hqm1 & _).
  cbn [mbind result_bind]. by apply IH.
Qed.

(** X10.  In report mode the dispatcher changes nothing, with [apply] on too:
    the world is as it was, no call to the file system is issued, and every
    record it adds has the action [report-only] and no error. *)
Theorem report_mode_never_mutates hash_groups self w :
  arg_mode (args self) = report ->
  arg_apply (args self) = true ->
  Forall (fun g => g.2 <> []) hash_groups ->
  exists new,
    process_duplicates hash_groups (self, w) =
      Ok (mkDuplicateCleaner (args self) (reporter_actions self ++ new)
            (quarantine_manager self), w) /\
    Forall (fun a => da_action a = "report-only" /\ da_error a = None) new.
Proof.
  intros Hmode Happly Hne.
  destruct (process_duplicates_gated hash_groups self w "report-only" None)
    as (new & Hrun & Hall & _); [|done|by exists new].
  unfold gated_outcome. by rewrite Happly, Hmode.
Qed.

End DispatcherMore.

Section PipelineMore.
Context `{Digest, Scheduler}.

(** X8.  The groups that the hashing pipeline hands over never make the
    dispatcher fail: whatever the mode and the flags, a cleaner made by
    [__init__] processes them and returns. *)
Theorem dispatcher_accepts_the_groups_found w_hashed size_groups a w :
  exists self' w',
    process_duplicates (find_duplicates_by_hash w_hashed size_groups)
      (DuplicateCleaner_init a, w) = Ok (self', w').
Proof.
  destruct (process_duplicates_returns
              (find_duplicates_by_hash w_hashed size_groups)
              (DuplicateCleaner_init a) w) as (new & qm' & w' & Hrun & _);
    [| |by eexists _, _].
  { unfold DuplicateCleaner_init. cbn [args quarantine_manager].
    intros ->. by rewrite decide_True. }
  apply Forall_forall. intros [h files] Hin. simpl.
  unfold find_duplicates_by_hash in Hin.
  apply list_elem_of_In, filter_In in Hin as [_ Hlen].
  apply Nat.ltb_lt in Hlen. intros ->. simpl in Hlen. lia.
Qed.

End PipelineMore.

Section Records.

Lemma process_file_record h k f self w :
  (arg_mode (args self) = quarantine -> is_Some (quarantine_manager self)) ->
  exists act err qm' w',
    process_file h k f (self, w) =
      Ok (mkDuplicateCleaner (args self)
            (reporter_actions self ++ [action_for h k f act err]) qm', w') /\
    (arg_mode (args self) = quarantine -> is_Some qm').
Proof.
  intros Hqm. unfold process_file, add_action.
  destruct (arg_apply (args self)); [|by eexists _, _, _, _].
  destruct (arg_mode (args self)) eqn:Hmode.
  - by eexists _, _, _, _.
  - destruct Hqm as [qm ->]; [done|].
    destruct (move_to_quarantine qm (fi_path f) w) as [[[] qm'] w'];
      by eexists _, _, _, _.
  - destruct (arg_confirm (args self)); [|by eexists _, _, _, _].
    destruct (os_remove (fi_path f) w) as [w' [e|]]; by eexists _, _, _, _.
Qed.

Lemma process_files_records h k files self w :
  (arg_mode (args self) = quarantine -> is_Some (quarantine_manager self)) ->
  exists new qm' w',
    process_files h k files (self, w) =
      Ok (mkDuplicateCleaner (args self) (reporter_actions self ++ new) qm', w') /\
    (arg_mode (args self) = quarantine -> is_Some qm') /\
    Forall (fun a => exists f act err,
              f ∈ files /\ fi_path f <> fi_path k /\ a = action_for h k f act err)
      new.
Proof.
  revert self w. induction files as [|f files IH]; intros self w Hqm.
  - exists [], (quarantine_manager self), w. rewrite app_nil_r. by destruct self.
  - change (process_files h k (f :: files) (self, w))
      with (if decide (fi_path f = fi_path k)
            then process_files h k files (self, w)
            else process_file h k f (self, w) ≫= process_files h k files).
    case_decide as Hp.
    + destruct (IH self w Hqm) as (new & qm' & w' & -> & Hqm' & Hrec).
      exists new, qm', w'. split; [done|]. split; [done|].
      eapply Forall_impl; [exact Hrec|]. intros a (f0 & act & err & ? & ? & ?).
      exists f0, act, err. split; [by right|done].
    + destruct (process_file_record h k f self w Hqm)
        as (act & err & qm1 & w1 & -> & Hqm1).
      cbn [mbind result_bind].
      destruct (IH (mkDuplicateCleaner (args self)
                      (reporter_actions self ++ [action_for h k f act err]) qm1)
                  w1 Hqm1) as (new & qm' & w' & -> & Hqm' & Hrec).
      exists (action_for h k f act err :: new), qm', w'. cbn [args reporter_actions].
      rewrite <- app_assoc. split; [done|]. split; [done|]. constructor.
      * exists f, act, err. split; [by left|done].
      * eapply Forall_impl; [exact Hrec|]. intros a (f0 & act0 & err0 & ? & ? & ?).
        exists f0, act0, err0. split; [by right|done].
Qed.

Lemma fill_folder_score_size w f : fi_size (fill_folder_score w f) = fi_size f.
Proof. unfold fill_folder_score. by destruct (fi_folder_score f). Qed.

Lemma fill_folder_score_times w f :
  fi_ctime (fill_folder_score w f) = fi_ctime f /\
  fi_mtime (fill_folder_score w f) = fi_mtime f.
Proof. unfold fill_folder_score. by destruct (fi_folder_score f). Qed.

Lemma chosen_from w files k files' f :
  choose_file_to_keep w files = Some (k, files') ->
  f ∈ files' ->
  exists f0, f0 ∈ files /\ fi_path f0 = fi_path f /\ fi_size f0 = fi_size f /\
    fi_ctime f0 = fi_ctime f /\ fi_mtime f0 = fi_mtime f.
Proof.
  intros Hch Hf. destruct (decide (files = [])) as [->|Hne]; [done|].
  destruct (choose_file_to_keep_some w files Hne)
    as (k0 & files0 & Hch0 & _ & _ & Hor & _).
  rewrite Hch in Hch0. injection Hch0 as <- <-.
  destruct Hor as [->| ->]; [by exists f|].
  apply list_elem_of_In, in_map_iff in Hf as (f0 & <- & Hf0%list_elem_of_In).
  exists f0. split; [done|].
  rewrite fill_folder_score_path, fill_folder_score_size.
  by destruct (fill_folder_score_times w f0) as [-> ->].
Qed.

(** X29.  Every record names two files of one group.  In every mode, a record
    that the dispatcher adds carries the key of a group as its hash, the
    path, creation and modification times of a file of that group as the
    kept file, and the path, size and times of another file of the same
    group, with a different path, as the removed file. *)
Theorem records_name_files_of_their_group hash_groups self w self' w' :
  (arg_mode (args self) = quarantine -> is_Some (quarantine_manager self)) ->
  process_duplicates hash_groups (self, w) = Ok (self', w') ->
  exists new,
    reporter_actions self' = reporter_actions self ++ new /\
    Forall (fun a =>
              exists files kept removed,
                (da_hash a, files) ∈ hash_groups /\
                kept ∈ files /\ removed ∈ files /\
                da_kept_path a = fi_path kept /\
                da_kept_ctime a = fi_ctime kept /\
                da_kept_mtime a = fi_mtime kept /\
                da_removed_path a = fi_path removed /\
                da_size a = fi_size removed /\
                da_removed_ctime a = fi_ctime removed /\
                da_removed_mtime a = fi_mtime removed /\
                da_kept_path a <> da_removed_path a) new.
Proof.
  revert self w. induction hash_groups as [|[h files] groups IH]; intros self w Hqm.
  - intros [= <- <-]. exists []. by rewrite app_nil_r.
  - cbn [process_duplicates snd].
    destruct (choose_file_to_keep w files) as [[k files']|] eqn:Hch; [|done].
    cbn [mbind result_bind].
    destruct (process_files_records h k files' self w Hqm)
      as (new1 & qm1 & w1 & -> & Hqm1 & Hrec1).
    cbn [mbind result_bind]. intros Hrest.
    apply IH in Hrest as (new2 & Hnew2 & Hrec2); [|done].
    cbn [reporter_actions] in Hnew2.
    exists (new1 ++ new2). split; [by rewrite Hnew2, app_assoc|].
    apply Forall_app. split.
    + assert (files <> []) as Hne by (intros ->; done).
      destruct (choose_file_to_keep_some w files Hne) as (k0 & fs & Hch0 & Hk & _).
      rewrite Hch in Hch0. injection Hch0 as <- <-.
      destruct (chosen_from _ _ _ _ _ Hch Hk) as (kept & Hkept & Hkp & _ & Hkc & Hkm).
      eapply Forall_impl; [exact Hrec1|].
      intros a (f & act & err & Hf & Hpath & ->).
      destruct (chosen_from _ _ _ _ _ Hch Hf) as (removed & Hrem & Hrp & Hrs & Hrc & Hrm).
      exists files, kept, removed.
      cbn [action_for da_hash da_size da_kept_path da_removed_path da_kept_ctime
             da_kept_mtime da_removed_ctime da_removed_mtime].
      split; [by left|]. repeat split; try done; congruence.
    + eapply Forall_impl; [exact Hrec2|].
      intros a (files0 & kept & removed & Hin & ?).
      exists files0, kept, removed. split; [by right|done].
Qed.

End Records.

(** *** Delete mode *)

Section DeleteMode.

Lemma os_remove_spec p w :
  w_trace (os_remove p w).1 = w_trace w ++ [SysRemove p] /\
  w_dirs (os_remove p w).1 = w_dirs w /\
  match (os_remove p w).2 with
  | None => w_files (os_remove p w).1 = base.delete p (w_files w)
  | Some _ => w_files (os_remove p w).1 = w_files w
  end.
Proof.
  unfold os_remove. cbn [issue w_locked w_files w_dirs w_trace].
  case_decide; [done|]. by destruct (w_files w !! p).
Qed.

Lemma paths_elem (l l' : list FileInfo) f :
  map fi_path l' = map fi_path l -> f ∈ l' ->
  exists f0, f0 ∈ l /\ fi_path f0 = fi_path f.
Proof.
  intros Hp Hf. apply list_elem_of_In, (in_map fi_path) in Hf.
  rewrite Hp in Hf. apply in_map_iff in Hf as (f0 & ? & ?%list_elem_of_In).
  by exists f0.
Qed.

(** What one group's turn does in delete mode with the confirmation. *)
Lemma process_files_delete h k files self w :
  arg_mode (args self) = delete ->
  arg_apply (args self) = true ->
  arg_confirm (args self) = true ->
  exists new w',
    process_files h k files (self, w) =
      Ok (mkDuplicateCleaner (args self) (reporter_actions self ++ new)
            (quarantine_manager self), w') /\
    w_dirs w' = w_dirs w /\
    w_files w' ⊆ w_files w /\
    (forall p, (forall f, f ∈ files -> fi_path f = p -> p = fi_path k) ->
       w_files w' !! p = w_files w !! p) /\
    (exists removed,
       w_trace w' = w_trace w ++ (SysRemove <$> removed) /\
       Forall (fun p => p <> fi_path k /\ exists f, f ∈ files /\ fi_path f = p)
         removed) /\
    Forall (fun a =>
              (da_action a = "delete" /\ da_error a = None /\
               w_files w' !! da_removed_path a = None) \/
              (da_action a = "dry-run" /\ is_Some (da_error a))) new.
Proof.
  intros Hmode Happly Hconfirm. revert self w Hmode Happly Hconfirm.
  induction files as [|f files IH]; intros self w Hmode Happly Hconfirm.
  - exists [], w. rewrite app_nil_r. split; [by destruct self|].
    split; [done|]. split; [done|]. split; [done|].
    split; [|done]. exists []. by rewrite app_nil_r.
  - change (process_files h k (f :: files) (self, w))
      with (if decide (fi_path f = fi_path k)
            then process_files h k files (self, w)
            else process_file h k f (self, w) ≫= process_files h k files).
    case_decide as Hp.
    + destruct (IH self w Hmode Happly Hconfirm)
        as (new & w' & -> & Hdirs & Hsub & Hframe & (removed & Htrace & Hrem) & Hrec).
      exists new, w'. split; [done|]. split; [done|]. split; [done|].
      split; [|split; [|done]].
      * intros p Hnot. apply Hframe. intros f0 Hf0. apply Hnot. by right.
      * exists removed. split; [done|]. eapply Forall_impl; [exact Hrem|].
        intros p (? & f0 & ? & ?). split; [done|]. exists f0. split; [by right|done].
    + unfold process_file, add_action. rewrite Happly, Hmode, Hconfirm.
      pose proof (os_remove_spec (fi_path f) w) as (Htr1 & Hdirs1 & Hfiles1).
      destruct (os_remove (fi_path f) w) as [w1 oe]. cbn [fst snd] in *.
      assert (exists act err,
                (match oe with
                 | None => Ok ("delete", None, quarantine_manager self, w1)
                 | Some e =>
                     Ok ("dry-run", Some (os_error_str e), quarantine_manager self, w1)
                 end : result (string * option string * option QuarantineManager * World))
                = Ok (act, err, quarantine_manager self, w1) /\
                ((act = "delete" /\ err = None /\ oe = None) \/
                 (act = "dry-run" /\ is_Some err /\ is_Some oe)))
        as (act & err & -> & Hact).
      { destruct oe as [e|]; eexists _, _; (split; [done|]);
          [right|left]; by eauto. }
      cbn [mbind result_bind].
      destruct (IH (mkDuplicateCleaner (args self)
                      (reporter_actions self ++ [action_for h k f act err])
                      (quarantine_manager self)) w1 Hmode Happly Hconfirm)
        as (new & w' & -> & Hdirs & Hsub & Hframe & (removed & Htrace & Hrem) & Hrec).
      exists (action_for h k f act err :: new), w'.
      cbn [args reporter_actions quarantine_manager].
      rewrite <- app_assoc. split; [done|].
      assert (w_files w1 ⊆ w_files w) as Hsub1.
      { destruct oe; rewrite Hfiles1; [done|apply delete_subseteq]. }
      split; [congruence|]. split; [by etrans|]. split; [|split].
      * intros p Hnot. rewrite Hframe.
        -- destruct oe; rewrite Hfiles1; [done|].
           apply lookup_delete_ne. intros <-. apply Hp, (Hnot f); [by left|done].
        -- intros f0 Hf0. apply Hnot. by right.
      * exists (fi_path f :: removed). split.
        -- rewrite Htrace, Htr1, <- app_assoc. done.
        -- constructor.
           ++ split; [done|]. exists f. split; [by left|done].
           ++ eapply Forall_impl; [exact Hrem|].
              intros p (? & f0 & ? & ?). split; [done|]. exists f0.
              split; [by right|done].
      * constructor; [|done]. cbn [action_for da_action da_error da_removed_path].
        destruct Hact as [(-> & -> & ->)|(-> & ? & ?)]; [left|by right].
        split; [done|]. split; [done|].
        eapply lookup_weaken_None; [|exact Hsub]. rewrite Hfiles1.
        apply lookup_delete_eq.
Qed.

Lemma process_duplicates_delete hash_groups self w self' w' :
  arg_mode (args self) = delete ->
  arg_apply (args self) = true ->
  arg_confirm (args self) = true ->
  process_duplicates hash_groups (self, w) = Ok (self', w') ->
  args self' = args self /\
  w_dirs w' = w_dirs w /\
  w_files w' ⊆ w_files w /\
  (forall p, ~ listed hash_groups p -> w_files w' !! p = w_files w !! p) /\
  (exists removed,
     w_trace w' = w_trace w ++ (SysRemove <$> removed) /\
     Forall (listed hash_groups) removed) /\
  exists new,
    reporter_actions self' = reporter_actions self ++ new /\
    Forall (fun a =>
              (da_action a = "delete" /\ da_error a = None /\
               w_files w' !! da_removed_path a = None) \/
              (da_action a = "dry-run" /\ is_Some (da_error a))) new.
Proof.
  intros Hmode Happly Hconfirm. revert self w Hmode Happly Hconfirm.
  induction hash_groups as [|[h files] groups IH];
    intros self w Hmode Happly Hconfirm.
  - intros [= <- <-]. split; [done|]. split; [done|]. split; [done|].
    split; [done|]. split; [exists []; by rewrite app_nil_r|].
    exists []. by rewrite app_nil_r.
  - cbn [process_duplicates snd].
    destruct (choose_file_to_keep w files) as [[k files']|] eqn:Hch; [|done].
    cbn [mbind result_bind].
    destruct (process_files_delete h k files' self w Hmode Happly Hconfirm)
      as (new1 & w1 & -> & Hdirs1 & Hsub1 & Hframe1 & (rem1 & Htr1 & Hrem1) & Hrec1).
    cbn [mbind result_bind]. intros Hrest.
    apply IH in Hrest as (Hargs & Hdirs & Hsub & Hframe & (rem2 & Htr2 & Hrem2)
                          & new2 & Hnew2 & Hrec2); [|done..].
    cbn [args reporter_actions] in *.
    pose proof (choose_file_to_keep_paths _ _ _ _ Hch) as Hpaths.
    split; [done|]. split; [congruence|]. split; [by etrans|].
    split; [|split].
    + intros p Hnot. rewrite Hframe, Hframe1; [done| |].
      * intros f Hf Hfp. exfalso. apply Hnot.
        destruct (paths_elem _ _ _ Hpaths Hf) as (f0 & Hf0 & Hp0).
        exists h, files, f0. split; [by left|]. split; [done|congruence].
      * intros (h0 & files0 & f0 & Hin & ?). apply Hnot.
        exists h0, files0, f0. split; [by right|done].
    + exists (rem1 ++ rem2). split.
      * rewrite Htr2, Htr1, fmap_app, app_assoc. done.
      * apply Forall_app. split.
        -- eapply Forall_impl; [exact Hrem1|]. intros p (_ & f & Hf & Hfp).
           destruct (paths_elem _ _ _ Hpaths Hf) as (f0 & Hf0 & Hp0).
           exists h, files, f0. split; [by left|]. split; [done|congruence].
        -- eapply Forall_impl; [exact Hrem2|].
           intros p (h0 & files0 & f0 & Hin & ?).
           exists h0, files0, f0. split; [by right|done].
    + exists (new1 ++ new2). split; [by rewrite Hnew2, app_assoc|].
      apply Forall_app. split; [|done].
      eapply Forall_impl; [exact Hrec1|].
      intros a [(? & ? & Hgone)|?]; [left|by right].
      split; [done|]. split; [done|]. by eapply lookup_weaken_None.
Qed.

(** X11.  Delete mode with the confirmation only ever removes files that are
    in a group.  The directories are as before, no file is created or
    changed, a path that belongs to no file of a group is untouched, every
    call issued is an [os.remove] of the path of a file in a group, and
    every record says either [delete], and then the file is gone, or
    [dry-run] with the error of the failed removal. *)
Theorem confirmed_delete_removes_listed_files_only hash_groups self w self' w' :
  arg_mode (args self) = delete ->
  arg_apply (args self) = true ->
  arg_confirm (args self) = true ->
  process_duplicates hash_groups (self, w) = Ok (self', w') ->
  w_dirs w' = w_dirs w /\
  w_files w' ⊆ w_files w /\
  (forall p, ~ listed hash_groups p -> w_files w' !! p = w_files w !! p) /\
  (exists removed,
     w_trace w' = w_trace w ++ (SysRemove <$> removed) /\
     Forall (listed hash_groups) removed) /\
  exists new,
    reporter_actions self' = reporter_actions self ++ new /\
    Forall (fun a =>
              (da_action a = "delete" /\ da_error a = None /\
               w_files w' !! da_removed_path a = None) \/
              (da_action a = "dry-run" /\ is_Some (da_error a))) new.
Proof.
  intros Hmode Happly Hconfirm Hrun.
  by destruct (process_duplicates_delete _ _ _ _ _ Hmode Happly Hconfirm Hrun)
    as (_ & ?).
Qed.



End DeleteMode.

Section EndToEnd.
Context `{Digest, Scheduler}.



End EndToEnd.

(** *** More about the quarantine *)

Section QuarantineMore.
Import pathlib.

Lemma os_mkdir_parents_spec d w :
  w_files (os_mkdir_parents d w).1 = w_files w /\
  w_locked (os_mkdir_parents d w).1 = w_locked w /\
  w_trace (os_mkdir_parents d w).1 = w_trace w ++ [SysMkdir (to_string d)].
Proof.
  unfold os_mkdir_parents. by repeat case_match.
Qed.



(** The destination of a path with a root: the components below the anchor,
    appended to the quarantine directory. *)
Lemma get_quarantine_path_rooted self original_path :
  unc_like original_path = false ->
  root (of_string original_path) <> EmptyString ->
  Forall (fun x => drive_like x = false) (tail (of_string original_path)) ->
  get_quarantine_path self original_path
  = mkPath (drv (quarantine_dir self)) (root (quarantine_dir self))
      (parts (quarantine_dir self) ++ tail (of_string original_path)).
Proof.
  intros Hunc Hroot Hdl.
  destruct (of_string_plain original_path Hunc) as (d & r & t & Horig & Hd & Hr & Ht).
  unfold get_quarantine_path. rewrite Horig in *. cbn [drv root] in *.
  destruct Hr as [->| ->]; [done|].
  change (str.truthy sep_s) with true in *. rewrite orb_true_r in *.
  unfold tail, anchored in *. cbn [drv root parts tl] in *.
  change (str.truthy sep_s) with true in *. rewrite orb_true_r in *.
  rewrite of_string_anchor, relative_to_rooted by done.
  apply joinpath_plain. rewrite Forall_forall in Ht, Hdl |- *.
  intros x Hx. split; auto.
Qed.

(** X18.  The quarantine keeps the directories of a file and drops its drive:
    for a path with a root, no UNC or device path, whose components do not
    look like a drive, the destination is the quarantine directory
    followed by the components of the path below its anchor. *)
Theorem quarantine_path_keeps_the_directories self original_path :
  unc_like original_path = false ->
  root (of_string original_path) <> EmptyString ->
  Forall (fun x => drive_like x = false) (tail (of_string original_path)) ->
  parts (get_quarantine_path self original_path)
  = parts (quarantine_dir self) ++ tail (of_string original_path) /\
  drv (get_quarantine_path self original_path) = drv (quarantine_dir self) /\
  root (get_quarantine_path self original_path) = root (quarantine_dir self).
Proof.
  intros Hunc Hroot Hdl. by rewrite get_quarantine_path_rooted.
Qed.

(** X19.  Two files with the same path on different drives are sent to the same
    place in the quarantine. *)
Theorem quarantine_path_forgets_the_drive self a b :
  unc_like a = false ->
  unc_like b = false ->
  root (of_string a) <> EmptyString ->
  root (of_string b) <> EmptyString ->
  Forall (fun x => drive_like x = false) (tail (of_string a)) ->
  tail (of_string a) = tail (of_string b) ->
  get_quarantine_path self a = get_quarantine_path self b.
Proof.
  intros Ha Hb Hra Hrb Hdl Htail.
  rewrite !get_quarantine_path_rooted by (by rewrite <- ?Htail).
  by rewrite Htail.
Qed.

End QuarantineMore.

Section QuarantineRun.
Import pathlib.

Lemma shutil_move_trace src dst w :
  w_trace (shutil_move src dst w).1 = w_trace w ++ [SysMove src dst].
Proof.
  unfold shutil_move. cbn [issue w_locked w_files w_dirs w_trace].
  destruct (decide (src ∈ w_locked w)); [reflexivity|].
  destruct (decide (dst ∈ w_locked w)); [reflexivity|].
  destruct (w_files w !! src) as [content|]; [|reflexivity].
  destruct (bool_decide (dst ∈ w_dirs w) && _); reflexivity.
Qed.

Lemma get_quarantine_path_dir qm qm' filepath :
  quarantine_dir qm' = quarantine_dir qm ->
  get_quarantine_path qm' filepath = get_quarantine_path qm filepath.
Proof. unfold get_quarantine_path. by intros ->. Qed.

Lemma move_to_quarantine_run qm filepath w :
  exists ok qm' w',
    move_to_quarantine qm filepath w = (ok, qm', w') /\
    quarantine_dir qm' = quarantine_dir qm /\
    moves qm' = moves qm ++
      (if ok then [(filepath, to_string (get_quarantine_path qm filepath))] else []) /\
    exists calls,
      w_trace w' = w_trace w ++ calls /\
      Forall (fun c => forall p, c <> SysRemove p) calls.
Proof.
  unfold move_to_quarantine.
  pose proof (os_mkdir_parents_spec (parent (get_quarantine_path qm filepath)) w)
    as (_ & _ & Htrace1).
  destruct (os_mkdir_parents _ w) as [w1 [e1|]]; cbn [fst] in Htrace1.
  { exists false, qm, w1. split; [done|]. split; [done|].
    split; [by rewrite app_nil_r|]. eexists. split; [exact Htrace1|].
    by repeat constructor. }
  pose proof (shutil_move_trace (to_string (of_string filepath))
                (to_string (get_quarantine_path qm filepath)) w1) as Htrace2.
  destruct (shutil_move _ _ w1) as [w2 [e2|]]; cbn [fst] in Htrace2.
  - exists false, qm, w2. split; [done|]. split; [done|].
    split; [by rewrite app_nil_r|]. eexists. split.
    + rewrite Htrace2, Htrace1, <- app_assoc. done.
    + by repeat constructor.
  - eexists true, _, w2. split; [done|]. split; [done|]. split; [done|].
    eexists. split.
    + rewrite Htrace2, Htrace1, <- app_assoc. done.
    + by repeat constructor.
Qed.

Lemma log_entries_dir qm qm' (l : list DuplicateAction) :
  quarantine_dir qm' = quarantine_dir qm ->
  (fun a => (da_removed_path a,
             to_string (get_quarantine_path qm' (da_removed_path a)))) <$> l
  = (fun a => (da_removed_path a,
               to_string (get_quarantine_path qm (da_removed_path a)))) <$> l.
Proof.
  intros Hdir. apply list_fmap_ext. intros _ a _.
  by rewrite (get_quarantine_path_dir qm qm').
Qed.

(** The records [move] of a run and the entries it adds to the log. *)
Lemma process_files_quarantine h k files self qm w :
  arg_mode (args self) = quarantine ->
  arg_apply (args self) = true ->
  quarantine_manager self = Some qm ->
  exists new qm' w' calls,
    process_files h k files (self, w) =
      Ok (mkDuplicateCleaner (args self) (reporter_actions self ++ new) (Some qm'), w') /\
    quarantine_dir qm' = quarantine_dir qm /\
    moves qm' = moves qm ++
      ((fun a => (da_removed_path a,
                  to_string (get_quarantine_path qm (da_removed_path a))))
         <$> List.filter (fun a => bool_decide (da_action a = "move")) new) /\
    Forall (fun a =>
              (da_action a = "move" /\ da_error a = None) \/
              (da_action a = "dry-run" /\ da_error a = Some "Move failed")) new /\
    w_trace w' = w_trace w ++ calls /\
    Forall (fun c => forall p, c <> SysRemove p) calls.
Proof.
  intros Hmode Happly. revert self qm w Hmode Happly.
  induction files as [|f files IH]; intros self qm w Hmode Happly Hqm.
  - exists [], qm, w, []. rewrite !app_nil_r. split; [|done].
    destruct self. cbn in *. by rewrite Hqm.
  - change (process_files h k (f :: files) (self, w))
      with (if decide (fi_path f = fi_path k)
            then process_files h k files (self, w)
            else process_file h k f (self, w) ≫= process_files h k files).
    case_decide as Hp; [by apply IH|].
    unfold process_file, add_action. rewrite Happly, Hmode, Hqm.
    destruct (move_to_quarantine_run qm (fi_path f) w)
      as (ok & qm1 & w1 & -> & Hdir1 & Hmoves1 & calls1 & Htrace1 & Hcalls1).
    destruct ok; cbn [mbind result_bind];
      match goal with
      | |- context [process_files h k files (?s, w1)] =>
          destruct (IH s qm1 w1 Hmode Happly eq_refl)
            as (new & qm' & w' & calls & -> & Hdir & Hmoves & Hrec & Htrace & Hcalls)
      end;
      eexists (_ :: new), qm', w', (calls1 ++ calls);
      cbn [args reporter_actions]; rewrite <- app_assoc;
      (split; [reflexivity|]); (split; [congruence|]);
      (split; [|split; [|split]]).
    + rewrite Hmoves, Hmoves1, (log_entries_dir qm qm1) by done.
      cbn [List.filter action_for da_action da_removed_path].
      rewrite bool_decide_eq_true_2 by reflexivity. rewrite <- app_assoc.
      reflexivity.
    + constructor; [by left|done].
    + rewrite Htrace, Htrace1, <- app_assoc. done.
    + by apply Forall_app.
    + rewrite Hmoves, Hmoves1, app_nil_r, (log_entries_dir qm qm1) by done.
      cbn [List.filter action_for da_action da_removed_path].
      rewrite bool_decide_eq_false_2 by discriminate. reflexivity.
    + constructor; [by right|done].
    + rewrite Htrace, Htrace1, <- app_assoc. done.
    + by apply Forall_app.
Qed.

(** X20.  A quarantine run keeps its log in step with its records.  The log
    grows by one entry for every record with the action [move], in the
    order of the records, pairing the path of the file with its destination
    under the quarantine directory; every other record carries the error
    [Move failed]; and the run never calls [os.remove]. *)
Theorem quarantine_run_logs_every_move hash_groups self qm w self' w' :
  arg_mode (args self) = quarantine ->
  arg_apply (args self) = true ->
  quarantine_manager self = Some qm ->
  process_duplicates hash_groups (self, w) = Ok (self', w') ->
  exists new qm' calls,
    reporter_actions self' = reporter_actions self ++ new /\
    quarantine_manager self' = Some qm' /\
    quarantine_dir qm' = quarantine_dir qm /\
    moves qm' = moves qm ++
      ((fun a => (da_removed_path a,
                  to_string (get_quarantine_path qm (da_removed_path a))))
         <$> List.filter (fun a => bool_decide (da_action a = "move")) new) /\
    Forall (fun a =>
              (da_action a = "move" /\ da_error a = None) \/
              (da_action a = "dry-run" /\ da_error a = Some "Move failed")) new /\
    w_trace w' = w_trace w ++ calls /\
    Forall (fun c => forall p, c <> SysRemove p) calls.
Proof.
  intros Hmode Happly. revert self qm w Hmode Happly.
  induction hash_groups as [|[h files] groups IH]; intros self qm w Hmode Happly Hqm.
  - intros [= <- <-]. exists [], qm, []. by rewrite !app_nil_r.
  - cbn [process_duplicates snd].
    destruct (choose_file_to_keep w files) as [[k files']|]; [|done].
    cbn [mbind result_bind].
    destruct (process_files_quarantine h k files' self qm w Hmode Happly Hqm)
      as (new1 & qm1 & w1 & calls1 & -> & Hdir1 & Hmoves1 & Hrec1 & Htrace1 & Hcalls1).
    cbn [mbind result_bind]. intros Hrest.
    apply (IH _ qm1) in Hrest
        as (new2 & qm' & calls2 & Hnew & Hqm' & Hdir & Hmoves & Hrec & Htrace & Hcalls);
      [|done..].
    cbn [reporter_actions] in Hnew.
    exists (new1 ++ new2), qm', (calls1 ++ calls2).
    split; [by rewrite Hnew, app_assoc|]. split; [done|]. split; [congruence|].
    split; [|split; [by apply Forall_app|split; [|by apply Forall_app]]].
    + rewrite Hmoves, Hmoves1, (log_entries_dir qm qm1) by done.
      by rewrite List.filter_app, fmap_app, <- app_assoc.
    + rewrite Htrace, Htrace1, <- app_assoc. done.
Qed.

End QuarantineRun.

Section QuarantineDirectory.
Import pathlib.

Lemma drive_like_sep s : drive_like (String sep s) = false.
Proof.
  destruct s as [|c0 s]; [done|]. cbn [drive_like].
  destruct c0 as [[] [] [] [] [] [] [] []]; done.
Qed.

Lemma splitroot_rooted c0 rest :
  c0 <> sep ->
  splitroot (String sep (String c0 rest)) = (EmptyString, sep_s, String c0 rest).
Proof.
  intros Hc0. unfold splitroot. cbn [str.take str.drop].
  assert (bool_decide (String c0 EmptyString = sep_s) = false) as Hch
    by (apply bool_decide_eq_false; by intros [= ->]).
  rewrite Hch. cbn [andb]. cbv beta iota zeta. rewrite Hch. cbn [andb].
  rewrite drive_like_sep.
  rewrite bool_decide_eq_true_2 by done.
  cbn [str.lstrip]. rewrite decide_True by done. cbn [str.lstrip].
  by rewrite decide_False.
Qed.

Lemma splitroot_drive_rooted c rest :
  is_drive_letter c = true ->
  (forall c0 rest', rest = String c0 rest' -> c0 <> sep) ->
  splitroot (String c (String ":" (String sep rest)))
  = (String c ":", sep_s, rest).
Proof.
  intros Hc Hrest. unfold splitroot. cbn [str.take str.drop].
  rewrite (bool_decide_eq_false_2 (":" = sep_s)) by done.
  cbn [andb]. cbv beta iota zeta.
  rewrite (bool_decide_eq_false_2 (":" = sep_s)) by done.
  cbn [andb drive_like]. rewrite Hc. cbv iota.
  rewrite bool_decide_eq_true_2 by done. cbn [str.lstrip].
  rewrite decide_True by done.
  destruct rest as [|c0 rest']; [done|]. cbn [str.lstrip].
  by rewrite decide_False by (by apply (Hrest c0 rest')).
Qed.

Lemma splitroot_drive_relative c c0 rest :
  is_drive_letter c = true -> c0 <> sep ->
  splitroot (String c (String ":" (String c0 rest)))
  = (String c ":", EmptyString, String c0 rest).
Proof.
  intros Hc Hc0. unfold splitroot. cbn [str.take str.drop].
  rewrite (bool_decide_eq_false_2 (":" = sep_s)) by done.
  cbn [andb]. cbv beta iota zeta.
  rewrite (bool_decide_eq_false_2 (":" = sep_s)) by done.
  cbn [andb drive_like]. rewrite Hc. cbv iota.
  by rewrite bool_decide_eq_false_2 by (by intros [= ->]).
Qed.

Lemma join_head t0 t :
  component t0 ->
  exists c0 rest, str.join sep_s (t0 :: t) = String c0 rest /\ c0 <> sep.
Proof.
  intros Ht0. destruct (component_head t0 Ht0) as (c0 & s & -> & Hc0 & _).
  destruct t as [|t1 t].
  - exists c0, s. by rewrite join_singleton.
  - rewrite join_cons, append_cons. by eexists _, _.
Qed.

Lemma join_no_altsep t :
  Forall component t -> str.contains altsep (str.join sep_s t) = false.
Proof.
  intros Ht. apply contains_join; [done|].
  eapply Forall_impl; [exact Ht|]. by intros x (_ & _ & _ & ?).
Qed.

(** Reading back the text of a path that has a drive letter or none, the
    root or none, and components of which none looks like a drive. *)
Lemma of_string_to_string d r t :
  drive_or_none d -> root_or_none r -> t <> [] -> Forall plain_component t ->
  of_string (to_string
               (mkPath d r (if str.truthy d || str.truthy r then (d +:+ r) :: t else t)))
  = mkPath d r (if str.truthy d || str.truthy r then (d +:+ r) :: t else t).
Proof.
  intros Hd Hr Hne Ht.
  assert (Forall component t) as Htc
    by (eapply Forall_impl; [exact Ht|]; by intros x [? _]).
  destruct t as [|t0 t]; [done|]. pose proof Htc as [Ht0 _]%Forall_cons.
  destruct (join_head t0 t Ht0) as (c0 & rest & Hj & Hc0).
  pose proof (join_no_altsep _ Htc) as Halt.
  pose proof (components_join (t0 :: t) Hne Htc) as Hcomp.
  destruct Hd as [->|(c & Hc & ->)]; destruct Hr as [->| ->].
  - change (str.truthy EmptyString) with false. cbn [orb].
    unfold to_string, anchored. cbn [drv root parts].
    change (str.truthy EmptyString) with false. cbn [orb].
    rewrite join_truthy by apply Ht0. by apply of_string_join_plain.
  - change (str.truthy EmptyString || str.truthy sep_s) with true. cbv iota.
    unfold to_string, anchored. cbn [drv root parts tl].
    change (str.truthy EmptyString || str.truthy sep_s) with true. cbv iota.
    rewrite append_nil. change (sep_s +:+ ?s) with (String sep s).
    unfold of_string, parse_parts. cbn [rev app parse_reversed].
    change (str.truthy (String sep ?s)) with true. cbv iota.
    rewrite replace_absent by (cbn [str.contains]; by rewrite Halt).
    rewrite Hj, splitroot_rooted by done. rewrite <- Hj, Hcomp.
    change (str.truthy EmptyString || str.truthy sep_s) with true. cbv iota.
    change (str.truthy EmptyString) with false. cbv iota. cbn [find_drive]. done.
  - change (str.truthy (String c ":") || str.truthy EmptyString) with true. cbv iota.
    unfold to_string, anchored. cbn [drv root parts tl].
    change (str.truthy (String c ":") || str.truthy EmptyString) with true. cbv iota.
    rewrite ?append_cons, ?append_nil, ?append_nil_r.
    unfold of_string, parse_parts. cbn [rev app parse_reversed].
    change (str.truthy (String c ?s)) with true. cbv iota.
    destruct (drive_letter_plain c Hc) as (Hcs & Hca & Hcc & _).
    rewrite replace_absent
      by (cbn [str.contains]; rewrite Halt;
          by rewrite (bool_decide_eq_false_2 (c = altsep))).
    rewrite Hj, splitroot_drive_relative by done. rewrite <- Hj, Hcomp.
    change (str.truthy (String c ":") || str.truthy EmptyString) with true. cbv iota.
    change (str.truthy (String c ":")) with true. cbv iota.
    by rewrite ?append_cons, ?append_nil, ?append_nil_r.
  - change (str.truthy (String c ":") || str.truthy sep_s) with true. cbv iota.
    unfold to_string, anchored. cbn [drv root parts tl].
    change (str.truthy (String c ":") || str.truthy sep_s) with true. cbv iota.
    change (sep_s +:+ ?s) with (String sep s).
    rewrite ?append_cons, ?append_nil, ?append_nil_r.
    unfold of_string, parse_parts. cbn [rev app parse_reversed].
    change (str.truthy (String c ?s)) with true. cbv iota.
    destruct (drive_letter_plain c Hc) as (Hcs & Hca & Hcc & _).
    rewrite replace_absent
      by (cbn [str.contains]; rewrite Halt;
          by rewrite (bool_decide_eq_false_2 (c = altsep))).
    rewrite splitroot_drive_rooted; [|done|].
    2:{ intros c1 rest1 Heq. rewrite Hj in Heq. by injection Heq as <- _. }
    rewrite Hcomp.
    change (str.truthy (String c ":") || str.truthy sep_s) with true. cbv iota.
    change (str.truthy (String c ":")) with true. cbv iota.
    by rewrite ?append_cons, ?append_nil, ?append_nil_r.
Qed.

(** X28.  The quarantine directory of a cleaner is a directory of the root that
    is scanned.  For a root that is no UNC or device path and has no
    component that looks like a drive, the manager that [__init__] makes
    in quarantine mode has the directory [_DUPLICATE_QUARANTINE] directly
    under the root: its parts are those of the root followed by that name,
    and the root is among its parents. *)
Theorem quarantine_directory_lies_under_the_root (a : Args) :
  arg_mode a = quarantine ->
  unc_like (arg_root a) = false ->
  Forall (fun x => drive_like x = false) (tail (of_string (arg_root a))) ->
  exists qm,
    quarantine_manager (DuplicateCleaner_init a) = Some qm /\
    moves qm = [] /\
    quarantine_dir qm = joinpath_str (of_string (arg_root a)) "_DUPLICATE_QUARANTINE" /\
    parts (quarantine_dir qm)
      = parts (of_string (arg_root a)) ++ ["_DUPLICATE_QUARANTINE"] /\
    in_parents (of_string (arg_root a)) (quarantine_dir qm) = true.
Proof.
  intros Hmode Hunc Hdl. unfold DuplicateCleaner_init. cbn [quarantine_manager].
  rewrite decide_True by done. eexists. split; [reflexivity|].
  unfold QuarantineManager_init. cbn [moves quarantine_dir]. split; [done|].
  destruct (of_string_plain (arg_root a) Hunc) as (d & r & t & Horig & Hd & Hr & Ht).
  assert (tail (of_string (arg_root a)) = t) as Htail.
  { rewrite Horig. unfold tail, anchored. cbn [drv root parts].
    by destruct (str.truthy d || str.truthy r). }
  rewrite Htail in Hdl.
  assert (joinpath_str (of_string (arg_root a)) "_DUPLICATE_QUARANTINE"
          = mkPath d r (if str.truthy d || str.truthy r
                        then (d +:+ r) :: (t ++ ["_DUPLICATE_QUARANTINE"])
                        else t ++ ["_DUPLICATE_QUARANTINE"])) as Hq.
  { rewrite Horig. unfold joinpath_str.
    change (parse_parts ["_DUPLICATE_QUARANTINE"])
      with (mkPath EmptyString EmptyString ["_DUPLICATE_QUARANTINE"]).
    unfold join_parsed_parts. cbn [drv root parts].
    change (str.truthy EmptyString) with false. cbv iota.
    by destruct (str.truthy d || str.truthy r). }
  assert (of_string (to_string (joinpath_str (of_string (arg_root a))
                                  "_DUPLICATE_QUARANTINE"))
          = joinpath_str (of_string (arg_root a)) "_DUPLICATE_QUARANTINE") as Hround.
  { rewrite Hq. apply of_string_to_string; [done|done|by destruct t|].
    apply Forall_app. split.
    - rewrite Forall_forall in Ht, Hdl |- *. intros x Hx. split; auto.
    - by repeat constructor. }
  rewrite Hround. split; [done|].
  assert (parts (joinpath_str (of_string (arg_root a)) "_DUPLICATE_QUARANTINE")
          = parts (of_string (arg_root a)) ++ ["_DUPLICATE_QUARANTINE"]) as Hparts.
  { rewrite Hq, Horig. cbn [parts]. by destruct (str.truthy d || str.truthy r). }
  split; [done|].
  pose proof (inside_parents (of_string (arg_root a)) ["_DUPLICATE_QUARANTINE"]
                (parse_parts_anchor_part [arg_root a]) ltac:(done)) as [Hin _].
  cbv zeta in Hin.
  assert (joinpath_str (of_string (arg_root a)) "_DUPLICATE_QUARANTINE"
          = mkPath (drv (of_string (arg_root a))) (root (of_string (arg_root a)))
              (parts (of_string (arg_root a)) ++ ["_DUPLICATE_QUARANTINE"])) as ->.
  { rewrite Hq, Horig. cbn [drv root parts].
    by destruct (str.truthy d || str.truthy r). }
  exact Hin.
Qed.

End QuarantineDirectory.

(** *** More about the scanner *)

Section ScanMore.
Context `{Resolver, Glob}.
Implicit Types (acc : list (Z * list FileInfo) * Z).

(** An invariant of the accumulator that every recorded file keeps is kept
    by the whole walk. *)
Section Invariant.
Variable self : Scanner.
Variable P : list (Z * list FileInfo) * Z -> Prop.
Hypothesis P_append : forall k v d n, P (d, n) -> P (group_append k v d, n + 1).

Lemma scan_file_preserves root_path entry acc acc' :
  P acc -> scan_file self root_path entry acc = Ok acc' -> P acc'.
Proof.
  unfold scan_file. destruct entry as [filename st], acc as [groups n].
  intros HP. destruct (should_skip_path self _) as [[]|]; cbn [mbind result_bind];
    [by intros [= <-]| |done].
  destruct st as [stat|]; [|by intros [= <-]].
  destruct (_ || _); [by intros [= <-]|]. intros [= <-]. by apply P_append.
Qed.

Lemma scan_files_preserves root_path files acc acc' :
  P acc -> scan_files self root_path files acc = Ok acc' -> P acc'.
Proof.
  revert acc. induction files as [|entry files IH]; intros acc HP; cbn [scan_files].
  - by intros [= <-].
  - destruct (scan_file self root_path entry acc) as [acc1|] eqn:Hfile;
      cbn [mbind result_bind]; [|done].
    apply IH. by eapply scan_file_preserves.
Qed.

Lemma walk_preserves t :
  forall root_path acc acc',
    P acc -> walk self root_path t acc = Ok acc' -> P acc'.
Proof.
  induction t using DirTree_Forest_ind with
    (P0 := fun ds => forall root_path skips acc acc',
             P acc -> walk_dirs self root_path ds skips acc = Ok acc' -> P acc').
  - intros root_path acc acc' HP. cbn [walk].
    destruct (mapM _ _) as [skips|]; cbn [mbind result_bind]; [|done].
    destruct (scan_files self root_path files acc) as [acc1|] eqn:Hfiles;
      cbn [mbind result_bind]; [|done].
    apply IHt. by eapply scan_files_preserves.
  - intros root_path skips acc acc' HP. cbn [walk_dirs]. by intros [= <-].
  - intros root_path skips acc acc' HP. cbn [walk_dirs].
    destruct skips as [|skip skips]; [by intros [= <-]|].
    destruct skip; [by apply IHt0|].
    destruct (walk self _ t acc) as [acc1|] eqn:Hsub; cbn [mbind result_bind]; [|done].
    apply IHt0. by eapply IHt.
  - intros root_path skips acc acc' HP. cbn [walk_dirs].
    destruct skips as [|skip skips]; [by intros [= <-]|]. by apply IHt.
Qed.

Lemma walk_dirs_preserves ds :
  forall root_path skips acc acc',
    P acc -> walk_dirs self root_path ds skips acc = Ok acc' -> P acc'.
Proof.
  induction ds as [|name sub rest IH|name rest IH];
    intros root_path skips acc acc' HP; cbn [walk_dirs].
  - by intros [= <-].
  - destruct skips as [|skip skips]; [by intros [= <-]|].
    destruct skip; [by apply IH|].
    destruct (walk self _ sub acc) as [acc1|] eqn:Hsub; cbn [mbind result_bind]; [|done].
    apply IH. by eapply walk_preserves.
  - destruct skips as [|skip skips]; [by intros [= <-]|]. by apply IH.
Qed.

End Invariant.

Lemma group_append_total {K V} `{EqDecision K} (k : K) (v : V) d :
  length (group_append k v d ≫= snd) = S (length (d ≫= snd)).
Proof.
  induction d as [|[k' vs] d IH]; cbn [group_append]; [done|].
  case_decide.
  - change (length ((vs ++ [v]) ++ (d ≫= snd)) = S (length (vs ++ (d ≫= snd)))).
    rewrite !length_app. simpl. lia.
  - change (length (vs ++ (group_append k v d ≫= snd))
            = S (length (vs ++ (d ≫= snd)))).
    rewrite !length_app, IH. lia.
Qed.

Lemma filter_total_le {K V} (test : K * list V -> bool) (d : list (K * list V)) :
  (length (List.filter test d ≫= snd) <= length (d ≫= snd))%nat.
Proof.
  induction d as [|[k vs] d IH]; [done|]. cbn [List.filter].
  change (length (((k, vs) :: d) ≫= snd)) with (length (vs ++ (d ≫= snd))).
  rewrite length_app. destruct (test (k, vs)); [|lia].
  change (length (((k, vs) :: List.filter test d) ≫= snd))
    with (length (vs ++ (List.filter test d ≫= snd))).
  rewrite length_app. lia.
Qed.

(** X21.  The counter of the scanner counts the files that are recorded, the
    ones whose size turns out to be unique included: a scan advances it by
    at least the number of files it returns, and leaves the configuration
    of the scanner as it was. *)
Theorem scan_counts_every_recorded_file (self : Scanner) top buckets self' :
  scan self top = Ok (buckets, self') ->
  files_scanned self + Z.of_nat (length (buckets ≫= snd)) <= files_scanned self' /\
  sc_root self' = sc_root self /\
  exclude_paths self' = exclude_paths self /\
  exclude_globs self' = exclude_globs self /\
  skip_extensions self' = skip_extensions self /\
  min_size self' = min_size self /\
  max_size self' = max_size self.
Proof.
  unfold scan. intros Hscan.
  assert (exists groups n,
            files_scanned self + Z.of_nat (length (groups ≫= snd)) = n /\
            buckets = List.filter (fun '(size, files) => (1 <? length files)%nat) groups /\
            self' = mkScanner (sc_root self) (exclude_paths self) (exclude_globs self)
                      (skip_extensions self) (min_size self) (max_size self) n)
    as (groups & n & Hn & -> & ->).
  { destruct top as [t|].
    - destruct (walk self (sc_root self) t ([], files_scanned self))
        as [[groups n]|] eqn:Hwalk; cbn [mbind result_bind] in Hscan; [|done].
      exists groups, n. split; [|by simplify_eq].
      apply (walk_preserves self
               (fun acc => files_scanned self + Z.of_nat (length (acc.1 ≫= snd)) = acc.2)
               ) in Hwalk; [done| |simpl; lia].
      intros k v d m Hm. cbn [fst snd] in *. rewrite group_append_total. lia.
    - cbn [mbind result_bind] in Hscan. exists [], (files_scanned self).
      split; [simpl; lia|by simplify_eq]. }
  cbn [files_scanned sc_root exclude_paths exclude_globs skip_extensions
         min_size max_size].
  split; [|done].
  pose proof (filter_total_le (fun '(size, files) => (1 <? length files)%nat) groups).
  lia.
Qed.

(** X22.  The extensions to skip are compared without regard to case: a scanner
    made by [__init__] never lets through a path whose suffix is, up to
    case, one of the extensions it was given. *)
Theorem skip_extensions_ignore_case root excluded globs extensions lo hi
    (self : Scanner) (path : pathlib.Path) (ext : string) :
  Scanner_init root excluded globs extensions lo hi = Ok self ->
  ext ∈ extensions ->
  str.lower (pathlib.suffix path) = str.lower ext ->
  should_skip_path self path <> Ok false.
Proof.
  unfold Scanner_init. intros Hinit Hext Hsuffix Hskip.
  destruct (mapM _ excluded) as [ex|]; cbn [mbind result_bind] in Hinit; [|done].
  injection Hinit as <-.
  apply should_skip_path_false in Hskip as (_ & _ & _ & Hnot).
  apply Hnot. cbn [skip_extensions]. rewrite Hsuffix.
  by apply list_elem_of_fmap_2.
Qed.

End ScanMore.

Section WalkMore.
Context `{Resolver, Glob}.
Implicit Types (acc : list (Z * list FileInfo) * Z).

Lemma dir_names_app ds es :
  dir_names (forest_app ds es) = dir_names ds ++ dir_names es.
Proof.
  induction ds as [|name sub rest IH|name rest IH]; cbn [forest_app dir_names app];
    by rewrite ?IH.
Qed.

Lemma mapM_result_app {A B} (f : A -> result B) l1 x l2 ys :
  mapM f (l1 ++ x :: l2) = Ok ys ->
  exists s1 b s2,
    ys = s1 ++ b :: s2 /\ length s1 = length l1 /\ f x = Ok b.
Proof.
  revert ys. induction l1 as [|a l1 IH]; intros ys; cbn [app mapM].
  - destruct (f x) as [b|]; cbn [mbind result_bind]; [|done].
    destruct (mapM f l2) as [s2|]; cbn [mbind result_bind]; [|done].
    intros [= <-]. by exists [], b, s2.
  - destruct (f a) as [c|]; cbn [mbind result_bind]; [|done].
    destruct (mapM f (l1 ++ x :: l2)) as [ys'|]; cbn [mbind result_bind]; [|done].
    intros [= <-]. destruct (IH ys' eq_refl) as (s1 & b & s2 & -> & Hlen & Hb).
    exists (c :: s1), b, s2. split; [done|]. split; [simpl; lia|done].
Qed.

Lemma walk_dirs_app self root_path before rest s1 s2 acc :
  length s1 = length (dir_names before) ->
  walk_dirs self root_path (forest_app before rest) (s1 ++ s2) acc
  = walk_dirs self root_path before s1 acc ≫= walk_dirs self root_path rest s2.
Proof.
  revert s1 acc.
  induction before as [|name sub before IH|name before IH]; intros s1 acc Hlen;
    cbn [dir_names length] in Hlen.
  - destruct s1; [|done]. cbn [forest_app app walk_dirs mbind result_bind].
    by destruct rest.
  - destruct s1 as [|skip s1]; [done|]. cbn [forest_app app walk_dirs].
    injection Hlen as Hlen.
    destruct skip; [by apply IH|].
    destruct (walk self _ sub acc) as [acc1|]; cbn [mbind result_bind]; [|done].
    by apply IH.
  - destruct s1 as [|skip s1]; [done|]. cbn [forest_app app walk_dirs].
    injection Hlen as Hlen. by apply IH.
Qed.

(** X23.  What lies in a directory that is to be skipped has no influence on the
    walk: the directory is not entered, wherever it stands among the
    entries of its parent. *)
Theorem skipped_directory_is_not_entered self root_path files before name
    sub sub' after acc :
  should_skip_path self (pathlib.joinpath_str root_path name) = Ok true ->
  walk self root_path (Dir files (forest_app before (Enter name sub after))) acc
  = walk self root_path (Dir files (forest_app before (Enter name sub' after))) acc.
Proof.
  intros Hskip. cbn [walk]. rewrite !dir_names_app. cbn [dir_names].
  destruct (mapM _ (dir_names before ++ name :: dir_names after))
    as [skips|] eqn:Hskips; cbn [mbind result_bind]; [|done].
  destruct (mapM_result_app _ _ _ _ _ Hskips) as (s1 & b & s2 & -> & Hlen & Hb).
  rewrite Hskip in Hb. injection Hb as <-.
  destruct (scan_files self root_path files acc) as [acc1|];
    cbn [mbind result_bind]; [|done].
  rewrite !walk_dirs_app by done.
  by destruct (walk_dirs self root_path before s1 acc1).
Qed.

Lemma group_append_keeps {K V} `{EqDecision K} (k k' : K) (v x : V) g d :
  (k', g) ∈ d -> x ∈ g -> exists g', (k', g') ∈ group_append k v d /\ x ∈ g'.
Proof.
  induction d as [|[k0 vs] d IH]; [by intros ?%elem_of_nil|].
  cbn [group_append]. intros [[= -> ->]|Hin]%elem_of_cons Hx.
  - case_decide.
    + exists (vs ++ [v]). split; [by left|]. apply elem_of_app. by left.
    + exists vs. split; [by left|done].
  - case_decide.
    + exists g. split; [by right|done].
    + destruct (IH Hin Hx) as (g' & ? & ?). exists g'. split; [by right|done].
Qed.

Lemma group_append_new {K V} `{EqDecision K} (k : K) (v : V) d :
  exists g, (k, g) ∈ group_append k v d /\ v ∈ g.
Proof.
  induction d as [|[k0 vs] d IH]; cbn [group_append].
  - exists [v]. split; by left.
  - case_decide as Hk.
    + subst k0. exists (vs ++ [v]). split; [by left|].
      apply elem_of_app. right. by left.
    + destruct IH as (g & ? & ?). exists g. split; [by right|done].
Qed.

Lemma recorded_append x k v d n :
  recorded (d, n).1 x -> recorded (group_append k v d, n + 1).1 x.
Proof.
  intros (g & Hg & Hx). by apply group_append_keeps with g.
Qed.

Lemma scan_files_records self root_path files filename stat acc acc' :
  scan_files self root_path files acc = Ok acc' ->
  (filename, Some stat) ∈ files ->
  should_skip_path self (pathlib.joinpath_str root_path filename) = Ok false ->
  min_size self <= st_size stat <= max_size self ->
  recorded acc'.1 (file_info_of (pathlib.joinpath_str root_path filename) stat).
Proof.
  intros Hscan Hin Hskip Hsize. revert acc Hscan.
  induction files as [|entry files IH]; intros acc; [by apply elem_of_nil in Hin|].
  cbn [scan_files].
  destruct (scan_file self root_path entry acc) as [acc1|] eqn:Hfile;
    cbn [mbind result_bind]; [|done].
  apply elem_of_cons in Hin as [<-|Hin]; [|by apply IH].
  intros Hrest.
  eapply (scan_files_preserves self
            (fun acc => recorded acc.1
                          (file_info_of (pathlib.joinpath_str root_path filename) stat)));
    [intros; by apply recorded_append| |exact Hrest].
  unfold scan_file in Hfile. destruct acc as [groups n].
  rewrite Hskip in Hfile. cbn [mbind result_bind] in Hfile.
  assert ((st_size stat <? min_size self) || (max_size self <? st_size stat) = false)
    as Hrange.
  { apply orb_false_iff. split; apply Z.ltb_ge; lia. }
  rewrite Hrange in Hfile. injection Hfile as <-.
  apply (group_append_new (st_size stat)).
Qed.

Lemma walk_records self root_path t dir fs filename stat :
  lists self root_path t dir fs ->
  (filename, Some stat) ∈ fs ->
  should_skip_path self (pathlib.joinpath_str dir filename) = Ok false ->
  min_size self <= st_size stat <= max_size self ->
  forall acc acc',
    walk self root_path t acc = Ok acc' ->
    recorded acc'.1 (file_info_of (pathlib.joinpath_str dir filename) stat).
Proof.
  intros Hlists Hin Hskip Hsize.
  set (x := file_info_of (pathlib.joinpath_str dir filename) stat).
  assert (forall k v d n,
            recorded (d, n).1 x -> recorded (group_append k v d, n + 1).1 x)
    as Hkeep by (intros; by apply recorded_append).
  induction Hlists as [root_path files dirs
                      |root_path files before name sub after dir fs Henter _ IH];
    intros acc acc'; cbn [walk].
  - destruct (mapM _ _) as [skips|]; cbn [mbind result_bind]; [|done].
    destruct (scan_files self root_path files acc) as [acc1|] eqn:Hfiles;
      cbn [mbind result_bind]; [|done].
    apply (walk_dirs_preserves self (fun acc => recorded acc.1 x) Hkeep).
    by eapply scan_files_records.
  - rewrite dir_names_app. cbn [dir_names].
    destruct (mapM _ _) as [skips|] eqn:Hskips; cbn [mbind result_bind]; [|done].
    destruct (mapM_result_app _ _ _ _ _ Hskips) as (s1 & b & s2 & -> & Hlen & Hb).
    rewrite Henter in Hb. injection Hb as <-.
    destruct (scan_files self root_path files acc) as [acc1|];
      cbn [mbind result_bind]; [|done].
    rewrite walk_dirs_app by done.
    destruct (walk_dirs self root_path before s1 acc1) as [acc2|];
      cbn [mbind result_bind walk_dirs]; [|done].
    destruct (walk self _ sub acc2) as [acc3|] eqn:Hsub;
      cbn [mbind result_bind]; [|done].
    apply (walk_dirs_preserves self (fun acc => recorded acc.1 x) Hkeep).
    by eapply IH.
Qed.

Lemma NoDup_keys_agree {K V} (d : list (K * V)) k a b :
  NoDup d.*1 -> (k, a) ∈ d -> (k, b) ∈ d -> a = b.
Proof.
  induction d as [|[k0 v0] d IH]; [by intros _ ?%elem_of_nil|].
  cbn [fmap list_fmap fst]. intros [Hk Hnd]%NoDup_cons.
  intros [Ha|Ha]%elem_of_cons [Hb|Hb]%elem_of_cons; simplify_eq.
  - done.
  - exfalso. apply Hk. apply list_elem_of_fmap. by exists (k0, b).
  - exfalso. apply Hk. apply list_elem_of_fmap. by exists (k0, a).
  - by apply IH.
Qed.

(** X24.  The scan misses no pair of candidates.  Two files that the walk comes
    to, that [should_skip_path] does not reject, whose [stat] succeeds and
    gives the same size within the bounds, and whose records differ, are
    returned together in the bucket of their size. *)
Theorem scan_finds_files_of_equal_size self top buckets self'
    dir1 fs1 name1 stat1 dir2 fs2 name2 stat2 :
  scan self (Some top) = Ok (buckets, self') ->
  lists self (sc_root self) top dir1 fs1 ->
  (name1, Some stat1) ∈ fs1 ->
  lists self (sc_root self) top dir2 fs2 ->
  (name2, Some stat2) ∈ fs2 ->
  should_skip_path self (pathlib.joinpath_str dir1 name1) = Ok false ->
  should_skip_path self (pathlib.joinpath_str dir2 name2) = Ok false ->
  min_size self <= st_size stat1 <= max_size self ->
  st_size stat2 = st_size stat1 ->
  file_info_of (pathlib.joinpath_str dir1 name1) stat1
    <> file_info_of (pathlib.joinpath_str dir2 name2) stat2 ->
  exists files,
    (st_size stat1, files) ∈ buckets /\
    file_info_of (pathlib.joinpath_str dir1 name1) stat1 ∈ files /\
    file_info_of (pathlib.joinpath_str dir2 name2) stat2 ∈ files.
Proof.
  unfold scan. intros Hscan Hl1 Hin1 Hl2 Hin2 Hskip1 Hskip2 Hsize Hsame Hne.
  destruct (walk self (sc_root self) top ([], files_scanned self))
    as [[groups n]|] eqn:Hwalk; cbn [mbind result_bind] in Hscan; [|done].
  injection Hscan as <- _.
  pose proof (walk_records _ _ _ _ _ _ _ Hl1 Hin1 Hskip1 Hsize _ _ Hwalk)
    as (g1 & Hg1 & Hx1).
  pose proof (walk_records _ _ _ _ _ _ _ Hl2 Hin2 Hskip2
                ltac:(rewrite Hsame; exact Hsize) _ _ Hwalk)
    as (g2 & Hg2 & Hx2).
  cbn [fst file_info_of fi_size] in Hg1, Hg2. rewrite Hsame in Hg2.
  assert (NoDup groups.*1) as Hnd.
  { apply (walk_preserves self (fun acc => NoDup acc.1.*1)) in Hwalk; [done| |constructor].
    intros k v d m. apply group_append_NoDup. }
  pose proof (NoDup_keys_agree _ _ _ _ Hnd Hg1 Hg2) as <-.
  exists g1. split; [|done].
  apply list_elem_of_In, filter_In. split; [by apply list_elem_of_In|].
  apply Nat.ltb_lt. pose proof (two_members_length _ _ _ Hx1 Hx2 Hne). lia.
Qed.

End WalkMore.

Section ScanErrors.
Context `{Resolver, Glob}.

Lemma should_skip_path_raises (self : Scanner) path e :
  should_skip_path self path = Raise e ->
  e = ValueError /\
  exists pattern, pattern ∈ exclude_globs self /\
    pattern_parts (str.lower pattern) = [].
Proof.
  unfold should_skip_path. destruct (resolve path) as [resolved|]; [|done].
  destruct (existsb _ (exclude_paths self)); [done|].
  destruct (glob_loop _ (exclude_globs self)) as [m|e'] eqn:Hloop;
    cbn [mbind result_bind].
  - by repeat case_match.
  - intros [= ->]. by apply glob_loop_raises in Hloop.
Qed.

(** X26.  The exclusions are looked at before the globs.  A path that does not
    resolve, or that resolves to an excluded directory or below one, is
    skipped whatever the exclusion globs are, an empty one included: the
    [ValueError] of an empty glob can only come up for a path that
    resolves outside every excluded directory. *)
Theorem excluded_paths_are_skipped_before_the_globs (self : Scanner) path :
  (resolve path = None -> should_skip_path self path = Ok true) /\
  (forall resolved excluded,
     resolve path = Some resolved ->
     excluded ∈ exclude_paths self ->
     pathlib.eqb resolved excluded = true \/
       pathlib.in_parents excluded resolved = true ->
     should_skip_path self path = Ok true) /\
  (forall e, should_skip_path self path = Raise e ->
     exists resolved,
       resolve path = Some resolved /\
       forall excluded, excluded ∈ exclude_paths self ->
         pathlib.eqb resolved excluded = false /\
         pathlib.in_parents excluded resolved = false).
Proof.
  unfold should_skip_path. split; [by intros ->|]. split.
  - intros resolved excluded -> Hin Hor.
    assert (existsb (fun excluded => pathlib.eqb resolved excluded
                                     || pathlib.in_parents excluded resolved)
              (exclude_paths self) = true) as ->; [|done].
    apply existsb_exists. exists excluded. split; [by apply list_elem_of_In|].
    by apply orb_true_iff.
  - intros e. destruct (resolve path) as [resolved|]; [|done].
    destruct (existsb _ (exclude_paths self)) eqn:Hex; [done|]. intros _.
    exists resolved. split; [done|]. intros excluded Hin.
    apply orb_false_iff. rewrite <- not_true_iff_false in Hex |- *.
    intros Hor. apply Hex, existsb_exists. exists excluded.
    split; [by apply list_elem_of_In|done].
Qed.

Lemma scan_files_raises self root_path files acc e :
  scan_files self root_path files acc = Raise e ->
  e = ValueError /\
  exists pattern, pattern ∈ exclude_globs self /\
    pattern_parts (str.lower pattern) = [].
Proof.
  revert acc. induction files as [|[filename st] files IH]; intros acc;
    cbn [scan_files]; [done|].
  destruct (scan_file self root_path (filename, st) acc) as [acc1|e1] eqn:Hfile;
    cbn [mbind result_bind]; [apply IH|].
  intros [= ->]. unfold scan_file in Hfile. destruct acc as [groups n].
  destruct (should_skip_path self _) as [b|e2] eqn:Hskip;
    cbn [mbind result_bind] in Hfile.
  - by repeat case_match.
  - injection Hfile as ->. by apply should_skip_path_raises in Hskip.
Qed.

Lemma prune_raises (self : Scanner) root_path names e :
  mapM (fun d => should_skip_path self (pathlib.joinpath_str root_path d)) names
  = Raise e ->
  e = ValueError /\
  exists pattern, pattern ∈ exclude_globs self /\
    pattern_parts (str.lower pattern) = [].
Proof.
  induction names as [|d names IH]; cbn [mapM]; [done|].
  destruct (should_skip_path self _) as [b|e1] eqn:Hskip; cbn [mbind result_bind].
  - destruct (mapM _ names) as [skips|e2]; cbn [mbind result_bind]; [done|].
    intros [= ->]. by apply IH.
  - intros [= ->]. by apply should_skip_path_raises in Hskip.
Qed.

Lemma walk_raises self t :
  forall root_path acc e,
    walk self root_path t acc = Raise e ->
    e = ValueError /\
    exists pattern, pattern ∈ exclude_globs self /\
      pattern_parts (str.lower pattern) = [].
Proof.
  induction t using DirTree_Forest_ind with
    (P0 := fun ds => forall root_path skips acc e,
             walk_dirs self root_path ds skips acc = Raise e ->
             e = ValueError /\
             exists pattern, pattern ∈ exclude_globs self /\
               pattern_parts (str.lower pattern) = []).
  - intros root_path acc e. cbn [walk].
    destruct (mapM _ _) as [skips|e1] eqn:Hprune; cbn [mbind result_bind].
    + destruct (scan_files self root_path files acc) as [acc1|e2] eqn:Hfiles;
        cbn [mbind result_bind]; [apply IHt|].
      intros [= ->]. by apply scan_files_raises in Hfiles.
    + intros [= ->]. by apply prune_raises in Hprune.
  - intros root_path skips acc e. by cbn [walk_dirs].
  - intros root_path skips acc e. cbn [walk_dirs].
    destruct skips as [|skip skips]; [done|].
    destruct skip; [apply IHt0|].
    destruct (walk self _ t acc) as [acc1|e1] eqn:Hsub; cbn [mbind result_bind];
      [apply IHt0|].
    intros [= ->]. by apply IHt in Hsub.
  - intros root_path skips acc e. cbn [walk_dirs].
    destruct skips as [|skip skips]; [done|]. apply IHt.
Qed.

(** X27.  A scan can only fail in one way: with the [ValueError] that
    [Path.match] raises for an exclusion glob without a component, such as
    the empty string. *)
Theorem scan_fails_only_on_an_empty_glob (self : Scanner) top e :
  scan self top = Raise e ->
  e = ValueError /\
  exists pattern, pattern ∈ exclude_globs self /\
    pattern_parts (str.lower pattern) = [].
Proof.
  unfold scan. destruct top as [t|]; [|done].
  destruct (walk self (sc_root self) t ([], files_scanned self))
    as [[groups n]|e1] eqn:Hwalk; cbn [mbind result_bind]; [done|].
  intros [= ->]. by apply walk_raises in Hwalk.
Qed.

End ScanErrors.

(** *** The summary *)

Section Summary.

Lemma count_up_keys k d :
  (count_up k d).*1 = if decide (k ∈ d.*1) then d.*1 else d.*1 ++ [k].
Proof.
  induction d as [|[k' n] d IH]; cbn [count_up fmap list_fmap fst].
  - by rewrite decide_False by apply not_elem_of_nil.
  - destruct (decide (k' = k)) as [->|Hne]; cbn [fmap list_fmap fst].
    + by rewrite decide_True by left.
    + change (list_fmap _ _ fst ?l) with (l.*1). rewrite IH.
      destruct (decide (k ∈ d.*1)).
      * by rewrite decide_True by (by right).
      * rewrite decide_False; [done|]. by intros [?|?]%elem_of_cons.
Qed.

Lemma count_up_lookup k k' d :
  NoDup d.*1 ->
  forall n, (k', n) ∈ count_up k d <->
    if decide (k' = k)
    then (exists m, (k, m) ∈ d /\ n = m + 1) \/ ((k ∉ d.*1) /\ n = 1)
    else (k', n) ∈ d.
Proof.
  induction d as [|[k0 m0] d IH]; intros Hnd n; cbn [count_up].
  - rewrite list_elem_of_singleton. case_decide as Hk.
    + subst k'. split.
      * intros [= ->]. right. split; [apply not_elem_of_nil|done].
      * intros [(m & ?%elem_of_nil & _)|[_ ->]]; done.
    + split; [by intros [= ? _]|by intros ?%elem_of_nil].
  - cbn [fmap list_fmap fst] in Hnd. apply NoDup_cons in Hnd as [Hk0 Hnd].
    destruct (decide (k0 = k)) as [->|Hne0].
    + rewrite elem_of_cons. case_decide as Hk.
      * subst k'. split.
        -- intros [[= ->]|Hin].
           ++ left. exists m0. split; [by left|done].
           ++ exfalso. apply Hk0. apply list_elem_of_fmap. by exists (k, n).
        -- intros [(m & [[= ->]|Hin]%elem_of_cons & ->)|[Hnot _]].
           ++ by left.
           ++ exfalso. apply Hk0. apply list_elem_of_fmap. by exists (k, m).
           ++ exfalso. apply Hnot. by left.
      * rewrite elem_of_cons. split; (intros [[= ??]|?]; [done|by right]).
    + rewrite elem_of_cons, IH by done. case_decide as Hk.
      * subst k'. split.
        -- intros [[= ??]|[(m & Hin & ->)|[Hnot ->]]]; [done| |].
           ++ left. exists m. split; [by right|done].
           ++ right. split; [|done]. intros [?|?]%elem_of_cons; [done|].
              by apply Hnot.
        -- intros [(m & [[= ??]|Hin]%elem_of_cons & ->)|[Hnot ->]]; [done| |].
           ++ right. left. by exists m.
           ++ right. right. split; [|done]. intros ?. apply Hnot. by right.
      * rewrite elem_of_cons. done.
Qed.

Lemma count_up_sum k d :
  foldr Z.add 0 (count_up k d).*2 = foldr Z.add 0 d.*2 + 1.
Proof.
  induction d as [|[k' n] d IH]; cbn [count_up]; [done|].
  case_decide; cbn [fmap list_fmap snd foldr]; [lia|].
  change (list_fmap _ _ snd ?l) with (l.*2). rewrite IH. lia.
Qed.

(** X25.  The breakdown by action in the summary adds up.  Every action that
    occurs has one line, with the number of records that carry it, and the
    numbers of the lines sum to the total of the summary; the number of
    errors is at most that total. *)
Theorem summary_breakdown_adds_up (actions : list DuplicateAction) :
  NoDup (by_action actions).*1 /\
  (forall k n, (k, n) ∈ by_action actions <->
     0 < n /\
     n = Z.of_nat (length (List.filter (fun a => bool_decide (da_action a = k))
                             actions))) /\
  foldr Z.add 0 (by_action actions).*2 = summary_total actions /\
  0 <= summary_errors actions <= summary_total actions.
Proof.
  unfold by_action, summary_total, summary_errors.
  assert (forall l l0 d,
            (NoDup d.*1 /\
             (forall k n, (k, n) ∈ d <->
                0 < n /\
                n = Z.of_nat (length (List.filter
                                        (fun a => bool_decide (da_action a = k)) l0))) /\
             foldr Z.add 0 d.*2 = Z.of_nat (length l0)) ->
            let d' := foldl (fun d a => count_up (da_action a) d) d l in
            NoDup d'.*1 /\
            (forall k n, (k, n) ∈ d' <->
               0 < n /\
               n = Z.of_nat (length (List.filter
                                       (fun a => bool_decide (da_action a = k))
                                       (l0 ++ l)))) /\
            foldr Z.add 0 d'.*2 = Z.of_nat (length (l0 ++ l))) as Hgen.
  { induction l as [|a l IH]; intros l0 d (Hnd & Hcount & Hsum); cbn [foldl].
    - by rewrite app_nil_r.
    - rewrite cons_middle, app_assoc. apply IH. split; [|split].
      + rewrite count_up_keys. case_decide; [done|].
        apply NoDup_app. split; [done|]. split; [|apply NoDup_singleton].
        by intros x Hx ->%list_elem_of_singleton.
      + intros k n. rewrite count_up_lookup by done.
        rewrite List.filter_app, length_app. cbn [List.filter].
        case_decide as Hk.
        * subst k. rewrite bool_decide_eq_true_2 by done. cbn [length]. split.
          -- intros [(m & Hm & ->)|[Hnot ->]].
             ++ apply Hcount in Hm as [? ->]. lia.
             ++ destruct (List.filter _ l0) as [|x xs] eqn:Hf; [simpl; lia|].
                exfalso. apply Hnot. apply list_elem_of_fmap.
                exists (da_action a, Z.of_nat (length (x :: xs))). split; [done|].
                apply Hcount. rewrite Hf. simpl. lia.
          -- intros [Hpos ->].
             destruct (List.filter _ l0) as [|x xs] eqn:Hf.
             ++ right. split; [|simpl; lia].
                intros ([k1 n1] & Hk1 & Hin)%list_elem_of_fmap. simpl in Hk1.
                subst k1. apply Hcount in Hin as [? Hn1]. rewrite Hf in Hn1. simpl in Hn1. lia.
             ++ left. exists (Z.of_nat (length (x :: xs))). split; [|simpl; lia].
                apply Hcount. rewrite Hf. simpl. lia.
        * rewrite bool_decide_eq_false_2 by done. cbn [length].
          rewrite Nat.add_0_r. apply Hcount.
      + rewrite count_up_sum, Hsum, length_app. simpl. lia. }
  destruct (Hgen actions [] []) as (Hnd & Hcount & Hsum).
  { split; [constructor|]. split; [|done].
    intros k n. split; [by intros ?%elem_of_nil|]. simpl. lia. }
  split; [done|]. split; [done|]. split; [done|].
  pose proof (List.filter_length_le
                (fun a : DuplicateAction =>
                   match da_error a with
                   | Some e => str.truthy e
                   | None => false
                   end) actions).
  lia.
Qed.

End Summary.

(** *** Examples *)

(** The keeper among the three copies: the one under [Documents] that is
    the older of the two with the best score. *)
Example choose_file_to_keep_demo :
  choose_file_to_keep demo_world demo_files = Some (f_docs, demo_files).
Proof. vm_compute. reflexivity. Qed.

Lemma choose_file_to_keep_minimal_witness :
  (2 <= length demo_files)%nat /\
  Forall (fun f => is_Some (fi_folder_score f)) demo_files /\
  exists k,
    choose_file_to_keep demo_world demo_files = Some (k, demo_files) /\
    k ∈ demo_files /\
    (forall f, f ∈ demo_files -> key_le (sort_key k) (sort_key f)).
Proof.
  assert (2 <= length demo_files)%nat as Hlen by (vm_compute; lia).
  assert (Forall (fun f => is_Some (fi_folder_score f)) demo_files) as Hsc
    by (repeat constructor; by eexists).
  split; [exact Hlen|]. split; [exact Hsc|].
  destruct (choose_file_to_keep_minimal demo_world demo_files Hlen Hsc)
    as (k & Hk & Hin & Hmin & _).
  exists k. split; [exact Hk|]. split; [exact Hin|exact Hmin].
Defined.

Lemma choose_file_to_keep_full_tie_witness :
  (forall f, f ∈ [g_second] ->
     score (fill_folder_score demo_world f)
       = score (fill_folder_score demo_world g_first) /\
     get_earliest_time f = get_earliest_time g_first /\
     path_len f = path_len g_first) /\
  choose_file_to_keep demo_world [g_first; g_second] =
    Some (fill_folder_score demo_world g_first,
          map (fill_folder_score demo_world) [g_first; g_second]).
Proof.
  assert (forall f, f ∈ [g_second] ->
     score (fill_folder_score demo_world f)
       = score (fill_folder_score demo_world g_first) /\
     get_earliest_time f = get_earliest_time g_first /\
     path_len f = path_len g_first) as Htie.
  { intros f Hf. apply list_elem_of_singleton in Hf. subst f.
    vm_compute. repeat split; reflexivity. }
  split; [exact Htie|].
  exact (choose_file_to_keep_full_tie demo_world g_first [g_second] Htie).
Defined.

Lemma dry_run_never_mutates_witness :
  arg_apply (args (demo_cleaner delete false true)) = false /\
  Forall (fun g : string * list FileInfo => g.2 <> []) demo_groups /\
  exists new,
    process_duplicates demo_groups
      (demo_cleaner delete false true, demo_world) =
      Ok (mkDuplicateCleaner (args (demo_cleaner delete false true))
            (reporter_actions (demo_cleaner delete false true) ++ new)
            (quarantine_manager (demo_cleaner delete false true)), demo_world) /\
    Forall (fun a => da_action a = "dry-run" /\ da_error a = None) new.
Proof.
  assert (Forall (fun g : string * list FileInfo => g.2 <> []) demo_groups) as Hne
    by (repeat constructor; discriminate).
  split; [reflexivity|]. split; [exact Hne|].
  destruct (dry_run_never_mutates demo_groups
              (demo_cleaner delete false true) demo_world eq_refl Hne)
    as (new & Hrun & Hall & _).
  exists new. split; [exact Hrun|exact Hall].
Defined.

Lemma delete_without_confirm_is_refused_witness :
  arg_mode (args (demo_cleaner delete true false)) = delete /\
  arg_apply (args (demo_cleaner delete true false)) = true /\
  arg_confirm (args (demo_cleaner delete true false)) = false /\
  Forall (fun g : string * list FileInfo => g.2 <> []) demo_groups /\
  exists new,
    process_duplicates demo_groups
      (demo_cleaner delete true false, demo_world) =
      Ok (mkDuplicateCleaner (args (demo_cleaner delete true false))
            (reporter_actions (demo_cleaner delete true false) ++ new)
            (quarantine_manager (demo_cleaner delete true false)), demo_world) /\
    Forall (fun a => da_error a = Some "Confirm flag not set") new.
Proof.
  assert (Forall (fun g : string * list FileInfo => g.2 <> []) demo_groups) as Hne
    by (repeat constructor; discriminate).
  split; [reflexivity|]. split; [reflexivity|]. split; [reflexivity|].
  split; [exact Hne|].
  destruct (delete_without_confirm_is_refused demo_groups
              (demo_cleaner delete true false) demo_world eq_refl eq_refl eq_refl Hne)
    as (new & Hrun & Hall & _).
  exists new. split; [exact Hrun|exact Hall].
Defined.

(** The same run in numbers: two records, no call to the file system. *)
Example delete_without_confirm_demo :
  (fun r => match r with
            | Ok (c, w) =>
                Some ((fun a => (da_removed_path a, da_action a, da_error a))
                        <$> reporter_actions c, w_trace w)
            | Raise _ => None
            end)
    (process_duplicates demo_groups
       (demo_cleaner delete true false, demo_world))
  = Some ([("D:\temp\cache\a.txt", "dry-run", Some "Confirm flag not set");
           ("D:\Documents\copy\a.txt", "dry-run", Some "Confirm flag not set")],
          []).
Proof. vm_compute. reflexivity. Qed.


(** The quarantine run over the three copies: the copy under [temp] is
    moved and logged, the copy that the system refuses stays where it is
    and is not logged. *)
Example quarantine_demo :
  (fun r => match r with
            | Ok (c, w) =>
                Some ((fun a => (da_removed_path a, da_action a, da_error a))
                        <$> reporter_actions c,
                      moves <$> quarantine_manager c,
                      is_Some (w_files w !! "D:\Documents\copy\a.txt"),
                      w_files w !! "D:\temp\cache\a.txt")
            | Raise _ => None
            end)
    (process_duplicates demo_groups
       (demo_cleaner quarantine true false, demo_world))
  = Some ([("D:\temp\cache\a.txt", "move", None);
           ("D:\Documents\copy\a.txt", "dry-run", Some "Move failed")],
          Some [("D:\temp\cache\a.txt", "D:\_DUPLICATE_QUARANTINE\temp\cache\a.txt")],
          is_Some (Some hello), None).
Proof. vm_compute. reflexivity. Qed.

Lemma compute_partial_hash_feeds_start_middle_end_witness :
  os_open demo_world "D:\notes.txt" = Some (list_byte_of_string "world!") /\
  partial_hash_chunks demo_world "D:\notes.txt" = Some [list_byte_of_string "world!"] /\
  @compute_partial_hash demo_digest demo_world "D:\notes.txt" = Some "world!".
Proof.
  assert (os_open demo_world "D:\notes.txt" = Some (list_byte_of_string "world!"))
    as Hopen by (vm_compute; reflexivity).
  split; [exact Hopen|].
  destruct (@compute_partial_hash_feeds_start_middle_end demo_digest demo_world
              "D:\notes.txt" (list_byte_of_string "world!") Hopen)
    as (Hchunks & Hhash & _).
  split; [exact Hchunks|exact Hhash].
Defined.

(** The pipeline on the three copies, one of which cannot be read: the
    two readable ones come back as one group. *)
Example find_duplicates_by_hash_demo :
  map (fun g : string * list FileInfo => (g.1, map fi_path g.2))
    (@find_duplicates_by_hash demo_digest demo_scheduler demo_world [(5, demo_files)])
  = [("hello", ["D:\temp\cache\a.txt"; "D:\Documents\a.txt"])].
Proof. vm_compute. reflexivity. Qed.

Lemma full_hash_only_for_partial_collisions_witness :
  f_docs ∈ @candidate_files demo_digest demo_scheduler demo_world [(5, demo_files)] /\
  exists ph,
    @compute_partial_hash demo_digest demo_world (fi_path f_docs) = Some ph /\
    str.truthy ph = true /\
    (2 <= length
            (filter (fun g => @compute_partial_hash demo_digest demo_world (fi_path g)
                              = Some ph)
               (partial_submitted [(5%Z, demo_files)])))%nat.
Proof.
  assert (f_docs ∈ @candidate_files demo_digest demo_scheduler demo_world
                     [(5, demo_files)]) as Hin.
  { vm_compute. left. }
  split; [exact Hin|].
  destruct (@full_hash_only_for_partial_collisions demo_digest demo_scheduler
              demo_world [(5, demo_files)]) as (Hcand & _).
  destruct (Hcand f_docs Hin) as (_ & ph & Hph & Htr & Hlen).
  exists ph. split; [exact Hph|]. split; [exact Htr|exact Hlen].
Defined.

(** The claim of C8 that no error leaves [should_skip_path] fails when an
    exclusion glob is the empty string: matching against it raises. *)
Lemma should_skip_path_raises_on_empty_glob :
  @should_skip_path demo_resolver demo_glob demo_scanner_empty_glob
    (pathlib.of_string "D:\a.txt")
  = Raise ValueError.
Proof. vm_compute. reflexivity. Qed.

Lemma should_skip_path_spec_witness :
  demo_resolver (pathlib.of_string "D:\Games\g.txt")
    = Some (pathlib.of_string "D:\Games\g.txt") /\
  Forall (fun pattern => pattern_parts (str.lower pattern) <> [])
    (exclude_globs demo_scanner) /\
  @should_skip_path demo_resolver demo_glob demo_scanner
    (pathlib.of_string "D:\x\dangling") = Ok true /\
  exists b,
    @should_skip_path demo_resolver demo_glob demo_scanner
      (pathlib.of_string "D:\Games\g.txt") = Ok b /\
    (b = true <->
       (exists excluded, excluded ∈ exclude_paths demo_scanner /\
          (pathlib.eqb (pathlib.of_string "D:\Games\g.txt") excluded = true \/
           pathlib.in_parents excluded (pathlib.of_string "D:\Games\g.txt") = true)) \/
       (exists pattern, pattern ∈ exclude_globs demo_scanner /\
          @pathlib.match_ demo_glob
            (pathlib.of_string
               (str.lower (pathlib.to_string (pathlib.of_string "D:\Games\g.txt"))))
            (str.lower pattern) = Ok true) \/
       str.lower (pathlib.suffix (pathlib.of_string "D:\Games\g.txt"))
         ∈ skip_extensions demo_scanner).
Proof.
  assert (Forall (fun pattern => pattern_parts (str.lower pattern) <> [])
            (exclude_globs demo_scanner)) as Hglobs
    by (repeat constructor; discriminate).
  split; [reflexivity|]. split; [exact Hglobs|].
  destruct (@should_skip_path_spec demo_resolver demo_glob demo_scanner
              (pathlib.of_string "D:\x\dangling")) as (Hfail & _).
  split; [exact (Hfail eq_refl)|].
  destruct (@should_skip_path_spec demo_resolver demo_glob demo_scanner
              (pathlib.of_string "D:\Games\g.txt")) as (_ & Hres & _).
  exact (Hres (pathlib.of_string "D:\Games\g.txt") eq_refl Hglobs).
Defined.

(** The scan of the example tree: the log file, the temporary file, the
    empty file, the file that cannot be read and the excluded directory
    are left out; two sizes have two files each. *)
Example scan_demo :
  (fun r => match r with
            | Ok (buckets, sc) =>
                Some (map (fun b : Z * list FileInfo => (b.1, map fi_path b.2)) buckets,
                      files_scanned sc)
            | Raise _ => None
            end)
    (@scan demo_resolver demo_glob demo_scanner (Some demo_tree))
  = Some ([(5, ["D:\a.txt"; "D:\b.TXT"]); (6, ["D:\c.txt"; "D:\sub\h.txt"])], 4).
Proof. vm_compute. reflexivity. Qed.

Lemma scan_buckets_sound_witness :
  Forall (fun pattern => pattern_parts (str.lower pattern) <> [])
    (exclude_globs demo_scanner) /\
  exists buckets self',
    @scan demo_resolver demo_glob demo_scanner (Some demo_tree) = Ok (buckets, self') /\
    forall size files, (size, files) ∈ buckets ->
      (2 <= length files)%nat /\
      forall f, f ∈ files ->
        fi_size f = size /\
        min_size demo_scanner <= fi_size f <= max_size demo_scanner.
Proof.
  assert (Forall (fun pattern => pattern_parts (str.lower pattern) <> [])
            (exclude_globs demo_scanner)) as Hglobs
    by (repeat constructor; discriminate).
  split; [exact Hglobs|].
  destruct (@scan_buckets_sound demo_resolver demo_glob demo_scanner (Some demo_tree))
    as (Hret & Hsound).
  destruct (Hret Hglobs) as (buckets & self' & Hscan).
  exists buckets, self'. split; [exact Hscan|].
  intros size files Hin. destruct (Hsound buckets self' Hscan size files Hin) as [Hlen Hf].
  split; [exact Hlen|]. intros f Hfin.
  destruct (Hf f Hfin) as (Hsize & Hbounds & _).
  split; [exact Hsize|exact Hbounds].
Defined.

(** The destinations of a rooted path and of a drive-relative path, which
    goes through the fallback. *)
Example get_quarantine_path_demo :
  pathlib.to_string (get_quarantine_path demo_quarantine "D:\temp\cache\a.txt")
    = "D:\_DUPLICATE_QUARANTINE\temp\cache\a.txt" /\
  pathlib.to_string (get_quarantine_path demo_quarantine "D:notes.txt")
    = "D:\_DUPLICATE_QUARANTINE\D_drivenotes.txt".
Proof. split; vm_compute; reflexivity. Qed.


(** Why the statement leaves out device paths and, under a root,
    components that look like a drive: the destination of [\\?\x] is
    [\\?\x] itself, and the destination of [D:\a\c:d] is [c:d]. *)
Example get_quarantine_path_leaves_root :
  pathlib.to_string (get_quarantine_path demo_quarantine "\\?\x") = "\\?\x" /\
  pathlib.to_string (get_quarantine_path demo_quarantine "D:\a\c:d") = "c:d".
Proof. split; vm_compute; reflexivity. Qed.

(** The folder scores of the example world, and the two scenarios of the
    specification: a project directory beats a bare one, and [Documents]
    beats [temp\cache]. *)
Example compute_folder_score_demo :
  compute_folder_score demo_world <$>
    ["D:\Documents\a.txt"; "D:\Documents\copy\a.txt"; "D:\temp\cache\a.txt"]
  = [34; 32; -208] /\
  compute_folder_score project_world <$> ["D:\proj\a.txt"; "D:\other\b.txt"]
  = [74; -6].
Proof. split; vm_compute; reflexivity. Qed.

Example choose_file_to_keep_project :
  fst <$> choose_file_to_keep project_world
            [mkFileInfo "D:\other\b.txt" 5 1 1 None None;
             mkFileInfo "D:\proj\a.txt" 5 2 2 None None]
  = Some (mkFileInfo "D:\proj\a.txt" 5 2 2 None (Some 74)).
Proof. vm_compute. reflexivity. Qed.

Example choose_file_to_keep_documents :
  fst <$> choose_file_to_keep demo_world
            [mkFileInfo "D:\temp\cache\a.txt" 5 900 950 None None;
             mkFileInfo "D:\Documents\a.txt" 5 1000 1200 None None]
  = Some (mkFileInfo "D:\Documents\a.txt" 5 1000 1200 None (Some 34)).
Proof. vm_compute. reflexivity. Qed.

(** *** More examples *)

Lemma partial_hash_of_small_file_is_full_hash_witness :
  os_open demo_world "D:\notes.txt" = Some (list_byte_of_string "world!") /\
  Z.of_nat (length (list_byte_of_string "world!")) <= CHUNK_SIZE /\
  @compute_partial_hash demo_digest demo_world "D:\notes.txt"
  = @compute_full_hash demo_digest demo_world "D:\notes.txt".
Proof.
  assert (os_open demo_world "D:\notes.txt" = Some (list_byte_of_string "world!"))
    as Hopen by (vm_compute; reflexivity).
  assert (Z.of_nat (length (list_byte_of_string "world!")) <= CHUNK_SIZE) as Hsmall
    by (vm_compute; discriminate).
  split; [exact Hopen|]. split; [exact Hsmall|].
  exact (@partial_hash_of_small_file_is_full_hash demo_digest demo_world
           "D:\notes.txt" (list_byte_of_string "world!") Hopen Hsmall).
Defined.


Lemma partial_hash_blind_outside_windows_witness :
  os_open long_world "D:\one.bin" = Some (one_chunk ++ [Byte.x01]) /\
  os_open long_world "D:\two.bin" = Some (one_chunk ++ [Byte.x02]) /\
  one_chunk ++ [Byte.x01] <> one_chunk ++ [Byte.x02] /\
  @compute_partial_hash demo_digest long_world "D:\one.bin"
  = @compute_partial_hash demo_digest long_world "D:\two.bin".
Proof.
  assert (os_open long_world "D:\one.bin" = Some (one_chunk ++ [Byte.x01])) as Ho1
    by reflexivity.
  assert (os_open long_world "D:\two.bin" = Some (one_chunk ++ [Byte.x02])) as Ho2
    by reflexivity.
  assert (length one_chunk = Z.to_nat CHUNK_SIZE) as Hchunk
    by apply length_replicate.
  assert (length (one_chunk ++ [Byte.x01]) = length (one_chunk ++ [Byte.x02])) as Hlen
    by (rewrite !length_app; reflexivity).
  assert (take (Z.to_nat CHUNK_SIZE) (one_chunk ++ [Byte.x01])
          = take (Z.to_nat CHUNK_SIZE) (one_chunk ++ [Byte.x02])) as Hstart
    by (rewrite !take_app_length' by done; reflexivity).
  assert (Z.of_nat (length (one_chunk ++ [Byte.x01])) = CHUNK_SIZE + 1) as Hsize.
  { rewrite length_app, Hchunk, Nat2Z.inj_add, Z2Nat.id by done. reflexivity. }
  split; [exact Ho1|]. split; [exact Ho2|]. split.
  { intros Heq. apply app_inv_head in Heq. discriminate. }
  apply (@partial_hash_blind_outside_windows demo_digest
           long_world "D:\one.bin" (one_chunk ++ [Byte.x01])
           long_world "D:\two.bin" (one_chunk ++ [Byte.x02])
           Ho1 Ho2 Hlen Hstart).
  - rewrite Hsize. unfold CHUNK_SIZE. lia.
  - rewrite Hsize. unfold CHUNK_SIZE. lia.
Defined.

Lemma partial_hash_reads_at_most_three_chunks_witness :
  partial_hash_chunks demo_world "D:\notes.txt" = Some [list_byte_of_string "world!"] /\
  (1 <= length [list_byte_of_string "world!"] <= 3)%nat /\
  Z.of_nat (length (concat [list_byte_of_string "world!"])) <= 3 * CHUNK_SIZE.
Proof.
  assert (partial_hash_chunks demo_world "D:\notes.txt"
          = Some [list_byte_of_string "world!"]) as Hchunks
    by (vm_compute; reflexivity).
  split; [exact Hchunks|].
  destruct (partial_hash_reads_at_most_three_chunks demo_world "D:\notes.txt"
              [list_byte_of_string "world!"] Hchunks) as (Hn & _ & Hbytes).
  split; [exact Hn|exact Hbytes].
Defined.

Lemma identical_files_are_grouped_witness :
  (forall b, str.truthy (@sha256_hexdigest tagged_digest b) = true) /\
  f_docs ∈ partial_submitted [(5, demo_files)] /\
  f_temp ∈ partial_submitted [(5, demo_files)] /\
  f_docs <> f_temp /\
  os_open demo_world (fi_path f_docs) = Some hello /\
  os_open demo_world (fi_path f_temp) = Some hello /\
  exists files,
    (@sha256_hexdigest tagged_digest hello, files)
      ∈ @find_duplicates_by_hash tagged_digest demo_scheduler demo_world
          [(5, demo_files)] /\
    set_hash (@sha256_hexdigest tagged_digest hello) f_docs ∈ files /\
    set_hash (@sha256_hexdigest tagged_digest hello) f_temp ∈ files.
Proof.
  assert (forall b, str.truthy (@sha256_hexdigest tagged_digest b) = true) as Hdigest
    by (intros b; reflexivity).
  assert (f_docs ∈ partial_submitted [(5, demo_files)]) as Hs1
    by (vm_compute; do 2 right; left).
  assert (f_temp ∈ partial_submitted [(5, demo_files)]) as Hs2
    by (vm_compute; left).
  assert (f_docs <> f_temp) as Hne by discriminate.
  assert (os_open demo_world (fi_path f_docs) = Some hello) as Ho1
    by (vm_compute; reflexivity).
  assert (os_open demo_world (fi_path f_temp) = Some hello) as Ho2
    by (vm_compute; reflexivity).
  split; [exact Hdigest|]. split; [exact Hs1|]. split; [exact Hs2|].
  split; [exact Hne|]. split; [exact Ho1|]. split; [exact Ho2|].
  exact (@identical_files_are_grouped tagged_digest demo_scheduler demo_world
           [(5, demo_files)] f_docs f_temp hello Hdigest Hs1 Hs2 Hne Ho1 Ho2).
Defined.

Lemma process_duplicates_one_record_per_duplicate_witness :
  (arg_mode (args (demo_cleaner quarantine true false)) = quarantine ->
   is_Some (quarantine_manager (demo_cleaner quarantine true false))) /\
  Forall (fun g : string * list FileInfo => g.2 <> []) demo_groups /\
  Forall (fun g : string * list FileInfo => NoDup (map fi_path g.2)) demo_groups /\
  exists new qm' w',
    process_duplicates demo_groups (demo_cleaner quarantine true false, demo_world) =
      Ok (mkDuplicateCleaner (args (demo_cleaner quarantine true false))
            (reporter_actions (demo_cleaner quarantine true false) ++ new) qm', w') /\
    length new = 2%nat.
Proof.
  assert (arg_mode (args (demo_cleaner quarantine true false)) = quarantine ->
          is_Some (quarantine_manager (demo_cleaner quarantine true false))) as Hqm
    by (intros _; by eexists).
  assert (Forall (fun g : string * list FileInfo => g.2 <> []) demo_groups) as Hne
    by (repeat constructor; discriminate).
  assert (Forall (fun g : string * list FileInfo => NoDup (map fi_path g.2))
            demo_groups) as Hnd.
  { repeat constructor; vm_compute; intros Hin;
      repeat (apply elem_of_cons in Hin as [Hin|Hin]; [discriminate|]);
      by apply elem_of_nil in Hin. }
  split; [exact Hqm|]. split; [exact Hne|]. split; [exact Hnd|].
  destruct (process_duplicates_one_record_per_duplicate demo_groups
              (demo_cleaner quarantine true false) demo_world Hqm) as [Hret _].
  destruct (Hret Hne) as (new & qm' & w' & Hrun & _ & Hlen).
  exists new, qm', w'. split; [exact Hrun|]. exact (Hlen Hnd).
Defined.

Lemma report_mode_never_mutates_witness :
  arg_mode (args (demo_cleaner report true false)) = report /\
  arg_apply (args (demo_cleaner report true false)) = true /\
  Forall (fun g : string * list FileInfo => g.2 <> []) demo_groups /\
  exists new,
    process_duplicates demo_groups (demo_cleaner report true false, demo_world) =
      Ok (mkDuplicateCleaner (args (demo_cleaner report true false))
            (reporter_actions (demo_cleaner report true false) ++ new)
            (quarantine_manager (demo_cleaner report true false)), demo_world) /\
    Forall (fun a => da_action a = "report-only" /\ da_error a = None) new.
Proof.
  assert (Forall (fun g : string * list FileInfo => g.2 <> []) demo_groups) as Hne
    by (repeat constructor; discriminate).
  split; [reflexivity|]. split; [reflexivity|]. split; [exact Hne|].
  exact (report_mode_never_mutates demo_groups (demo_cleaner report true false)
           demo_world eq_refl eq_refl Hne).
Defined.

Lemma duplicates_found_whatever_the_order_witness :
  ("hello", map (set_hash "hello") [f_temp; f_docs])
    ∈ @find_duplicates_by_hash demo_digest demo_scheduler demo_world
        [(5, demo_files)] /\
  exists g2,
    ("hello", g2) ∈ @find_duplicates_by_hash demo_digest fifo_scheduler demo_world
                      [(5, demo_files)] /\
    map (set_hash "hello") [f_temp; f_docs] ≡ₚ g2.
Proof.
  assert (("hello", map (set_hash "hello") [f_temp; f_docs])
            ∈ @find_duplicates_by_hash demo_digest demo_scheduler demo_world
                [(5, demo_files)]) as Hin
    by (vm_compute; left).
  split; [exact Hin|].
  exact (proj2 (@duplicates_found_whatever_the_order demo_digest
                  demo_scheduler fifo_scheduler demo_world [(5, demo_files)])
           "hello" (map (set_hash "hello") [f_temp; f_docs]) Hin).
Defined.

Lemma found_groups_list_no_path_twice_witness :
  NoDup (map fi_path (partial_submitted [(5, demo_files)])) /\
  NoDup (map fi_path
           (@find_duplicates_by_hash demo_digest demo_scheduler demo_world
              [(5, demo_files)] ≫= snd)).
Proof.
  assert (NoDup (map fi_path (partial_submitted [(5, demo_files)]))) as Hnd.
  { vm_compute. repeat constructor; intros Hin;
      repeat (apply elem_of_cons in Hin as [Hin|Hin]; [discriminate|]);
      by apply elem_of_nil in Hin. }
  split; [exact Hnd|].
  exact (@found_groups_list_no_path_twice demo_digest demo_scheduler demo_world
           [(5, demo_files)] Hnd).
Defined.


Lemma confirmed_delete_removes_listed_files_only_witness :
  arg_mode (args (demo_cleaner delete true true)) = delete /\
  arg_apply (args (demo_cleaner delete true true)) = true /\
  arg_confirm (args (demo_cleaner delete true true)) = true /\
  exists self' w',
    process_duplicates demo_groups (demo_cleaner delete true true, demo_world)
    = Ok (self', w') /\
    w_dirs w' = w_dirs demo_world /\
    w_files w' ⊆ w_files demo_world /\
    (forall p, ~ listed demo_groups p -> w_files w' !! p = w_files demo_world !! p).
Proof.
  split; [reflexivity|]. split; [reflexivity|]. split; [reflexivity|].
  destruct (process_duplicates demo_groups (demo_cleaner delete true true, demo_world))
    as [[self' w']|e] eqn:Hrun; [|vm_compute in Hrun; discriminate].
  exists self', w'. split; [reflexivity|].
  destruct (confirmed_delete_removes_listed_files_only demo_groups
              (demo_cleaner delete true true) demo_world self' w'
              eq_refl eq_refl eq_refl Hrun) as (Hdirs & Hsub & Hframe & _).
  split; [exact Hdirs|]. split; [exact Hsub|exact Hframe].
Defined.



(** The confirmed deletion over the three copies: the copy under [temp] is
    removed, the copy that the system refuses is reported with the error of
    the refusal, and the keeper stays. *)
Example confirmed_delete_demo :
  (fun r => match r with
            | Ok (c, w) =>
                Some ((fun a => (da_removed_path a, da_action a, da_error a))
                        <$> reporter_actions c,
                      w_trace w,
                      (fun p => is_Some (w_files w !! p))
                        <$> ["D:\Documents\a.txt"; "D:\Documents\copy\a.txt";
                             "D:\temp\cache\a.txt"])
            | Raise _ => None
            end)
    (process_duplicates demo_groups (demo_cleaner delete true true, demo_world))
  = Some ([("D:\temp\cache\a.txt", "delete", None);
           ("D:\Documents\copy\a.txt", "dry-run",
            Some "[WinError 5] Access is denied: 'D:\Documents\copy\a.txt'")],
          [SysRemove "D:\temp\cache\a.txt"; SysRemove "D:\Documents\copy\a.txt"],
          [is_Some (Some hello); is_Some (Some hello);
           is_Some (@None (list Byte.byte))]).
Proof. vm_compute. reflexivity. Qed.


Lemma default_choice_means_full_tie_witness :
  choose_file_to_keep demo_world [g_first; g_second]
    = Some (fill_folder_score demo_world g_first,
            map (fill_folder_score demo_world) [g_first; g_second]) /\
  g_second ∈ map (fill_folder_score demo_world) [g_first; g_second] /\
  fi_path g_second <> fi_path (fill_folder_score demo_world g_first) /\
  (_build_reason (fill_folder_score demo_world g_first) g_second = "default choice"
   <-> sort_key (fill_folder_score demo_world g_first) = sort_key g_second).
Proof.
  assert (choose_file_to_keep demo_world [g_first; g_second]
          = Some (fill_folder_score demo_world g_first,
                  map (fill_folder_score demo_world) [g_first; g_second])) as Hch
    by (vm_compute; reflexivity).
  assert (g_second ∈ map (fill_folder_score demo_world) [g_first; g_second]) as Hin
    by (vm_compute; right; left).
  assert (fi_path g_second <> fi_path (fill_folder_score demo_world g_first)) as Hpath
    by (vm_compute; discriminate).
  split; [exact Hch|]. split; [exact Hin|]. split; [exact Hpath|].
  exact (default_choice_means_full_tie demo_world [g_first; g_second]
           (fill_folder_score demo_world g_first)
           (map (fill_folder_score demo_world) [g_first; g_second])
           g_second Hch Hin Hpath).
Defined.

Lemma keeper_independent_of_order_witness :
  [f_temp; f_docs] ≡ₚ [f_docs; f_temp] /\
  (forall f g, f ∈ [f_temp; f_docs] -> g ∈ [f_temp; f_docs] ->
     sort_key (fill_folder_score demo_world f)
       = sort_key (fill_folder_score demo_world g) -> f = g) /\
  fst <$> choose_file_to_keep demo_world [f_temp; f_docs]
  = fst <$> choose_file_to_keep demo_world [f_docs; f_temp].
Proof.
  assert ([f_temp; f_docs] ≡ₚ [f_docs; f_temp]) as Hperm by apply perm_swap.
  assert (forall f g, f ∈ [f_temp; f_docs] -> g ∈ [f_temp; f_docs] ->
            sort_key (fill_folder_score demo_world f)
              = sort_key (fill_folder_score demo_world g) -> f = g) as Hinj.
  { intros f g Hf Hg.
    apply elem_of_cons in Hf as [->|Hf]; [|apply list_elem_of_singleton in Hf as ->];
      (apply elem_of_cons in Hg as [->|Hg];
       [|apply list_elem_of_singleton in Hg as ->]);
      vm_compute; intros Hkey; (reflexivity || discriminate). }
  split; [exact Hperm|]. split; [exact Hinj|].
  exact (keeper_independent_of_order demo_world [f_temp; f_docs] [f_docs; f_temp]
           Hperm Hinj).
Defined.

Lemma siblings_have_the_same_folder_score_witness :
  pathlib.name (pathlib.of_string "D:\proj\a.txt") <> EmptyString /\
  pathlib.name (pathlib.of_string "D:\proj\package.json") <> EmptyString /\
  pathlib.parent (pathlib.of_string "D:\proj\a.txt")
    = pathlib.parent (pathlib.of_string "D:\proj\package.json") /\
  compute_folder_score project_world "D:\proj\a.txt"
  = compute_folder_score project_world "D:\proj\package.json".
Proof.
  assert (pathlib.name (pathlib.of_string "D:\proj\a.txt") <> EmptyString) as Ha
    by (vm_compute; discriminate).
  assert (pathlib.name (pathlib.of_string "D:\proj\package.json") <> EmptyString) as Hb
    by (vm_compute; discriminate).
  assert (pathlib.parent (pathlib.of_string "D:\proj\a.txt")
          = pathlib.parent (pathlib.of_string "D:\proj\package.json")) as Hparent
    by (vm_compute; reflexivity).
  split; [exact Ha|]. split; [exact Hb|]. split; [exact Hparent|].
  exact (siblings_have_the_same_folder_score project_world
           "D:\proj\a.txt" "D:\proj\package.json" Ha Hb Hparent).
Defined.


Lemma quarantine_path_keeps_the_directories_witness :
  pathlib.unc_like "D:\temp\cache\a.txt" = false /\
  pathlib.root (pathlib.of_string "D:\temp\cache\a.txt") <> EmptyString /\
  Forall (fun x => pathlib.drive_like x = false)
    (pathlib.tail (pathlib.of_string "D:\temp\cache\a.txt")) /\
  pathlib.parts (get_quarantine_path demo_quarantine "D:\temp\cache\a.txt")
  = pathlib.parts (quarantine_dir demo_quarantine)
    ++ pathlib.tail (pathlib.of_string "D:\temp\cache\a.txt").
Proof.
  assert (pathlib.unc_like "D:\temp\cache\a.txt" = false) as Hunc
    by (vm_compute; reflexivity).
  assert (pathlib.root (pathlib.of_string "D:\temp\cache\a.txt") <> EmptyString)
    as Hroot by (vm_compute; discriminate).
  assert (Forall (fun x => pathlib.drive_like x = false)
            (pathlib.tail (pathlib.of_string "D:\temp\cache\a.txt"))) as Hdl
    by (vm_compute; repeat constructor).
  split; [exact Hunc|]. split; [exact Hroot|]. split; [exact Hdl|].
  exact (proj1 (quarantine_path_keeps_the_directories demo_quarantine
                  "D:\temp\cache\a.txt" Hunc Hroot Hdl)).
Defined.

Lemma quarantine_path_forgets_the_drive_witness :
  pathlib.unc_like "C:\data\x.txt" = false /\
  pathlib.unc_like "D:\data\x.txt" = false /\
  pathlib.root (pathlib.of_string "C:\data\x.txt") <> EmptyString /\
  pathlib.root (pathlib.of_string "D:\data\x.txt") <> EmptyString /\
  Forall (fun x => pathlib.drive_like x = false)
    (pathlib.tail (pathlib.of_string "C:\data\x.txt")) /\
  pathlib.tail (pathlib.of_string "C:\data\x.txt")
    = pathlib.tail (pathlib.of_string "D:\data\x.txt") /\
  get_quarantine_path demo_quarantine "C:\data\x.txt"
  = get_quarantine_path demo_quarantine "D:\data\x.txt".
Proof.
  assert (pathlib.unc_like "C:\data\x.txt" = false) as Ha by (vm_compute; reflexivity).
  assert (pathlib.unc_like "D:\data\x.txt" = false) as Hb by (vm_compute; reflexivity).
  assert (pathlib.root (pathlib.of_string "C:\data\x.txt") <> EmptyString) as Hra
    by (vm_compute; discriminate).
  assert (pathlib.root (pathlib.of_string "D:\data\x.txt") <> EmptyString) as Hrb
    by (vm_compute; discriminate).
  assert (Forall (fun x => pathlib.drive_like x = false)
            (pathlib.tail (pathlib.of_string "C:\data\x.txt"))) as Hdl
    by (vm_compute; repeat constructor).
  assert (pathlib.tail (pathlib.of_string "C:\data\x.txt")
          = pathlib.tail (pathlib.of_string "D:\data\x.txt")) as Htail
    by (vm_compute; reflexivity).
  split; [exact Ha|]. split; [exact Hb|]. split; [exact Hra|]. split; [exact Hrb|].
  split; [exact Hdl|]. split; [exact Htail|].
  exact (quarantine_path_forgets_the_drive demo_quarantine
           "C:\data\x.txt" "D:\data\x.txt" Ha Hb Hra Hrb Hdl Htail).
Defined.

Lemma quarantine_run_logs_every_move_witness :
  arg_mode (args (demo_cleaner quarantine true false)) = quarantine /\
  arg_apply (args (demo_cleaner quarantine true false)) = true /\
  quarantine_manager (demo_cleaner quarantine true false) = Some demo_quarantine /\
  exists self' w',
    process_duplicates demo_groups (demo_cleaner quarantine true false, demo_world)
    = Ok (self', w') /\
    exists new qm',
      reporter_actions self'
        = reporter_actions (demo_cleaner quarantine true false) ++ new /\
      quarantine_manager self' = Some qm' /\
      moves qm' = moves demo_quarantine ++
        ((fun a => (da_removed_path a,
                    pathlib.to_string
                      (get_quarantine_path demo_quarantine (da_removed_path a))))
           <$> List.filter (fun a => bool_decide (da_action a = "move")) new).
Proof.
  split; [reflexivity|]. split; [reflexivity|]. split; [reflexivity|].
  destruct (process_duplicates demo_groups
              (demo_cleaner quarantine true false, demo_world))
    as [[self' w']|e] eqn:Hrun; [|vm_compute in Hrun; discriminate].
  exists self', w'. split; [reflexivity|].
  destruct (quarantine_run_logs_every_move demo_groups
              (demo_cleaner quarantine true false) demo_quarantine demo_world
              self' w' eq_refl eq_refl eq_refl Hrun)
    as (new & qm' & calls & Hnew & Hqm & _ & Hmoves & _).
  exists new, qm'. split; [exact Hnew|]. split; [exact Hqm|exact Hmoves].
Defined.

Lemma scan_counts_every_recorded_file_witness :
  exists buckets self',
    @scan demo_resolver demo_glob demo_scanner (Some demo_tree) = Ok (buckets, self') /\
    files_scanned demo_scanner + Z.of_nat (length (buckets ≫= snd))
      <= files_scanned self'.
Proof.
  destruct (@scan demo_resolver demo_glob demo_scanner (Some demo_tree))
    as [[buckets self']|e] eqn:Hscan; [|vm_compute in Hscan; discriminate].
  exists buckets, self'. split; [reflexivity|].
  exact (proj1 (@scan_counts_every_recorded_file demo_resolver demo_glob
                  demo_scanner (Some demo_tree) buckets self' Hscan)).
Defined.

Lemma skip_extensions_ignore_case_witness :
  @Scanner_init demo_resolver "D:\" ["D:\Games"] ["*.tmp"] [".LOG"] 1 1000
    = Ok demo_scanner /\
  ".LOG" ∈ [".LOG"] /\
  str.lower (pathlib.suffix (pathlib.of_string "D:\x\trace.Log")) = str.lower ".LOG" /\
  @should_skip_path demo_resolver demo_glob demo_scanner
    (pathlib.of_string "D:\x\trace.Log") <> Ok false.
Proof.
  assert (@Scanner_init demo_resolver "D:\" ["D:\Games"] ["*.tmp"] [".LOG"] 1 1000
          = Ok demo_scanner) as Hinit by (vm_compute; reflexivity).
  assert (".LOG" ∈ [".LOG"]) as Hext by left.
  assert (str.lower (pathlib.suffix (pathlib.of_string "D:\x\trace.Log"))
          = str.lower ".LOG") as Hsuffix by (vm_compute; reflexivity).
  split; [exact Hinit|]. split; [exact Hext|]. split; [exact Hsuffix|].
  exact (@skip_extensions_ignore_case demo_resolver demo_glob
           "D:\" ["D:\Games"] ["*.tmp"] [".LOG"] 1 1000 demo_scanner
           (pathlib.of_string "D:\x\trace.Log") ".LOG" Hinit Hext Hsuffix).
Defined.

Lemma skipped_directory_is_not_entered_witness :
  @should_skip_path demo_resolver demo_glob demo_scanner
    (pathlib.joinpath_str (pathlib.of_string "D:\") "Games") = Ok true /\
  @walk demo_resolver demo_glob demo_scanner (pathlib.of_string "D:\")
    (Dir [("a.txt", Some (mkStat 5 1000 1000))]
       (forest_app (Leave "link" Done)
          (Enter "Games" (Dir [("g.txt", Some (mkStat 5 1000 1000))] Done) Done)))
    ([], 0)
  = @walk demo_resolver demo_glob demo_scanner (pathlib.of_string "D:\")
      (Dir [("a.txt", Some (mkStat 5 1000 1000))]
         (forest_app (Leave "link" Done) (Enter "Games" (Dir [] Done) Done)))
      ([], 0).
Proof.
  assert (@should_skip_path demo_resolver demo_glob demo_scanner
            (pathlib.joinpath_str (pathlib.of_string "D:\") "Games") = Ok true) as Hskip
    by (vm_compute; reflexivity).
  split; [exact Hskip|].
  exact (@skipped_directory_is_not_entered demo_resolver demo_glob demo_scanner
           (pathlib.of_string "D:\") [("a.txt", Some (mkStat 5 1000 1000))]
           (Leave "link" Done) "Games"
           (Dir [("g.txt", Some (mkStat 5 1000 1000))] Done) (Dir [] Done) Done
           ([], 0) Hskip).
Defined.

Lemma scan_finds_files_of_equal_size_witness :
  exists buckets self',
    @scan demo_resolver demo_glob demo_scanner (Some demo_tree) = Ok (buckets, self') /\
    exists files,
      (6, files) ∈ buckets /\
      file_info_of (pathlib.joinpath_str (pathlib.of_string "D:\") "c.txt")
        (mkStat 6 1000 1000) ∈ files /\
      file_info_of
        (pathlib.joinpath_str
           (pathlib.joinpath_str (pathlib.of_string "D:\") "sub") "h.txt")
        (mkStat 6 1000 1000) ∈ files.
Proof.
  destruct (@scan demo_resolver demo_glob demo_scanner (Some demo_tree))
    as [[buckets self']|e] eqn:Hscan; [|vm_compute in Hscan; discriminate].
  exists buckets, self'. split; [reflexivity|].
  assert (@lists demo_resolver demo_glob demo_scanner (sc_root demo_scanner) demo_tree
            (pathlib.of_string "D:\")
            [("a.txt", Some (mkStat 5 1000 1000));
             ("b.TXT", Some (mkStat 5 1100 1100));
             ("c.txt", Some (mkStat 6 1000 1000));
             ("d.log", Some (mkStat 5 1000 1000));
             ("e.tmp", Some (mkStat 5 1000 1000));
             ("empty.txt", Some (mkStat 0 1000 1000));
             ("gone.txt", None)]) as Hl1
    by apply lists_top.
  assert (@lists demo_resolver demo_glob demo_scanner (sc_root demo_scanner) demo_tree
            (pathlib.joinpath_str (pathlib.of_string "D:\") "sub")
            [("h.txt", Some (mkStat 6 1000 1000))]) as Hl2.
  { apply (@lists_below demo_resolver demo_glob demo_scanner (pathlib.of_string "D:\") _
             (Enter "Games" (Dir [("g.txt", Some (mkStat 5 1000 1000))] Done) Done)
             "sub" (Dir [("h.txt", Some (mkStat 6 1000 1000))] Done)
             (Leave "link" Done));
      [vm_compute; reflexivity|apply lists_top]. }
  assert (("c.txt", Some (mkStat 6 1000 1000))
            ∈ [("a.txt", Some (mkStat 5 1000 1000));
               ("b.TXT", Some (mkStat 5 1100 1100));
               ("c.txt", Some (mkStat 6 1000 1000));
               ("d.log", Some (mkStat 5 1000 1000));
               ("e.tmp", Some (mkStat 5 1000 1000));
               ("empty.txt", Some (mkStat 0 1000 1000));
               ("gone.txt", None)]) as Hin1 by (do 2 right; left).
  assert (("h.txt", Some (mkStat 6 1000 1000))
            ∈ [("h.txt", Some (mkStat 6 1000 1000))]) as Hin2 by left.
  assert (@should_skip_path demo_resolver demo_glob demo_scanner
            (pathlib.joinpath_str (pathlib.of_string "D:\") "c.txt") = Ok false) as Hs1
    by (vm_compute; reflexivity).
  assert (@should_skip_path demo_resolver demo_glob demo_scanner
            (pathlib.joinpath_str
               (pathlib.joinpath_str (pathlib.of_string "D:\") "sub") "h.txt")
          = Ok false) as Hs2
    by (vm_compute; reflexivity).
  assert (min_size demo_scanner <= st_size (mkStat 6 1000 1000)
          <= max_size demo_scanner) as Hsize by (vm_compute; split; discriminate).
  assert (file_info_of (pathlib.joinpath_str (pathlib.of_string "D:\") "c.txt")
            (mkStat 6 1000 1000)
          <> file_info_of
               (pathlib.joinpath_str
                  (pathlib.joinpath_str (pathlib.of_string "D:\") "sub") "h.txt")
               (mkStat 6 1000 1000)) as Hne
    by (vm_compute; discriminate).
  exact (@scan_finds_files_of_equal_size demo_resolver demo_glob demo_scanner
           demo_tree buckets self'
           (pathlib.of_string "D:\") _ "c.txt" (mkStat 6 1000 1000)
           (pathlib.joinpath_str (pathlib.of_string "D:\") "sub") _ "h.txt"
           (mkStat 6 1000 1000)
           Hscan Hl1 Hin1 Hl2 Hin2 Hs1 Hs2 Hsize eq_refl Hne).
Defined.

Lemma excluded_paths_are_skipped_before_the_globs_witness :
  @resolve demo_resolver (pathlib.of_string "D:\Games\g.txt")
    = Some (pathlib.of_string "D:\Games\g.txt") /\
  pathlib.of_string "D:\Games" ∈ exclude_paths demo_scanner /\
  pathlib.in_parents (pathlib.of_string "D:\Games") (pathlib.of_string "D:\Games\g.txt")
    = true /\
  @should_skip_path demo_resolver demo_glob demo_scanner
    (pathlib.of_string "D:\Games\g.txt") = Ok true.
Proof.
  assert (@resolve demo_resolver (pathlib.of_string "D:\Games\g.txt")
          = Some (pathlib.of_string "D:\Games\g.txt")) as Hres
    by (vm_compute; reflexivity).
  assert (pathlib.of_string "D:\Games" ∈ exclude_paths demo_scanner) as Hin
    by (vm_compute; left).
  assert (pathlib.in_parents (pathlib.of_string "D:\Games")
            (pathlib.of_string "D:\Games\g.txt") = true) as Hpar
    by (vm_compute; reflexivity).
  split; [exact Hres|]. split; [exact Hin|]. split; [exact Hpar|].
  exact (proj1 (proj2 (@excluded_paths_are_skipped_before_the_globs demo_resolver
                         demo_glob demo_scanner (pathlib.of_string "D:\Games\g.txt")))
           _ _ Hres Hin (or_intror Hpar)).
Defined.

Lemma scan_fails_only_on_an_empty_glob_witness :
  @scan demo_resolver demo_glob demo_scanner_empty_glob (Some demo_tree)
    = Raise ValueError /\
  ValueError = ValueError /\
  exists pattern, pattern ∈ exclude_globs demo_scanner_empty_glob /\
    pattern_parts (str.lower pattern) = [].
Proof.
  assert (@scan demo_resolver demo_glob demo_scanner_empty_glob (Some demo_tree)
          = Raise ValueError) as Hscan by (vm_compute; reflexivity).
  split; [exact Hscan|].
  exact (@scan_fails_only_on_an_empty_glob demo_resolver demo_glob
           demo_scanner_empty_glob (Some demo_tree) ValueError Hscan).
Defined.

Lemma quarantine_directory_lies_under_the_root_witness :
  arg_mode (mkArgs "D:\data" quarantine true false 4) = quarantine /\
  pathlib.unc_like "D:\data" = false /\
  Forall (fun x => pathlib.drive_like x = false)
    (pathlib.tail (pathlib.of_string "D:\data")) /\
  exists qm,
    quarantine_manager (DuplicateCleaner_init (mkArgs "D:\data" quarantine true false 4))
      = Some qm /\
    moves qm = [] /\
    quarantine_dir qm
      = pathlib.joinpath_str (pathlib.of_string "D:\data") "_DUPLICATE_QUARANTINE" /\
    pathlib.parts (quarantine_dir qm)
      = pathlib.parts (pathlib.of_string "D:\data") ++ ["_DUPLICATE_QUARANTINE"] /\
    pathlib.in_parents (pathlib.of_string "D:\data") (quarantine_dir qm) = true.
Proof.
  assert (pathlib.unc_like "D:\data" = false) as Hunc by (vm_compute; reflexivity).
  assert (Forall (fun x => pathlib.drive_like x = false)
            (pathlib.tail (pathlib.of_string "D:\data"))) as Htail
    by (vm_compute; repeat constructor).
  split; [reflexivity|]. split; [exact Hunc|]. split; [exact Htail|].
  exact (quarantine_directory_lies_under_the_root
           (mkArgs "D:\data" quarantine true false 4) eq_refl Hunc Htail).
Defined.

Lemma records_name_files_of_their_group_witness :
  (arg_mode (args (demo_cleaner delete true true)) = quarantine ->
   is_Some (quarantine_manager (demo_cleaner delete true true))) /\
  exists self' w',
    process_duplicates demo_groups (demo_cleaner delete true true, demo_world)
      = Ok (self', w') /\
    exists new,
      reporter_actions self' = reporter_actions (demo_cleaner delete true true) ++ new /\
      Forall (fun a =>
                exists files kept removed,
                  (da_hash a, files) ∈ demo_groups /\
                  kept ∈ files /\ removed ∈ files /\
                  da_kept_path a = fi_path kept /\
                  da_kept_ctime a = fi_ctime kept /\
                  da_kept_mtime a = fi_mtime kept /\
                  da_removed_path a = fi_path removed /\
                  da_size a = fi_size removed /\
                  da_removed_ctime a = fi_ctime removed /\
                  da_removed_mtime a = fi_mtime removed /\
                  da_kept_path a <> da_removed_path a) new.
Proof.
  assert (arg_mode (args (demo_cleaner delete true true)) = quarantine ->
          is_Some (quarantine_manager (demo_cleaner delete true true))) as Hqm
    by (intros Hmode; discriminate Hmode).
  split; [exact Hqm|].
  destruct (process_duplicates demo_groups (demo_cleaner delete true true, demo_world))
    as [[self' w']|e] eqn:Hrun; [|vm_compute in Hrun; discriminate Hrun].
  exists self', w'. split; [reflexivity|].
  exact (records_name_files_of_their_group demo_groups
           (demo_cleaner delete true true) demo_world self' w' Hqm Hrun).
Defined.
